(** * pgCarpenter: the create-backup engine

    A shallow embedding of [createBackup], [uploadFiles], [ignoreFile] and
    [backupWorker] of create_backup.go, together with the properties of the
    backup protocol that the specification states about them.

    There are two revisions of create_backup.go.  The embedding follows the
    one that goes through the storage interface ([a.storage]): it has the
    existence check, the directory placeholders and the tolerant walk that
    the specification describes.  The other revision calls the S3 client
    directly; module [DirectS3] embeds the functions in which it differs.

    The program is concurrent: one control goroutine runs [createBackup]
    (and, inside [uploadFiles], the directory walk), and [nWorkers] worker
    goroutines run [backupWorker].  The embedding is a deterministic step
    function driven by a schedule, a list of scheduling decisions; a
    property of "every run" is a property of every schedule. *)

From Stdlib Require Import Ascii.
From stdpp Require Import gmap strings list.

Open Scope string_scope.

(* ===================================================================== *)
(** ** Strings and paths (Go's [strings] and [path/filepath], Unix)      *)
(* ===================================================================== *)

(** [strings.HasPrefix(s, prefix)]. *)
Fixpoint HasPrefix (s prefix : string) : bool :=
  match prefix with
  | EmptyString => true
  | String c prefix' =>
      match s with
      | EmptyString => false
      | String d s' => if Ascii.eqb c d then HasPrefix s' prefix' else false
      end
  end.

(** [s[n:]]. *)
Fixpoint string_drop (n : nat) (s : string) : string :=
  match n, s with
  | O, _ => s
  | S n', String _ s' => string_drop n' s'
  | S _, EmptyString => EmptyString
  end.

(** [strings.TrimPrefix(s, prefix)]. *)
Definition TrimPrefix (s prefix : string) : string :=
  if HasPrefix s prefix then string_drop (String.length prefix) s else s.

(** The components of a path, separated by the slash; [cur] is the
    component being read. *)
Fixpoint components (s cur : string) : list string :=
  match s with
  | EmptyString => [cur]
  | String c s' =>
      if Ascii.eqb c "/"%char then cur :: components s' ""
      else components s' (cur +:+ String c "")
  end.

(** One round of the loop of [filepath.Clean]: [out] holds the components
    written so far, the last one first. *)
Definition clean_component (rooted : bool) (out : list string) (c : string)
  : list string :=
  if decide (c = "") then out
  else if decide (c = ".") then out
  else if decide (c = "..") then
    match out with
    | [] => if rooted then [] else [".."]
    | top :: rest => if decide (top = "..") then ".." :: out else rest
    end
  else c :: out.

Fixpoint join_slash (l : list string) : string :=
  match l with
  | [] => ""
  | [c] => c
  | c :: l' => c +:+ "/" +:+ join_slash l'
  end.

(** [filepath.Clean(path)]. *)
Definition filepath_Clean (path : string) : string :=
  match path with
  | EmptyString => "."
  | String c0 _ =>
      let rooted := Ascii.eqb c0 "/"%char in
      let out := fold_left (clean_component rooted) (components path "") [] in
      let body := join_slash (rev out) in
      if rooted then "/" +:+ body
      else if decide (body = "") then "." else body
  end.

(** [filepath.Join(a, b)]: the elements from the first non-empty one on,
    joined by slashes and cleaned. *)
Definition filepath_Join (a b : string) : string :=
  if decide (a = "") then
    (if decide (b = "") then "" else filepath_Clean b)
  else filepath_Clean (a +:+ "/" +:+ b).

(** [lz4.Extension] of github.com/pierrec/lz4. *)
Definition lz4_Extension : string := ".lz4".

(* ===================================================================== *)
(** ** Data model                                                        *)
(* ===================================================================== *)

(** The package-level constants that create_backup.go uses and that are
    declared elsewhere in the package. *)
Record Constants := {
  DirectoryExtension : string;          (* util.DirectoryExtension *)
  successfullyCompletedFolder : string;
  latestKey : string;
}.

(** The fields of [app] that create-backup reads. *)
Record app := {
  backupName : string;
  pgDataDirectory : string;
  tmpDirectory : string;
  compressThreshold : Z;
  nWorkers : nat;
}.

(** [os.FileInfo], as far as it is used. *)
Record FileInfo := {
  IsDir : bool;
  Size : Z;
  ModTime : Z;       (* ModTime().Unix() *)
}.

Inductive os_error := ErrNotExist | ErrPermission | ErrIO.

(** [os.IsNotExist]. *)
Definition IsNotExist (e : os_error) : bool :=
  match e with ErrNotExist => true | _ => false end.

(** One invocation of the callback by [filepath.Walk]: the path and either
    the entry's [FileInfo] or the error met on the way to it. *)
Record Visit := {
  v_path : string;
  v_res : FileInfo + os_error;
}.

(** A remote object: a small text written by [PutString] or the contents
    of a local file uploaded by [Put]. *)
Inductive Object :=
| Text (value : string)
| File (src : string) (mtime : Z).

Inductive StorageError := NotFound | Unavailable.

(** Who acts: the control goroutine or worker number [i]. *)
Inductive Actor := Main | Worker (i : nat).

(** The effects of a run on the world around it. *)
Inductive Op :=
| GetStringOp (key : string)
| PutStringOp (key value : string)
| PutOp (key src : string) (mtime : Z)
| StartBackupOp
| StopBackupOp
| SendOp (file : string)
| CompressOp (src : string)
| RemoveOp (path : string)
| FatalOp.

Record Event := {
  ev_actor : Actor;
  ev_op : Op;
  ev_ok : bool;
}.

(** Everything outside the program: the faults of the storage backend
    (which may depend on all that happened before), the answers of the
    database, what the directory walk visits, what a later [os.Stat]
    returns and whether the compressor succeeds on a file (and the name it
    gives the temporary file). *)
Record World := {
  get_fault : list Event -> string -> bool;
  put_fault : list Event -> string -> bool;
  db_start_ok : bool;
  db_stop : option (string * string * string);   (* lsn, labelFile, mapFile *)
  walk : list Visit;
  os_Stat : string -> option FileInfo;
  lz4_tmp : string -> option string;
}.

(** Where a worker goroutine stands: before a receive, holding a path it
    received, or returned. *)
Inductive WorkerState := Idle | Busy (pgFile : string) | Done.

(** Where the control goroutine stands in [createBackup]. *)
Inductive Pc :=
| AtCheck                                  (* storage.GetString(backupKey) *)
| AtReserve                                (* storage.PutString(backupKey, "") *)
| AtStart                                  (* startBackup *)
| AtSpawn                                  (* uploadFiles: spawn the pool *)
| Walking (rest : list Visit)              (* filepath.Walk, visits to come *)
| Sending (file : string) (rest : list Visit)   (* blocked in filesC <- file *)
| Waiting                                  (* wg.Wait() *)
| AtStop                                   (* stopBackup: pg_stop_backup *)
| AtLabel (labelFile mapFile : string)     (* stopBackup: backup_label *)
| AtMap (mapFile : string)                 (* stopBackup: tablespace_map *)
| AtMark                                   (* putSuccessfulMarker *)
| AtLatest                                 (* updateLatest *)
| AtSuccess                                (* "Backup successfully completed" *)
| Returned (code : Z).

Record State := {
  objects : gmap string Object;
  history : list Event;          (* newest first *)
  pc : Pc;
  workers : list WorkerState;
  items : nat;
  closed : bool;                 (* filesC is closed *)
  halted : option Z;             (* os.Exit by logger.Fatal *)
}.

Definition set_objects (o : gmap string Object) (s : State) : State :=
  {| objects := o; history := history s; pc := pc s; workers := workers s;
     items := items s; closed := closed s; halted := halted s |}.
Definition set_pc (p : Pc) (s : State) : State :=
  {| objects := objects s; history := history s; pc := p; workers := workers s;
     items := items s; closed := closed s; halted := halted s |}.
Definition set_workers (ws : list WorkerState) (s : State) : State :=
  {| objects := objects s; history := history s; pc := pc s; workers := ws;
     items := items s; closed := closed s; halted := halted s |}.
Definition set_items (n : nat) (s : State) : State :=
  {| objects := objects s; history := history s; pc := pc s; workers := workers s;
     items := n; closed := closed s; halted := halted s |}.
Definition set_closed (b : bool) (s : State) : State :=
  {| objects := objects s; history := history s; pc := pc s; workers := workers s;
     items := items s; closed := b; halted := halted s |}.
Definition set_halted (h : option Z) (s : State) : State :=
  {| objects := objects s; history := history s; pc := pc s; workers := workers s;
     items := items s; closed := closed s; halted := h |}.

(** Record an effect. *)
Definition emit (who : Actor) (o : Op) (ok : bool) (s : State) : State :=
  {| objects := objects s;
     history := {| ev_actor := who; ev_op := o; ev_ok := ok |} :: history s;
     pc := pc s; workers := workers s;
     items := items s; closed := closed s; halted := halted s |}.

(** The state in which [createBackup] is called, over a given bucket. *)
Definition init (objs : gmap string Object) : State :=
  {| objects := objs; history := []; pc := AtCheck; workers := [];
     items := 0; closed := false; halted := None |}.

(* ===================================================================== *)
(** ** The program                                                       *)
(* ===================================================================== *)

(** there's no point on taking backups of directories like log or pg_xlog *)
Definition prefixesNotToBackup : list string :=
  ["log"; "pg_xlog"; "postmaster.pid"; "pg_replslot"].

(** [ignoreFile]: true iff the path is in one of the directories we do not
    need to backup. *)
Definition ignoreFile (path : string) : bool :=
  existsb (fun d => HasPrefix path d) prefixesNotToBackup.

(** What one invocation of the callback of [filepath.Walk] in [uploadFiles]
    does: return nil without sending, send the relative path on [filesC]
    (and return nil), or return the error, which ends the walk. *)
Inductive Callback := Skip | Hand (file : string) | Abort (e : os_error).

Section Program.

Variable K : Constants.
Variable W : World.
Variable a : app.

(** *** The storage backend *)

(** Modelled from the spec: the storage backend behind [a.storage] is not
    part of create_backup.go.  [GetString(key)] fetches a small object and
    returns a distinguishable not-found condition when the key is absent;
    like every call to the backend it can also fail for another reason. *)
Definition GetString (who : Actor) (key : string) (s : State)
  : (Object + StorageError) * State :=
  if get_fault W (history s) key
  then (inr Unavailable, emit who (GetStringOp key) false s)
  else match objects s !! key with
       | Some o => (inl o, emit who (GetStringOp key) true s)
       | None => (inr NotFound, emit who (GetStringOp key) false s)
       end.

(** Modelled from the spec: [PutString(key, value)] creates or overwrites a
    small textual object; the result says whether it succeeded. *)
Definition PutString (who : Actor) (key value : string) (s : State)
  : bool * State :=
  if put_fault W (history s) key
  then (false, emit who (PutStringOp key value) false s)
  else (true, emit who (PutStringOp key value) true
                (set_objects (<[key := Text value]> (objects s)) s)).

(** Modelled from the spec: [Put(key, sourceLocalPath, modTimeUnix)] uploads
    the contents of a local file. *)
Definition Put (who : Actor) (key src : string) (mtime : Z) (s : State)
  : bool * State :=
  if put_fault W (history s) key
  then (false, emit who (PutOp key src mtime) false s)
  else (true, emit who (PutOp key src mtime) true
                (set_objects (<[key := File src mtime]> (objects s)) s)).

(** *** The compressor *)

(** Modelled from the spec: [util.Compress(path, tmpDir)] is not part of
    create_backup.go.  It streams the file through the codec into a
    temporary local file and returns the path of that file, which lies in
    the temporary directory; it can fail. *)
Definition Compress (path tmpDir : string) : option string :=
  match lz4_tmp W path with
  | Some name => Some (tmpDir +:+ "/" +:+ name)
  | None => None
  end.

(** Modelled from the spec: [util.MustRemoveFile] removes the temporary
    compressed artifact after the upload attempt. *)
Definition MustRemoveFile (who : Actor) (path : string) (s : State) : State :=
  emit who (RemoveOp path) true s.

(** [logger.Fatal]: log, then [os.Exit(1)]. *)
Definition Fatal (who : Actor) (s : State) : State :=
  set_halted (Some 1%Z) (emit who FatalOp true s).

(** *** createBackup and uploadFiles: the control goroutine *)

Definition backupKey : string := backupName a +:+ "/".

(** [getSuccessfulMarker]. *)
Definition getSuccessfulMarker (name : string) : string :=
  filepath_Join (successfullyCompletedFolder K) name.

(** [putSuccessfulMarker]. *)
Definition putSuccessfulMarker (name : string) (s : State) : bool * State :=
  PutString Main (getSuccessfulMarker name) "" s.

(** [updateLatest]. *)
Definition updateLatest (name : string) (s : State) : bool * State :=
  PutString Main (latestKey K) name s.

(** The callback handed to [filepath.Walk] in [uploadFiles]. *)
Definition walkFn (v : Visit) : Callback :=
  match v_res v with
  | inr err =>
      (* files might change during the copy process *)
      if IsNotExist err then Skip
      (* anything other than the file not existing is a problem *)
      else Abort err
  | inl _ =>
      (* grab just the path relative to the data directory *)
      let file := TrimPrefix (v_path v) (pgDataDirectory a) in
      if ignoreFile file then Skip else Hand file
  end.

Definition is_done (w : WorkerState) : bool :=
  match w with Done => true | _ => false end.

(** One step of the control goroutine.  A step makes at most one call to
    the world outside; a failing call and the [return 1] after it are one
    step.  In [Sending] the goroutine is blocked until a
    worker receives, and in [Waiting] until every worker has returned. *)
Definition control_step (s : State) : State :=
  match pc s with
  | AtCheck =>
      (* don't allow existing backups to be overwritten *)
      let '(r, s1) := GetString Main backupKey s in
      match r with
      | inl _ => set_pc (Returned 1) s1            (* err == nil *)
      | inr _ => set_pc AtReserve s1
      end
  | AtReserve =>
      let '(ok, s1) := PutString Main backupKey "" s in
      if ok then set_pc AtStart s1 else set_pc (Returned 1) s1
  | AtStart =>
      let s1 := emit Main StartBackupOp (db_start_ok W) s in
      if db_start_ok W then set_pc AtSpawn s1 else set_pc (Returned 1) s1
  | AtSpawn =>
      set_workers (replicate (nWorkers a) Idle) (set_pc (Walking (walk W)) s)
  | Walking [] =>
      (* the walk returned nil: close(filesC), then wg.Wait() *)
      set_closed true (set_pc Waiting s)
  | Walking (v :: rest) =>
      match walkFn v with
      | Skip => set_pc (Walking rest) s
      | Hand file => set_pc (Sending file rest) s
      | Abort _ =>
          (* "Failed to walk data directory": uploadFiles returns 1 *)
          set_items 1 (set_pc AtStop s)
      end
  | Sending _ _ => s
  | Waiting =>
      if forallb is_done (workers s) then set_pc AtStop s else s
  | AtStop =>
      match db_stop W with
      | None => set_pc (Returned 1) (emit Main StopBackupOp false s)
      | Some (_, labelFile, mapFile) =>
          set_pc (AtLabel labelFile mapFile) (emit Main StopBackupOp true s)
      end
  | AtLabel labelFile mapFile =>
      let '(ok, s1) := PutString Main (backupName a +:+ "/backup_label") labelFile s in
      if ok then
        (if decide (mapFile = "") then set_pc AtMark s1 else set_pc (AtMap mapFile) s1)
      else set_pc (Returned 1) s1
  | AtMap mapFile =>
      let '(ok, s1) := PutString Main (backupName a +:+ "/tablespace_map") mapFile s in
      if ok then set_pc AtMark s1 else set_pc (Returned 1) s1
  | AtMark =>
      (* mark the backup as successful; a failure is logged *)
      let '(_, s1) := putSuccessfulMarker (backupName a) s in
      set_pc AtLatest s1
  | AtLatest =>
      (* update the LATEST marker *)
      let '(ok, s1) := updateLatest (backupName a) s in
      if ok then set_pc AtSuccess s1 else set_pc (Returned 1) s1
  | AtSuccess =>
      (* the closing log line, then return 0 *)
      set_pc (Returned 0) s
  | Returned _ => s
  end.

(** *** backupWorker *)

(** The body of the loop of [backupWorker] for one received path. *)
Definition process (i : nat) (pgFile : string) (s : State) : State :=
  let pgFilePath := filepath_Join (pgDataDirectory a) pgFile in
  match os_Stat W pgFilePath with
  | None => s      (* "Failed to stat file. Might have been removed": continue *)
  | Some st =>
      (* name the object after the file path relative to the data directory *)
      let key := filepath_Join (backupName a) pgFile in
      if IsDir st then
        (* append the extension that identifies this object as a directory *)
        let key := key +:+ DirectoryExtension K in
        let '(ok, s1) := PutString (Worker i) key "" s in
        if ok then s1 else Fatal (Worker i) s1
      else
        let upload (compressed key : string) (s0 : State) : State :=
          let '(ok, s2) :=
            if decide (compressed = "") then
              Put (Worker i) key pgFilePath (ModTime st) s0
            else
              let '(ok, s1) := Put (Worker i) key compressed (ModTime st) s0 in
              (* cleanup the temporary compressed file *)
              (ok, MustRemoveFile (Worker i) compressed s1) in
          if ok then s2 else Fatal (Worker i) s2 in
        (* compress files larger than a given threshold *)
        if (Size st >? compressThreshold a)%Z then
          match Compress pgFilePath (tmpDirectory a) with
          | None =>
              (* "Failed to compress file": continue *)
              emit (Worker i) (CompressOp pgFilePath) false s
          | Some compressed =>
              (* mark the object as a compressed file *)
              upload compressed (key +:+ lz4_Extension)
                     (emit (Worker i) (CompressOp pgFilePath) true s)
          end
        else upload "" key s
  end.

(** *** The scheduler *)

(** A scheduling decision: the control goroutine takes a step; the path
    the control goroutine is sending is received by worker [i]; worker [i]
    takes a step (it processes the path it holds, or it finds the channel
    closed and returns). *)
Inductive Action := Control | Deliver (i : nat) | Work (i : nat).

(** The process is over when [createBackup] returned (its result is the
    exit code) or [logger.Fatal] ended it. *)
Definition terminal (s : State) : bool :=
  match halted s with
  | Some _ => true
  | None => match pc s with Returned _ => true | _ => false end
  end.

(** A decision that cannot be taken (a blocked goroutine) leaves the state
    as it is. *)
Definition step (act : Action) (s : State) : State :=
  if terminal s then s else
  match act with
  | Control => control_step s
  | Deliver i =>
      match pc s, workers s !! i with
      | Sending file rest, Some Idle =>
          set_workers (<[i := Busy file]> (workers s))
            (set_items (S (items s))
               (set_pc (Walking rest) (emit Main (SendOp file) true s)))
      | _, _ => s
      end
  | Work i =>
      match workers s !! i with
      | Some Idle =>
          if closed s then set_workers (<[i := Done]> (workers s)) s else s
      | Some (Busy pgFile) =>
          let s1 := process i pgFile s in
          match halted s1 with
          | Some _ => s1
          | None => set_workers (<[i := Idle]> (workers s1)) s1
          end
      | _ => s
      end
  end.

Definition run (sched : list Action) (s : State) : State :=
  fold_left (fun s act => step act s) sched s.

(** The exit code of the process, once it is over. *)
Definition exit_code (s : State) : option Z :=
  match halted s with
  | Some c => Some c
  | None => match pc s with Returned c => Some c | _ => None end
  end.

End Program.

(* ===================================================================== *)
(** ** Vocabulary of the properties                                      *)
(* ===================================================================== *)

Global Instance Actor_eq_dec : EqDecision Actor.
Proof. solve_decision. Defined.
Global Instance Op_eq_dec : EqDecision Op.
Proof. solve_decision. Defined.
Global Instance Event_eq_dec : EqDecision Event.
Proof. solve_decision. Defined.

Definition event (who : Actor) (o : Op) (ok : bool) : Event :=
  {| ev_actor := who; ev_op := o; ev_ok := ok |}.

(** The call by which the control goroutine writes the success marker, and
    the one by which it updates the latest pointer. *)
Definition marker_write (K : Constants) (a : app) : Op :=
  PutStringOp (getSuccessfulMarker K (backupName a)) "".
Definition latest_write (K : Constants) (a : app) : Op :=
  PutStringOp (latestKey K) (backupName a).

(** A worker's upload failed and [logger.Fatal] ended the process. *)
Definition fatal_upload (s : State) : Prop :=
  ∃ i key src mtime, event (Worker i) (PutOp key src mtime) false ∈ history s
                     ∧ event (Worker i) FatalOp true ∈ history s.

(** The path was handed to the workers. *)
Definition sent (file : string) (s : State) : Prop :=
  event Main (SendOp file) true ∈ history s.

(** The key under which a call writes an object. *)
Definition written_key (o : Op) : option string :=
  match o with
  | PutStringOp key _ => Some key
  | PutOp key _ _ => Some key
  | _ => None
  end.

(** The keys under which a worker may store the entry [file]. *)
Definition keys_of (K : Constants) (a : app) (file : string) : list string :=
  let key := filepath_Join (backupName a) file in
  [key +:+ DirectoryExtension K; key +:+ lz4_Extension; key].

(** The schedule in which worker 0 takes every path as soon as it is sent
    and finishes it before the walk goes on. *)
Definition sequential (W : World) (a : app) : list Action :=
  [Control; Control; Control; Control]
  ++ flat_map (fun _ => [Control; Deliver 0; Work 0]) (walk W)
  ++ [Control] ++ map Work (seq 0 (nWorkers a))
  ++ replicate 7 Control.

(** The walk meets no error other than an entry that vanished. *)
Definition walk_completes (W : World) (a : app) : Prop :=
  ∀ v e, v ∈ walk W → walkFn a v ≠ Abort e.


(** The path is the relative path, as [uploadFiles] computes it, of an
    entry that the walk visits without an error. *)
Definition enumerated (W : World) (a : app) (file : string) : Prop :=
  ∃ v info, v ∈ walk W ∧ v_res v = inl info
            ∧ file = TrimPrefix (v_path v) (pgDataDirectory a).

(** What holds of the hand-off in every state of every run. *)
Record upload_inv (K : Constants) (W : World) (a : app) (s : State) : Prop := {
  inv_sent : ∀ f, sent f s → ignoreFile f = false ∧ enumerated W a f;
  inv_busy : ∀ i f, workers s !! i = Some (Busy f) → sent f s;
  inv_sending : ∀ f rest, pc s = Sending f rest →
      ignoreFile f = false ∧ enumerated W a f ∧ ∀ v, v ∈ rest → v ∈ walk W;
  inv_walking : ∀ rest, pc s = Walking rest → ∀ v, v ∈ rest → v ∈ walk W;
  inv_written : ∀ e i key, e ∈ history s → ev_actor e = Worker i →
      written_key (ev_op e) = Some key → ∃ f, sent f s ∧ key ∈ keys_of K a f;
}.

(** A world in which nothing goes wrong, except that entries may vanish
    (and the compressor may fail): the storage backend accepts every write,
    the database answers, and the walk meets no other error. *)
Record only_vanishing (W : World) (a : app) : Prop := {
  ov_put : ∀ h k, put_fault W h k = false;
  ov_start : db_start_ok W = true;
  ov_stop : db_stop W ≠ None;
  ov_walk : walk_completes W a;
}.

(** The control goroutine is inside [uploadFiles], in the walk or in
    [wg.Wait()]. *)
Definition in_upload (p : Pc) : bool :=
  match p with
  | Walking _ | Sending _ _ | Waiting => true
  | _ => false
  end.

(** The calls [createBackup] makes before [stopBackup]: the existence
    check, the reservation of the name, [startBackup] and the sends. *)
Definition before_stop (a : app) (o : Op) : Prop :=
  match o with
  | GetStringOp key => key = backupKey a
  | PutStringOp key value => key = backupKey a ∧ value = ""
  | StartBackupOp => True
  | SendOp _ => True
  | _ => False
  end.

(** What holds of the pool in every state of a run whose walk completes:
    outside [uploadFiles] no worker holds a path, and [logger.Fatal] can
    only strike while the control goroutine is inside it. *)
Record pool_inv (W : World) (a : app) (s : State) : Prop := {
  pool_busy : ∀ i f, workers s !! i = Some (Busy f) → in_upload (pc s) = true;
  pool_halted : halted s ≠ None → in_upload (pc s) = true;
  pool_calls : (in_upload (pc s) = true ∨ pc s = AtCheck ∨ pc s = AtReserve
                ∨ pc s = AtStart ∨ pc s = AtSpawn) →
               ∀ e, e ∈ history s → ev_actor e = Main → before_stop a (ev_op e);
  pool_rest : ∀ rest, (pc s = Walking rest ∨ ∃ f, pc s = Sending f rest) →
                      ∀ v, v ∈ rest → v ∈ walk W;
}.

(** The existence check lets the backup proceed: the lookup of the
    top-level key fails, for whatever reason. *)
Definition check_passes (W : World) (a : app) (objs : gmap string Object) : Prop :=
  get_fault W [] (backupKey a) = true ∨ objs !! backupKey a = None.

(** What holds in every state of a run in a world where only entries
    vanish, when the name is new. *)
Record safe_inv (objs : gmap string Object) (s : State) : Prop := {
  safe_halted : halted s = None;
  safe_pc : ∀ c, pc s = Returned c → c = 0%Z;
  safe_check : pc s = AtCheck → s = init objs;
}.

(** The control goroutine has not yet closed the channel. *)
Definition before_wait (p : Pc) : bool :=
  match p with
  | AtCheck | AtReserve | AtStart | AtSpawn | Walking _ | Sending _ _ => true
  | _ => false
  end.

(** The control goroutine is inside [filepath.Walk]. *)
Definition in_walk (p : Pc) : bool :=
  match p with
  | Walking _ | Sending _ _ => true
  | _ => false
  end.

(** What holds of the channel and the pool in every state of every run:
    the channel is open until the walk is over and closed while the control
    goroutine waits, the pool has [nWorkers] workers during the walk, and
    no worker returns while the channel is open. *)
Record live_inv (a : app) (s : State) : Prop := {
  live_open : before_wait (pc s) = true → closed s = false;
  live_pool : in_walk (pc s) = true → length (workers s) = nWorkers a;
  live_idle : closed s = false → ∀ i, workers s !! i ≠ Some Done;
  live_wait : pc s = Waiting → closed s = true;
}.

(** No goroutine can take a step. *)
Definition stuck (K : Constants) (W : World) (a : app) (s : State) : Prop :=
  ∀ act, step K W a act s = s.

(** A bound on the number of steps the goroutines can still take: what is
    left of [createBackup] and of the walk, and for every worker what is
    left before it returns. *)
Definition worker_weight (w : WorkerState) : nat :=
  match w with Busy _ => 2 | Idle => 1 | Done => 0 end.

Fixpoint pool_weight (ws : list WorkerState) : nat :=
  match ws with
  | [] => 0
  | w :: ws' => worker_weight w + pool_weight ws'
  end.

Definition pc_weight (W : World) (a : app) (p : Pc) : nat :=
  match p with
  | AtCheck => 3 * length (walk W) + nWorkers a + 12
  | AtReserve => 3 * length (walk W) + nWorkers a + 11
  | AtStart => 3 * length (walk W) + nWorkers a + 10
  | AtSpawn => 3 * length (walk W) + nWorkers a + 9
  | Walking rest => 3 * length rest + 8
  | Sending _ rest => 3 * length rest + 10
  | Waiting => 7
  | AtStop => 6
  | AtLabel _ _ => 5
  | AtMap _ => 4
  | AtMark => 3
  | AtLatest => 2
  | AtSuccess => 1
  | Returned _ => 0
  end.

Definition steps_left (W : World) (a : app) (s : State) : nat :=
  if terminal s then 0 else S (pc_weight W a (pc s) + pool_weight (workers s)).

(* ===================================================================== *)
(** ** The revision of create_backup.go that calls S3 directly          *)
(* ===================================================================== *)

(** This revision differs from the one above in the ignore list, in the
    callback of the walk, in what a worker does with a directory and in
    what [createBackup] does at its two ends. *)
Module DirectS3.

(** there's no point on taking backups of directories like pg_xlog *)
Definition prefixesNotToBackup : list string :=
  ["/pg_xlog"; "/postmaster.pid"; "/pg_replslot"].

Definition ignoreFile (path : string) : bool :=
  existsb (fun d => HasPrefix path d) prefixesNotToBackup.

Section Program.

Variable K : Constants.
Variable W : World.
Variable a : app.
Variable backupExclusive : bool.

(** The callback of the walk: every error ends the walk. *)
Definition walkFn (v : Visit) : Callback :=
  match v_res v with
  | inr err => Abort err
  | inl _ =>
      let file := TrimPrefix (v_path v) (pgDataDirectory a) in
      if ignoreFile file then Skip else Hand file
  end.

(** [createBackup]: there is no existence check, so [AtCheck] is the call
    that creates the top-level folder; [markSuccessful] failing returns 1. *)
Definition control_step (s : State) : State :=
  match pc s with
  | AtCheck | AtReserve =>
      let '(ok, s1) := PutString W Main (backupKey a) "" s in
      if ok then set_pc AtStart s1 else set_pc (Returned 1) s1
  | AtStart =>
      let s1 := emit Main StartBackupOp (db_start_ok W) s in
      if db_start_ok W then set_pc AtSpawn s1 else set_pc (Returned 1) s1
  | AtSpawn =>
      set_workers (replicate (nWorkers a) Idle) (set_pc (Walking (walk W)) s)
  | Walking [] => set_closed true (set_pc Waiting s)
  | Walking (v :: rest) =>
      match walkFn v with
      | Skip => set_pc (Walking rest) s
      | Hand file => set_pc (Sending file rest) s
      | Abort _ => set_items 1 (set_pc AtStop s)
      end
  | Sending _ _ => s
  | Waiting =>
      if forallb is_done (workers s) then set_pc AtStop s else s
  | AtStop =>
      match db_stop W with
      | None => set_pc (Returned 1) (emit Main StopBackupOp false s)
      | Some (_, labelFile, mapFile) =>
          if backupExclusive then set_pc AtMark (emit Main StopBackupOp true s)
          else set_pc (AtLabel labelFile mapFile) (emit Main StopBackupOp true s)
      end
  | AtLabel labelFile mapFile =>
      let '(ok, s1) := PutString W Main (backupName a +:+ "/backup_label") labelFile s in
      if ok then
        (if decide (mapFile = "") then set_pc AtMark s1 else set_pc (AtMap mapFile) s1)
      else set_pc (Returned 1) s1
  | AtMap mapFile =>
      let '(ok, s1) := PutString W Main (backupName a +:+ "/tablespace_map") mapFile s in
      if ok then set_pc AtMark s1 else set_pc (Returned 1) s1
  | AtMark =>
      (* markSuccessful *)
      let '(ok, s1) := PutString W Main (getSuccessfulMarker K (backupName a)) "" s in
      if ok then set_pc AtLatest s1 else set_pc (Returned 1) s1
  | AtLatest =>
      let '(ok, s1) := PutString W Main (latestKey K) (backupName a) s in
      if ok then set_pc AtSuccess s1 else set_pc (Returned 1) s1
  | AtSuccess => set_pc (Returned 0) s
  | Returned _ => s
  end.

(** The body of the loop of [backupWorker]: directories are skipped. *)
Definition process (i : nat) (pgFile : string) (s : State) : State :=
  let pgFilePath := filepath_Join (pgDataDirectory a) pgFile in
  match os_Stat W pgFilePath with
  | None => s
  | Some st =>
      if IsDir st then s      (* skip directories *)
      else
        let key := filepath_Join (backupName a) pgFile in
        let upload (compressed key : string) (s0 : State) : State :=
          let '(ok, s2) :=
            if decide (compressed = "") then
              Put W (Worker i) key pgFilePath (ModTime st) s0
            else
              let '(ok, s1) := Put W (Worker i) key compressed (ModTime st) s0 in
              (ok, MustRemoveFile (Worker i) compressed s1) in
          if ok then s2 else Fatal (Worker i) s2 in
        if (Size st >? compressThreshold a)%Z then
          match Compress W pgFilePath (tmpDirectory a) with
          | None => emit (Worker i) (CompressOp pgFilePath) false s
          | Some compressed =>
              upload compressed (key +:+ lz4_Extension)
                     (emit (Worker i) (CompressOp pgFilePath) true s)
          end
        else upload "" key s
  end.

End Program.

End DirectS3.

(* ===================================================================== *)
(** ** Vocabulary of the further properties                             *)
(* ===================================================================== *)

(** The paths the walk hands to the workers, in the order of the walk, up
    to the error that ends it. *)
Fixpoint hands (a : app) (vs : list Visit) : list string :=
  match vs with
  | [] => []
  | v :: rest =>
      match walkFn a v with
      | Skip => hands a rest
      | Hand file => file :: hands a rest
      | Abort _ => []
      end
  end.

(** The walk ends with an error. *)
Fixpoint aborts (a : app) (vs : list Visit) : bool :=
  match vs with
  | [] => false
  | v :: rest =>
      match walkFn a v with
      | Abort _ => true
      | _ => aborts a rest
      end
  end.

(** The paths that were received by a worker, the first one first. *)
Fixpoint sends_of (h : list Event) : list string :=
  match h with
  | [] => []
  | e :: h' =>
      match ev_actor e, ev_op e with
      | Main, SendOp file => (sends_of h' ++ [file])%list
      | _, _ => sends_of h'
      end
  end.

(** The count that [uploadFiles] returns. *)
Definition uploadFiles_result (W : World) (a : app) : nat :=
  if aborts a (walk W) then 1 else length (hands a (walk W)).

(** What holds of the hand-off at each place of the control goroutine. *)
Definition handoff_inv (W : World) (a : app) (s : State) : Prop :=
  let sends := sends_of (history s) in
  (∃ later, (sends ++ later)%list = hands a (walk W))
  ∧ match pc s with
    | AtCheck | AtReserve | AtStart | AtSpawn => sends = [] ∧ items s = 0
    | Walking rest =>
        (sends ++ hands a rest)%list = hands a (walk W)
        ∧ aborts a rest = aborts a (walk W) ∧ items s = length sends
    | Sending file rest =>
        (sends ++ file :: hands a rest)%list = hands a (walk W)
        ∧ aborts a rest = aborts a (walk W) ∧ items s = length sends
    | Returned c =>
        c = 0%Z → sends = hands a (walk W) ∧ items s = uploadFiles_result W a
    | _ => sends = hands a (walk W) ∧ items s = uploadFiles_result W a
    end.

(** The key under which [backupWorker] stores the entry, if it stores it:
    nothing is stored for an entry that cannot be stat'ed or compressed. *)
Definition stored_key (K : Constants) (W : World) (a : app) (pgFile : string)
  : option string :=
  let pgFilePath := filepath_Join (pgDataDirectory a) pgFile in
  let key := filepath_Join (backupName a) pgFile in
  match os_Stat W pgFilePath with
  | None => None
  | Some st =>
      if IsDir st then Some (key +:+ DirectoryExtension K)
      else if (Size st >? compressThreshold a)%Z then
        match Compress W pgFilePath (tmpDirectory a) with
        | None => None
        | Some _ => Some (key +:+ lz4_Extension)
        end
      else Some key
  end.

(** Every path that was received is held by a worker or has been dealt
    with. *)
Definition held_or_stored (K : Constants) (W : World) (a : app) (s : State) : Prop :=
  halted s = None →
  ∀ f, f ∈ sends_of (history s) →
       (∃ i, workers s !! i = Some (Busy f))
       ∨ (∀ k, stored_key K W a f = Some k → is_Some (objects s !! k)).

(** The keys that [createBackup] and [stopBackup] write. *)
Definition main_keys (K : Constants) (a : app) : list string :=
  [ backupKey a; backupName a +:+ "/backup_label"; backupName a +:+ "/tablespace_map";
    getSuccessfulMarker K (backupName a); latestKey K ].

(** What a call does to the bucket: a write that went through stores its
    object, every other call leaves the bucket as it is. *)
Definition store_of (e : Event) (m : gmap string Object) : gmap string Object :=
  if ev_ok e then
    match ev_op e with
    | PutStringOp key value => <[key := Text value]> m
    | PutOp key src mtime => <[key := File src mtime]> m
    | _ => m
    end
  else m.

(** The bucket after the calls of a history (the newest first). *)
Definition replay (h : list Event) (m : gmap string Object) : gmap string Object :=
  foldr store_of m h.

(** The call is made by a worker. *)
Definition by_worker (e : Event) : Prop := ∃ i, ev_actor e = Worker i.

(** The call hands a path to a worker or is made by one. *)
Definition uploads (e : Event) : Prop := by_worker e ∨ ∃ f, ev_op e = SendOp f.

(** [createBackup] has not yet called [startBackup] with success. *)
Definition before_start (p : Pc) : bool :=
  match p with
  | AtCheck | AtReserve | AtStart | Returned _ => true
  | _ => false
  end.

(** The calls of [createBackup] that went through: the write of the
    top-level key, pg_start_backup and pg_stop_backup. *)
Definition reserve_ok (a : app) : Event := event Main (PutStringOp (backupKey a) "") true.
Definition start_ok : Event := event Main StartBackupOp true.
Definition stop_ok : Event := event Main StopBackupOp true.

(** Either the session is open, or no worker exists. *)
Definition session_inv (a : app) (s : State) : Prop :=
  (pc s = AtStart → reserve_ok a ∈ history s)
  ∧ ((reserve_ok a ∈ history s ∧ start_ok ∈ history s)
     ∨ (before_start (pc s) = true ∧ workers s = []
        ∧ ∀ e, e ∈ history s → ev_actor e = Main ∧ ∀ f, ev_op e ≠ SendOp f)).

(** [createBackup] is past [stopBackup]'s call of pg_stop_backup. *)
Definition after_stop (p : Pc) : bool :=
  match p with
  | AtLabel _ _ | AtMap _ | AtMark | AtLatest | AtSuccess | Returned _ => true
  | _ => false
  end.

(** The call of pg_stop_backup, and what its presence in the history says
    of the place of [createBackup]. *)
Definition is_stop (e : Event) : Prop := ev_actor e = Main ∧ ev_op e = StopBackupOp.

Definition stop_inv (s : State) : Prop :=
  ∀ e, e ∈ history s → is_stop e → after_stop (pc s) = true.

(** What has been achieved at each place of [createBackup]. *)
Definition milestones (K : Constants) (W : World) (a : app) (s : State) : Prop :=
  let h := history s in
  let stopped (l m : string) : Prop :=
    stop_ok ∈ h ∧ ∃ lsn, db_stop W = Some (lsn, l, m) in
  let labelled (l : string) : Prop :=
    event Main (PutStringOp (backupName a +:+ "/backup_label") l) true ∈ h in
  let mapped (m : string) : Prop :=
    m ≠ "" → event Main (PutStringOp (backupName a +:+ "/tablespace_map") m) true ∈ h in
  let opened : Prop := reserve_ok a ∈ h ∧ start_ok ∈ h in
  let stored : Prop := ∃ l m, stopped l m ∧ labelled l ∧ mapped m in
  let marked : Prop := ∃ ok, event Main (marker_write K a) ok ∈ h in
  match pc s with
  | AtCheck | AtReserve => True
  | AtStart => reserve_ok a ∈ h
  | AtSpawn | Walking _ | Sending _ _ | Waiting | AtStop => opened
  | AtLabel l m => opened ∧ stopped l m
  | AtMap m => opened ∧ m ≠ "" ∧ ∃ l, stopped l m ∧ labelled l
  | AtMark => opened ∧ stored
  | AtLatest => opened ∧ stored ∧ marked
  | AtSuccess => opened ∧ stored ∧ marked ∧ event Main (latest_write K a) true ∈ h
  | Returned c =>
      c = 0%Z → opened ∧ stored ∧ marked ∧ event Main (latest_write K a) true ∈ h
  end.

(** The keys that [createBackup] may have written with success when it
    returns 1. *)
Definition early_keys (K : Constants) (a : app) : list string :=
  [ backupKey a; backupName a +:+ "/backup_label"; backupName a +:+ "/tablespace_map";
    getSuccessfulMarker K (backupName a) ].

(** Until [updateLatest] has succeeded, the control goroutine has written
    under those keys only. *)
Definition latest_inv (K : Constants) (a : app) (s : State) : Prop :=
  (pc s = AtSuccess ∨ pc s = Returned 0)
  ∨ (∀ e k, e ∈ history s → ev_actor e = Main → ev_ok e = true →
            written_key (ev_op e) = Some k → k ∈ early_keys K a).

(** *** deleteSuccessfulMarker *)

Section Delete.

Variable K : Constants.
Variable W : World.
Variable delete_fault : list Event -> string -> bool.

(** Modelled from the spec: [Delete(key)] removes the object, or fails.
    The history has no entry for a deletion. *)
Definition Delete (key : string) (s : State) : bool * State :=
  if delete_fault (history s) key then (false, s)
  else (true, set_objects (delete key (objects s)) s).

(** [deleteSuccessfulMarker]: the result says whether it returned nil. *)
Definition deleteSuccessfulMarker (name : string) (s : State) : bool * State :=
  let key := getSuccessfulMarker K name in
  let '(r, s1) := GetString W Main key s in
  match r with
  | inl _ => Delete key s1               (* err == nil *)
  | inr _ => (true, s1)
  end.

End Delete.

(** *** Runs of the revision that calls S3 directly *)

Section S3Run.

Variable K : Constants.
Variable W : World.
Variable a : app.
Variable backupExclusive : bool.

(** The scheduler is the one of [step]; the goroutines run the code of
    this revision. *)
Definition s3_step (act : Action) (s : State) : State :=
  if terminal s then s else
  match act with
  | Control => DirectS3.control_step K W a backupExclusive s
  | Deliver i =>
      match pc s, workers s !! i with
      | Sending file rest, Some Idle =>
          set_workers (<[i := Busy file]> (workers s))
            (set_items (S (items s))
               (set_pc (Walking rest) (emit Main (SendOp file) true s)))
      | _, _ => s
      end
  | Work i =>
      match workers s !! i with
      | Some Idle =>
          if closed s then set_workers (<[i := Done]> (workers s)) s else s
      | Some (Busy pgFile) =>
          let s1 := DirectS3.process W a i pgFile s in
          match halted s1 with
          | Some _ => s1
          | None => set_workers (<[i := Idle]> (workers s1)) s1
          end
      | _ => s
      end
  end.

(** A run of this revision under a schedule. *)
Definition s3_run (sched : list Action) (s : State) : State :=
  fold_left (fun s act => s3_step act s) sched s.

(** What has been achieved at each place of [createBackup]. *)
Definition s3_milestones (s : State) : Prop :=
  let h := history s in
  let opened : Prop := reserve_ok a ∈ h ∧ start_ok ∈ h in
  let labelled : Prop :=
    backupExclusive = false →
    ∃ l, event Main (PutStringOp (backupName a +:+ "/backup_label") l) true ∈ h in
  let marked : Prop := event Main (marker_write K a) true ∈ h in
  let pointed : Prop := event Main (latest_write K a) true ∈ h in
  (∀ e key, e ∈ h → ev_op e ≠ GetStringOp key)
  ∧ (halted s = None ∨ halted s = Some 1%Z)
  ∧ match pc s with
    | AtCheck | AtReserve => True
    | AtStart => reserve_ok a ∈ h
    | AtSpawn | Walking _ | Sending _ _ | Waiting | AtStop => opened
    | AtLabel _ _ => opened ∧ stop_ok ∈ h ∧ backupExclusive = false
    | AtMap _ => opened ∧ stop_ok ∈ h ∧ labelled
    | AtMark => opened ∧ stop_ok ∈ h ∧ labelled
    | AtLatest => opened ∧ stop_ok ∈ h ∧ labelled ∧ marked
    | AtSuccess => opened ∧ stop_ok ∈ h ∧ labelled ∧ marked ∧ pointed
    | Returned c => c = 0%Z → opened ∧ stop_ok ∈ h ∧ labelled ∧ marked ∧ pointed
    end.

End S3Run.

(* ===================================================================== *)
(** ** Concrete runs                                                     *)
(* ===================================================================== *)

Definition K0 : Constants :=
  {| DirectoryExtension := ".dir";
     successfullyCompletedFolder := "successful";
     latestKey := "LATEST" |}.

Definition a1 : app :=
  {| backupName := "b1"; pgDataDirectory := "/data/"; tmpDirectory := "/tmp";
     compressThreshold := 524288; nWorkers := 2 |}.

Definition dir_info : FileInfo := {| IsDir := true; Size := 4096; ModTime := 1700000000 |}.
Definition small_info : FileInfo := {| IsDir := false; Size := 3; ModTime := 1700000001 |}.
Definition big_info : FileInfo := {| IsDir := false; Size := 2097152; ModTime := 1700000002 |}.

(** A small data directory: the root, PG_VERSION (3 bytes), base/ and
    base/1/16384 (2 MiB), the ignored pg_replslot/, and an entry that
    vanished before the walk could stat it. *)
Definition disk (p : string) : option FileInfo :=
  if decide (p = "/data") then Some dir_info
  else if decide (p = "/data/PG_VERSION") then Some small_info
  else if decide (p = "/data/base") then Some dir_info
  else if decide (p = "/data/base/1/16384") then Some big_info
  else None.

Definition visits : list Visit :=
  [ {| v_path := "/data/"; v_res := inl dir_info |};
    {| v_path := "/data/PG_VERSION"; v_res := inl small_info |};
    {| v_path := "/data/base"; v_res := inl dir_info |};
    {| v_path := "/data/base/1/16384"; v_res := inl big_info |};
    {| v_path := "/data/pg_replslot"; v_res := inl dir_info |};
    {| v_path := "/data/pg_stat_tmp/global.tmp"; v_res := inr ErrNotExist |};
    {| v_path := "/data/postgresql.conf"; v_res := inl small_info |} ].

(** The world in which everything works; postgresql.conf vanishes between
    the walk and the worker's stat. *)
Definition calm : World :=
  {| get_fault := fun _ _ => false;
     put_fault := fun _ _ => false;
     db_start_ok := true;
     db_stop := Some ("0/3000060", "START WAL LOCATION", "");
     walk := visits;
     os_Stat := disk;
     lz4_tmp := fun _ => Some "16384.lz4tmp" |}.

(** The existence check fails for a reason other than not-found. *)
Definition lookup_error : World :=
  {| get_fault := fun _ _ => true;
     put_fault := put_fault calm; db_start_ok := true; db_stop := db_stop calm;
     walk := visits; os_Stat := disk; lz4_tmp := lz4_tmp calm |}.

(** A bucket that already holds a backup named b1. *)
Definition taken : gmap string Object :=
  {[ "b1/" := Text ""; "b1/PG_VERSION" := File "/data/PG_VERSION" 1600000000 ]}.

(** The compressor fails on every file. *)
Definition broken_compressor : World :=
  {| get_fault := get_fault calm; put_fault := put_fault calm;
     db_start_ok := true; db_stop := db_stop calm;
     walk := visits; os_Stat := disk; lz4_tmp := fun _ => None |}.

(** The write of the success marker fails. *)
Definition marker_fault : World :=
  {| get_fault := get_fault calm;
     put_fault := fun _ key => bool_decide (key = "successful/b1");
     db_start_ok := true; db_stop := db_stop calm;
     walk := visits; os_Stat := disk; lz4_tmp := lz4_tmp calm |}.

(** The walk cannot read the directory base: permission denied. *)
Definition unreadable_base : World :=
  {| get_fault := get_fault calm; put_fault := put_fault calm;
     db_start_ok := true; db_stop := db_stop calm;
     walk := [ {| v_path := "/data/"; v_res := inl dir_info |};
               {| v_path := "/data/PG_VERSION"; v_res := inl small_info |};
               {| v_path := "/data/base"; v_res := inr ErrPermission |} ];
     os_Stat := disk; lz4_tmp := lz4_tmp calm |}.

(** The walk cannot read base, and the upload of PG_VERSION fails. *)
Definition unreadable_base_and_upload_fault : World :=
  {| get_fault := get_fault calm;
     put_fault := fun _ key => bool_decide (key = "b1/PG_VERSION");
     db_start_ok := true; db_stop := db_stop calm;
     walk := [ {| v_path := "/data/PG_VERSION"; v_res := inl small_info |};
               {| v_path := "/data/base"; v_res := inr ErrPermission |} ];
     os_Stat := disk; lz4_tmp := lz4_tmp calm |}.

(** Worker 0 receives PG_VERSION; the walk fails on base and [uploadFiles]
    returns; [createBackup] runs to its last line; only then does the
    upload of worker 0 fail. *)
Definition late_failure : list Action :=
  [ Control; Control; Control; Control;   (* check, reserve, start, spawn *)
    Control; Deliver 0;                   (* PG_VERSION is handed to worker 0 *)
    Control;                              (* base: the walk fails *)
    Control; Control;                     (* stopBackup *)
    Control;                              (* putSuccessfulMarker *)
    Control;                              (* updateLatest *)
    Work 0 ].                             (* the upload fails: logger.Fatal *)

(** A state in which worker 0 holds a path: the first [n] visits of the
    walk are dealt with one after the other, then the walk takes one more
    step and what it sends, if anything, is received by worker 0. *)
Definition holding (W : World) (n : nat) : State :=
  run K0 W a1
    ([Control; Control; Control; Control]
       ++ flat_map (fun _ => [Control; Deliver 0; Work 0]) (seq 0 n)
       ++ [Control; Deliver 0])
    (init ∅).

(** The same backup with no worker at all. *)
Definition a0 : app :=
  {| backupName := "b1"; pgDataDirectory := "/data/"; tmpDirectory := "/tmp";
     compressThreshold := 524288; nWorkers := 0 |}.

(** The same backup under the name b1/. *)
Definition a1_slash : app :=
  {| backupName := "b1/"; pgDataDirectory := "/data/"; tmpDirectory := "/tmp";
     compressThreshold := 524288; nWorkers := 2 |}.

(** pg_start_backup fails. *)
Definition start_refused : World :=
  {| get_fault := get_fault calm; put_fault := put_fault calm;
     db_start_ok := false; db_stop := db_stop calm;
     walk := visits; os_Stat := disk; lz4_tmp := lz4_tmp calm |}.

(** pg_stop_backup fails. *)
Definition stop_refused : World :=
  {| get_fault := get_fault calm; put_fault := put_fault calm;
     db_start_ok := true; db_stop := None;
     walk := visits; os_Stat := disk; lz4_tmp := lz4_tmp calm |}.

(** A schedule of the calm world in which no decision is lost: worker 0
    takes every path, and both workers return at the end. *)
Definition busy : list Action :=
  [Control; Control; Control; Control]
  ++ [Control; Deliver 0; Work 0]        (* the data directory itself *)
  ++ [Control; Deliver 0; Work 0]        (* PG_VERSION *)
  ++ [Control; Deliver 0; Work 0]        (* base *)
  ++ [Control; Deliver 0; Work 0]        (* base/1/16384 *)
  ++ [Control; Control]                  (* pg_replslot, pg_stat_tmp/global.tmp *)
  ++ [Control; Deliver 0; Work 0]        (* postgresql.conf *)
  ++ [Control; Work 0; Work 1]           (* close(filesC) *)
  ++ replicate 6 Control.

(** The deletions never fail. *)
Definition deletes : list Event -> string -> bool := fun _ _ => false.

(** The walk has reached the data directory itself and is sending it. *)
Definition holding_send : State :=
  run K0 calm a1 [Control; Control; Control; Control; Control] (init ∅).

(** Worker 0 has received the data directory itself, and then stored its
    placeholder. *)
Definition holding_root : State :=
  run K0 calm a1 [Control; Control; Control; Control; Control; Deliver 0] (init ∅).
Definition stored_root : State :=
  run K0 calm a1 [Control; Control; Control; Control; Control; Deliver 0; Work 0] (init ∅).

(** A bucket in which the success marker of b1 exists. *)
Definition marked : gmap string Object := {[ "successful/b1" := Text "" ]}.

(* ===================================================================== *)
(** ** One step of a worker                                              *)
(* ===================================================================== *)

Section WorkerSteps.

Variable K : Constants.
Variable W : World.
Variable a : app.

(** A step of a worker that holds a path is the loop body on that path,
    followed by the return to the receive unless the process ended. *)
Lemma step_work_busy (s : State) (i : nat) (pgFile : string) :
  terminal s = false →
  workers s !! i = Some (Busy pgFile) →
  step K W a (Work i) s =
    let s1 := process K W a i pgFile s in
    match halted s1 with
    | Some _ => s1
    | None => set_workers (<[i := Idle]> (workers s1)) s1
    end.
Proof. intros Ht Hw. unfold step. rewrite Ht, Hw. reflexivity. Qed.

Lemma terminal_false_halted (s : State) : terminal s = false → halted s = None.
Proof. unfold terminal. destruct (halted s); [discriminate | reflexivity]. Qed.

(** C5: a worker that holds a directory which still stats writes the
    placeholder, an object with empty payload under the backup-relative key
    plus the directory suffix, and returns to the receive; if that write
    fails, logger.Fatal ends the process with exit code 1. *)
Theorem directory_placeholder (s : State) (i : nat) (pgFile : string) (st : FileInfo) :
  terminal s = false →
  workers s !! i = Some (Busy pgFile) →
  os_Stat W (filepath_Join (pgDataDirectory a) pgFile) = Some st →
  IsDir st = true →
  let key := filepath_Join (backupName a) pgFile +:+ DirectoryExtension K in
  let s' := step K W a (Work i) s in
  if put_fault W (history s) key
  then history s' = event (Worker i) FatalOp true
                      :: event (Worker i) (PutStringOp key "") false :: history s
       ∧ objects s' = objects s
       ∧ exit_code s' = Some 1%Z
  else history s' = event (Worker i) (PutStringOp key "") true :: history s
       ∧ objects s' = <[key := Text ""]> (objects s)
       ∧ workers s' = <[i := Idle]> (workers s)
       ∧ pc s' = pc s
       ∧ exit_code s' = exit_code s.
Proof.
  intros Ht Hw Hst Hdir key s'. subst s'.
  rewrite (step_work_busy s i pgFile Ht Hw).
  pose proof (terminal_false_halted s Ht) as Hh.
  unfold process. rewrite Hst, Hdir. unfold PutString. fold key.
  destruct (put_fault W (history s) key); cbn.
  - repeat split; reflexivity.
  - rewrite Hh. cbn.
    repeat split; try reflexivity; unfold exit_code; cbn; rewrite ?Hh; reflexivity.
Qed.

(** C6: a worker that holds a regular file larger than the compression
    threshold compresses it and uploads the temporary compressed file under
    the backup-relative key plus the compression suffix; a file at or below
    the threshold is uploaded as it is under the backup-relative key. *)
Theorem regular_file_upload (s : State) (i : nat) (pgFile : string) (st : FileInfo) :
  terminal s = false →
  workers s !! i = Some (Busy pgFile) →
  os_Stat W (filepath_Join (pgDataDirectory a) pgFile) = Some st →
  IsDir st = false →
  let pgFilePath := filepath_Join (pgDataDirectory a) pgFile in
  let key := filepath_Join (backupName a) pgFile in
  let s' := step K W a (Work i) s in
  ((Size st > compressThreshold a)%Z →
   ∀ compressed,
     Compress W pgFilePath (tmpDirectory a) = Some compressed →
     put_fault W (event (Worker i) (CompressOp pgFilePath) true :: history s)
       (key +:+ lz4_Extension) = false →
     history s' = event (Worker i) (RemoveOp compressed) true
                    :: event (Worker i) (PutOp (key +:+ lz4_Extension) compressed (ModTime st)) true
                    :: event (Worker i) (CompressOp pgFilePath) true :: history s
     ∧ objects s' = <[key +:+ lz4_Extension := File compressed (ModTime st)]> (objects s)
     ∧ workers s' = <[i := Idle]> (workers s)
     ∧ exit_code s' = exit_code s)
  ∧ ((Size st <= compressThreshold a)%Z →
     put_fault W (history s) key = false →
     history s' = event (Worker i) (PutOp key pgFilePath (ModTime st)) true :: history s
     ∧ objects s' = <[key := File pgFilePath (ModTime st)]> (objects s)
     ∧ workers s' = <[i := Idle]> (workers s)
     ∧ exit_code s' = exit_code s).
Proof.
  intros Ht Hw Hst Hdir pgFilePath key s'. subst s' pgFilePath key.
  rewrite (step_work_busy s i pgFile Ht Hw).
  pose proof (terminal_false_halted s Ht) as Hh.
  unfold process. rewrite Hst, Hdir.
  split.
  - intros Hgt compressed Hc Hput.
    assert (Hne : compressed ≠ "").
    { unfold Compress in Hc. destruct (lz4_tmp W _); [|discriminate].
      injection Hc as <-. destruct (tmpDirectory a); discriminate. }
    apply Z.gtb_gt in Hgt. rewrite Hgt, Hc.
    destruct (decide (compressed = "")) as [|_]; [contradiction|].
    unfold Put, event in *. cbn [history emit]. rewrite Hput. cbn. rewrite Hh. cbn.
    repeat split; try reflexivity; unfold exit_code; cbn; rewrite ?Hh; reflexivity.
  - intros Hle Hput.
    assert (Hgt : (Size st >? compressThreshold a)%Z = false).
    { rewrite Z.gtb_ltb. apply Z.ltb_ge. lia. }
    rewrite Hgt. destruct (decide ("" = "")) as [_|]; [|contradiction].
    unfold Put. rewrite Hput. cbn. rewrite Hh. cbn.
    repeat split; try reflexivity; unfold exit_code; cbn; rewrite ?Hh; reflexivity.
Qed.

(** C7: when the compression of a file fails, the worker uploads nothing
    for it (no call to the storage backend is made), returns to the receive,
    and the process goes on. *)
Theorem compression_failure_skips_file (s : State) (i : nat) (pgFile : string) (st : FileInfo) :
  terminal s = false →
  workers s !! i = Some (Busy pgFile) →
  os_Stat W (filepath_Join (pgDataDirectory a) pgFile) = Some st →
  IsDir st = false →
  (Size st > compressThreshold a)%Z →
  Compress W (filepath_Join (pgDataDirectory a) pgFile) (tmpDirectory a) = None →
  let s' := step K W a (Work i) s in
  history s' = event (Worker i) (CompressOp (filepath_Join (pgDataDirectory a) pgFile)) false
                 :: history s
  ∧ objects s' = objects s
  ∧ workers s' = <[i := Idle]> (workers s)
  ∧ pc s' = pc s
  ∧ terminal s' = false.
Proof.
  intros Ht Hw Hst Hdir Hgt Hc s'. subst s'.
  rewrite (step_work_busy s i pgFile Ht Hw).
  pose proof (terminal_false_halted s Ht) as Hh.
  unfold process. rewrite Hst, Hdir. apply Z.gtb_gt in Hgt. rewrite Hgt, Hc.
  cbn. rewrite Hh. cbn. repeat split; try reflexivity; unfold terminal in *; cbn; exact Ht.
Qed.

End WorkerSteps.

(* ===================================================================== *)
(** ** Runs                                                              *)
(* ===================================================================== *)

Section Runs.

Variable K : Constants.
Variable W : World.
Variable a : app.

Lemma run_app (l1 l2 : list Action) (s : State) :
  run K W a (l1 ++ l2) s = run K W a l2 (run K W a l1 s).
Proof. unfold run. apply fold_left_app. Qed.

Lemma run_cons (act : Action) (l : list Action) (s : State) :
  run K W a (act :: l) s = run K W a l (step K W a act s).
Proof. reflexivity. Qed.

Lemma step_terminal (act : Action) (s : State) :
  terminal s = true → step K W a act s = s.
Proof. intros H. unfold step. rewrite H. reflexivity. Qed.

Lemma run_terminal (sched : list Action) (s : State) :
  terminal s = true → run K W a sched s = s.
Proof.
  induction sched as [|act l IH]; intros H; [reflexivity|].
  rewrite run_cons, step_terminal by exact H. exact (IH H).
Qed.

(** A property that holds at the start and is kept by every step holds
    after every schedule. *)
Lemma run_invariant (P : State → Prop) (s0 : State) :
  P s0 →
  (∀ s act, P s → terminal s = false → P (step K W a act s)) →
  ∀ sched, P (run K W a sched s0).
Proof.
  intros H0 Hstep sched. revert s0 H0.
  induction sched as [|act l IH]; intros s0 H0; [exact H0|].
  rewrite run_cons. apply IH.
  destruct (terminal s0) eqn:Ht.
  - rewrite step_terminal by exact Ht. exact H0.
  - apply Hstep; assumption.
Qed.

(** *** What the loop body of a worker can do *)

Ltac process_cases :=
  unfold process, Compress, PutString, Put, Fatal, MustRemoveFile;
  repeat (match goal with
          | |- context [os_Stat W ?p] => destruct (os_Stat W p) eqn:?
          | |- context [IsDir ?st] => destruct (IsDir st) eqn:?
          | |- context [(?x >? ?y)%Z] => destruct (x >? y)%Z eqn:?
          | |- context [lz4_tmp W ?p] => destruct (lz4_tmp W p) eqn:?
          | |- context [decide (?x = ?y)] => destruct (decide (x = y))
          | |- context [put_fault W ?h ?k] => destruct (put_fault W h k) eqn:?
          end; cbn).

Lemma process_frame (i : nat) (pgFile : string) (s : State) :
  let s' := process K W a i pgFile s in
  pc s' = pc s ∧ workers s' = workers s ∧ items s' = items s ∧ closed s' = closed s.
Proof. process_cases; repeat split; reflexivity. Qed.

Lemma process_halted (i : nat) (pgFile : string) (s : State) :
  let s' := process K W a i pgFile s in
  halted s' = halted s ∨ halted s' = Some 1%Z.
Proof. process_cases; auto. Qed.

Lemma process_no_fault (i : nat) (pgFile : string) (s : State) :
  (∀ h k, put_fault W h k = false) →
  halted (process K W a i pgFile s) = halted s.
Proof.
  intros Hput. process_cases; try reflexivity;
    match goal with H : put_fault W _ _ = true |- _ => rewrite Hput in H; discriminate end.
Qed.

(** Every call the loop body makes is made in the name of the worker, and
    whatever it writes goes under one of the keys of the path it holds. *)
Lemma process_history (i : nat) (pgFile : string) (s : State) :
  ∃ new : list Event, history (process K W a i pgFile s) = (new ++ history s)%list
         ∧ ∀ e, e ∈ new →
                ev_actor e = Worker i
                ∧ ∀ key, written_key (ev_op e) = Some key → key ∈ keys_of K a pgFile.
Proof.
  unfold keys_of.
  process_cases;
    match goal with
    | |- ∃ new, ?h = _ ∧ _ =>
        let rec pref l := match l with
                          | history s => constr:(@nil Event)
                          | ?e :: ?l' => let r := pref l' in constr:(e :: r)
                          end in
        let p := pref h in exists p
    end;
    (split; [reflexivity|]);
    intros ev Hev; repeat (apply elem_of_cons in Hev as [->|Hev]); try (apply elem_of_nil in Hev; contradiction);
    (split; [reflexivity|]); cbn; intros key Hk; try discriminate; injection Hk as <-; set_solver.
Qed.


(** A worker that called [logger.Fatal] ended the process. *)
Lemma process_fatal (i : nat) (pgFile : string) (s : State) (e : Event) :
  e ∈ history (process K W a i pgFile s) → ev_op e = FatalOp →
  e ∈ history s ∨ halted (process K W a i pgFile s) ≠ None.
Proof.
  process_cases; intros Hev Hop;
    repeat (apply elem_of_cons in Hev as [->|Hev]; try discriminate Hop);
    (by left) || (by right).
Qed.

Lemma sent_emit (who : Actor) (o : Op) (ok : bool) (f : string) (s : State) :
  sent f (emit who o ok s) ↔ (who = Main ∧ o = SendOp f ∧ ok = true) ∨ sent f s.
Proof.
  unfold sent, emit, event; cbn. rewrite elem_of_cons. split.
  - intros [H|H]; [left; by injection H as <- <- <- | by right].
  - intros [(-> & -> & ->)|H]; [by left | by right].
Qed.

Lemma upload_inv_init (objs : gmap string Object) : upload_inv K W a (init objs).
Proof.
  constructor; cbn; unfold sent; cbn.
  - intros f H. by apply elem_of_nil in H.
  - intros i f H. by rewrite lookup_nil in H.
  - discriminate.
  - discriminate.
  - intros e i key H. by apply elem_of_nil in H.
Qed.

Lemma walkFn_Hand (v : Visit) (file : string) :
  walkFn a v = Hand file →
  ignoreFile file = false
  ∧ ∃ info, v_res v = inl info ∧ file = TrimPrefix (v_path v) (pgDataDirectory a).
Proof.
  unfold walkFn. destruct (v_res v) as [info|e].
  - destruct (ignoreFile _) eqn:Hig; [discriminate|].
    intros [= <-]. split; [exact Hig | by exists info].
  - destruct (IsNotExist e); discriminate.
Qed.

(** The invariant moves from a state to one whose new events are calls of
    the control goroutine other than a send, in which no worker newly holds
    a path, and whose walk is still inside the walk of the world. *)
Lemma upload_inv_transfer (s s' : State) :
  upload_inv K W a s →
  (∀ e, e ∈ history s' →
        e ∈ history s ∨ (ev_actor e = Main ∧ ∀ f, ev_op e ≠ SendOp f)) →
  (∀ e, e ∈ history s → e ∈ history s') →
  (∀ i f, workers s' !! i = Some (Busy f) → workers s !! i = Some (Busy f)) →
  (∀ f rest, pc s' = Sending f rest →
             ignoreFile f = false ∧ enumerated W a f ∧ ∀ v, v ∈ rest → v ∈ walk W) →
  (∀ rest, pc s' = Walking rest → ∀ v, v ∈ rest → v ∈ walk W) →
  upload_inv K W a s'.
Proof.
  intros [Hsent Hbusy Hsending Hwalking Hwritten] Hnew Hold Hw Hs Hwk.
  assert (Hsent' : ∀ f, sent f s' → sent f s).
  { intros f Hf. destruct (Hnew _ Hf) as [H|[_ H]]; [exact H|].
    exfalso. by apply (H f). }
  constructor.
  - intros f Hf. apply Hsent, Hsent', Hf.
  - intros i f Hi. apply Hold, Hbusy with i, Hw, Hi.
  - exact Hs.
  - exact Hwk.
  - intros e i key He Hact Hkey.
    destruct (Hnew _ He) as [H|[H _]]; [|congruence].
    destruct (Hwritten e i key H Hact Hkey) as (f & Hf & Hk).
    exists f. split; [apply Hold, Hf | exact Hk].
Qed.

Lemma upload_inv_control (s : State) :
  upload_inv K W a s → upload_inv K W a (control_step K W a s).
Proof.
  intros Hinv. pose proof Hinv as [Hsent Hbusy Hsending Hwalking Hwritten].
  unfold control_step, GetString, PutString, putSuccessfulMarker, updateLatest, PutString.
  destruct (pc s) eqn:Hpc.
  all: repeat (match goal with
          | |- context [get_fault W ?h ?k] => destruct (get_fault W h k) eqn:?
          | |- context [put_fault W ?h ?k] => destruct (put_fault W h k) eqn:?
          | |- context [objects ?s0 !! ?k] => destruct (objects s0 !! k) eqn:?
          | |- context [db_start_ok W] => destruct (db_start_ok W) eqn:?
          | |- context [db_stop W] => destruct (db_stop W) as [[[? ?] ?]|] eqn:?
          | |- context [decide (?x = ?y)] => destruct (decide (x = y))
          | |- context [forallb ?f ?l] => destruct (forallb f l) eqn:?
          | |- context [match ?r with [] => _ | _ :: _ => _ end] => destruct r eqn:?
          | |- context [walkFn a ?v] => destruct (walkFn a v) eqn:?
          end; cbn).
  all: try exact Hinv.
  all: apply (upload_inv_transfer s _ Hinv); cbn.
  all: try (intros ? ?; discriminate).
  all: try (intros ? ? [= <- <-] || intros ? [= <-]).
  all: try (intros ev [->|Hev]%elem_of_cons;
            [right; split; [reflexivity | intros ?; discriminate] | left; exact Hev]).
  all: try (intros ev Hev; first [left; exact Hev | apply elem_of_cons; right; exact Hev | exact Hev]).
  all: try (intros ? ? Hl; exact Hl).
  - intros i f Hl. apply lookup_replicate in Hl as [? _]. discriminate.
  - intros v0 Hv0. apply (Hwalking _ eq_refl). apply elem_of_cons. by right.
  - match goal with H : walkFn a _ = Hand _ |- _ =>
      apply walkFn_Hand in H as (Hig & info & Hres & Hfile) end.
    split; [exact Hig|]. split.
    + eexists _, info. split; [|split; [exact Hres | exact Hfile]].
      apply (Hwalking _ eq_refl). apply elem_of_cons. by left.
    + intros v0 Hv0. apply (Hwalking _ eq_refl). apply elem_of_cons. by right.
Qed.

Lemma upload_inv_step (s : State) (act : Action) :
  upload_inv K W a s → upload_inv K W a (step K W a act s).
Proof.
  intros Hinv. unfold step. destruct (terminal s); [exact Hinv|].
  destruct act as [|i|i].
  - by apply upload_inv_control.
  - destruct (pc s) eqn:Hpc; try exact Hinv.
    destruct (workers s !! i) as [[| |]|] eqn:Hw; try exact Hinv.
    pose proof Hinv as [Hsent Hbusy Hsending Hwalking Hwritten].
    destruct (Hsending _ _ Hpc) as (Hig & Hen & Hrest).
    constructor; cbn.
    + intros f [(_ & [= <-] & _)|Hf]%sent_emit; [by split | by apply Hsent].
    + intros j f Hj. apply sent_emit.
      destruct (decide (i = j)) as [<-|Hne].
      * rewrite list_lookup_insert_eq in Hj by (by eapply lookup_lt_Some).
        injection Hj as <-. by left.
      * rewrite list_lookup_insert_ne in Hj by done. right. by eapply Hbusy.
    + discriminate.
    + intros ? [= <-]. exact Hrest.
    + intros e j key [->|He]%elem_of_cons Hact Hkey; [discriminate|].
      destruct (Hwritten e j key He Hact Hkey) as (f & Hf & Hk).
      exists f. split; [|exact Hk]. apply sent_emit. by right.
  - destruct (workers s !! i) as [[|pgFile|]|] eqn:Hw; try exact Hinv.
    + destruct (closed s); [|exact Hinv].
      apply (upload_inv_transfer s _ Hinv); cbn; auto.
      * intros j f Hj. destruct (decide (i = j)) as [<-|Hne].
        -- rewrite list_lookup_insert_eq in Hj by (by eapply lookup_lt_Some). discriminate.
        -- by rewrite list_lookup_insert_ne in Hj.
      * destruct Hinv; auto.
      * destruct Hinv; auto.
    + pose proof Hinv as [Hsent Hbusy Hsending Hwalking Hwritten].
      destruct (process_frame i pgFile s) as (Hpc & Hws & _ & _).
      destruct (process_history i pgFile s) as (new & Hh & Hnew).
      assert (Hs' : ∀ f, sent f (process K W a i pgFile s) ↔ sent f s).
      { intros f. unfold sent. rewrite Hh, elem_of_app. split; [|by right].
        intros [Hf|Hf]; [|exact Hf]. by destruct (Hnew _ Hf) as [? _]. }
      assert (Hinv1 : upload_inv K W a (process K W a i pgFile s)).
      { constructor.
        - intros f Hf. apply Hsent, Hs', Hf.
        - intros j f. rewrite Hws. intros Hj. apply Hs'. by eapply Hbusy.
        - rewrite Hpc. exact Hsending.
        - rewrite Hpc. exact Hwalking.
        - intros e j key He Hact Hkey. rewrite Hh in He.
          apply elem_of_app in He as [He|He].
          + destruct (Hnew _ He) as [_ Hk]. exists pgFile.
            split; [apply Hs'; by eapply Hbusy | by apply Hk].
          + destruct (Hwritten e j key He Hact Hkey) as (f & Hf & Hk).
            exists f. split; [by apply Hs' | exact Hk]. }
      destruct (halted (process K W a i pgFile s)); [exact Hinv1|].
      apply (upload_inv_transfer _ _ Hinv1); cbn; auto.
      * intros j f Hj. destruct (decide (i = j)) as [<-|Hne].
        -- rewrite list_lookup_insert_eq in Hj; [discriminate|].
           rewrite Hws. by eapply lookup_lt_Some.
        -- by rewrite list_lookup_insert_ne in Hj.
      * destruct Hinv1; auto.
      * destruct Hinv1; auto.
Qed.

End Runs.

(* ===================================================================== *)
(** ** Whole runs                                                        *)
(* ===================================================================== *)

Section Completion.

Variable K : Constants.
Variable W : World.
Variable a : app.

Ltac control_cases :=
  unfold control_step, GetString, PutString, putSuccessfulMarker, updateLatest, PutString;
  match goal with |- context [pc ?s] => destruct (pc s) eqn:? end;
  repeat (match goal with
          | |- context [get_fault W ?h ?k] => destruct (get_fault W h k) eqn:?
          | |- context [put_fault W ?h ?k] => destruct (put_fault W h k) eqn:?
          | |- context [objects ?s0 !! ?k] => destruct (objects s0 !! k) eqn:?
          | |- context [db_start_ok W] => destruct (db_start_ok W) eqn:?
          | |- context [db_stop W] => destruct (db_stop W) as [[[? ?] ?]|] eqn:?
          | |- context [decide (?x = ?y)] => destruct (decide (x = y))
          | |- context [forallb ?f ?l] => destruct (forallb f l) eqn:?
          | |- context [match ?r with [] => _ | _ :: _ => _ end] => destruct r eqn:?
          | |- context [walkFn a ?v] => destruct (walkFn a v) eqn:?
          end; cbn).

Lemma safe_inv_step (objs : gmap string Object) (s : State) (act : Action) :
  (∀ h k, put_fault W h k = false) →
  db_start_ok W = true →
  db_stop W ≠ None →
  check_passes W a objs →
  safe_inv objs s → safe_inv objs (step K W a act s).
Proof.
  intros Hput Hstart Hstop Hcheck Hinv.
  unfold step. destruct (terminal s); [exact Hinv|].
  pose proof Hinv as [Hh Hpc Hck].
  assert (pc s = AtCheck ∨ pc s ≠ AtCheck) as [Hc|Hc]
    by (destruct (pc s); (by left) || (by right)).
  { rewrite (Hck Hc). destruct act as [|i|i]; cbn.
    - unfold control_step, GetString; cbn.
      destruct Hcheck as [-> | ->]; [|destruct (get_fault W [] _)];
        constructor; cbn; (reflexivity || discriminate).
    - rewrite <- (Hck Hc). exact Hinv.
    - rewrite <- (Hck Hc). exact Hinv. }
  destruct act as [|i|i].
  - destruct (pc s) eqn:Epc; [contradiction|..].
    all: unfold control_step; rewrite Epc.
    all: unfold PutString, putSuccessfulMarker, updateLatest, PutString.
    all: rewrite ?Hput, ?Hstart.
    all: repeat (match goal with
          | |- context [db_stop W] => destruct (db_stop W) as [[[? ?] ?]|] eqn:?
          | |- context [decide (?x = ?y)] => destruct (decide (x = y))
          | |- context [forallb ?f ?l] => destruct (forallb f l) eqn:?
          | |- context [match ?r with [] => _ | _ :: _ => _ end] => destruct r eqn:?
          | |- context [walkFn a ?v] => destruct (walkFn a v) eqn:?
          end; cbn).
    all: try exact Hinv.
    all: try contradiction.
    all: constructor; cbn; try exact Hh; try discriminate.
    all: try (intros ? [= <-]; reflexivity).
    all: try (intros c Hc'; rewrite Epc in Hpc; by apply Hpc).
  - destruct (pc s) eqn:Epc; try exact Hinv.
    destruct (workers s !! i) as [[| |]|]; try exact Hinv.
    constructor; cbn; [exact Hh | discriminate | discriminate].
  - destruct (workers s !! i) as [[|pgFile|]|]; try exact Hinv.
    + destruct (closed s); [|exact Hinv].
      constructor; cbn; [exact Hh | exact Hpc | intros; contradiction].
    + destruct (process_frame K W a i pgFile s) as (Hpc' & _).
      pose proof (process_no_fault K W a i pgFile s Hput) as Hh'.
      rewrite Hh', Hh. constructor; cbn; rewrite ?Hpc'; [congruence | exact Hpc | intros; contradiction].
Qed.


(** *** The sequential schedule *)

Lemma walkFn_no_abort (v : Visit) :
  (∀ e, walkFn a v ≠ Abort e) →
  walkFn a v = Skip ∨ ∃ file, walkFn a v = Hand file.
Proof.
  intros H. destruct (walkFn a v) as [|file|e] eqn:E; [by left | right; by exists file |].
  by destruct (H e).
Qed.

(** The walk, with worker 0 taking every path: the pool is as it was when
    the walk is over. *)
Lemma sequential_walk (n : nat) (vs : list Visit) (s : State) :
  (∀ h k, put_fault W h k = false) →
  (∀ v e, v ∈ vs → walkFn a v ≠ Abort e) →
  halted s = None → closed s = false →
  workers s = replicate (S n) Idle →
  pc s = Walking vs →
  let s' := run K W a (flat_map (fun _ => [Control; Deliver 0; Work 0]) vs) s in
  halted s' = None ∧ closed s' = false ∧ workers s' = replicate (S n) Idle
  ∧ pc s' = Walking [].
Proof.
  intros Hput. revert s.
  induction vs as [|v vs IH]; intros s Hwalk Hh Hcl Hws Hpc; cbn zeta.
  { cbn. auto. }
  cbn [flat_map]. rewrite run_app.
  assert (Hterm : terminal s = false) by (unfold terminal; by rewrite Hh, Hpc).
  assert (Hv : ∀ e, walkFn a v ≠ Abort e) by (intros e; apply Hwalk; by left).
  assert (Hvs : ∀ v' e, v' ∈ vs → walkFn a v' ≠ Abort e)
    by (intros v' e Hin; apply Hwalk; by right).
  assert (Hgoal : ∃ s1, run K W a [Control; Deliver 0; Work 0] s = s1
                        ∧ halted s1 = None ∧ closed s1 = false
                        ∧ workers s1 = replicate (S n) Idle ∧ pc s1 = Walking vs).
  { destruct (walkFn_no_abort v Hv) as [Hskip | [file Hhand]].
    - exists (set_pc (Walking vs) s). split; [|by cbn].
      cbn [run fold_left]. unfold step at 3. rewrite Hterm. cbn [control_step].
      unfold control_step. rewrite Hpc, Hskip.
      unfold step at 2. cbn. unfold terminal at 1; cbn. rewrite Hh.
      unfold step, terminal; cbn. rewrite Hh, Hws, Hcl. reflexivity.
    - eexists. split; [reflexivity|].
      cbn [run fold_left].
      assert (E1 : step K W a Control s = set_pc (Sending file vs) s).
      { unfold step. rewrite Hterm. unfold control_step. by rewrite Hpc, Hhand. }
      rewrite E1. clear E1.
      set (s2 := step K W a (Deliver 0) (set_pc (Sending file vs) s)).
      assert (E2 : s2 = set_workers (<[0 := Busy file]> (workers s))
                          (set_items (S (items s))
                             (set_pc (Walking vs) (emit Main (SendOp file) true s)))).
      { unfold s2, step, terminal; cbn. rewrite Hh, Hws. reflexivity. }
      assert (Ht2 : terminal s2 = false) by (rewrite E2; unfold terminal; cbn; by rewrite Hh).
      assert (Hw2 : workers s2 !! 0 = Some (Busy file)) by (rewrite E2; cbn; by rewrite Hws).
      rewrite (step_work_busy K W a s2 0 file Ht2 Hw2). cbn zeta.
      pose proof (process_no_fault K W a 0 file s2 Hput) as Hnf.
      destruct (process_frame K W a 0 file s2) as (Hpc1 & Hws1 & _ & Hcl1).
      assert (Hh2 : halted s2 = None) by (rewrite E2; exact Hh).
      rewrite Hnf, Hh2. cbn. rewrite Hnf, Hcl1, Hws1, Hpc1, Hh2, E2. cbn.
      rewrite Hws. auto. }
  destruct Hgoal as (s1 & -> & Hh1 & Hcl1 & Hws1 & Hpc1).
  by apply IH.
Qed.

Lemma all_done (n : nat) : forallb is_done (replicate n Done) = true.
Proof. induction n; [reflexivity | exact IHn]. Qed.

(** After the channel is closed, one step of each worker ends the pool. *)
Lemma sequential_close (n k : nat) (s : State) :
  (k ≤ n)%nat →
  halted s = None → closed s = true → pc s = Waiting →
  workers s = replicate n Idle →
  run K W a (map Work (seq 0 k)) s
  = set_workers (replicate k Done ++ replicate (n - k) Idle)%list s.
Proof.
  intros Hk Hh Hcl Hpc Hws. induction k as [|k IH].
  { cbn. rewrite Nat.sub_0_r, <- Hws. by destruct s. }
  rewrite seq_S, map_app, run_app, IH by lia. cbn.
  unfold step, terminal; cbn. rewrite Hh, Hpc, Hcl.
  rewrite lookup_app_r by (rewrite length_replicate; lia).
  rewrite length_replicate, Nat.sub_diag.
  destruct (n - k)%nat as [|m] eqn:E; [lia|]. cbn.
  replace (n - S k)%nat with m by lia.
  unfold set_workers; cbn. f_equal.
  rewrite insert_app_r_alt by (rewrite length_replicate; lia).
  rewrite length_replicate, Nat.sub_diag. cbn.
  change (Done :: replicate k Done ++ replicate m Idle)%list
    with (replicate (S k) Done ++ replicate m Idle)%list.
  rewrite replicate_S_end, <- app_assoc. reflexivity.
Qed.


Lemma step_control (s : State) :
  terminal s = false → step K W a Control s = control_step K W a s.
Proof. intros H. unfold step. by rewrite H. Qed.

Lemma not_terminal (s : State) :
  halted s = None → (∀ c, pc s ≠ Returned c) → terminal s = false.
Proof.
  intros Hh Hpc. unfold terminal. rewrite Hh.
  destruct (pc s); try reflexivity. by destruct (Hpc code).
Qed.

(** The steps of the control goroutine, one program point at a time. *)
Lemma step_Waiting (s : State) :
  halted s = None → pc s = Waiting → forallb is_done (workers s) = true →
  step K W a Control s = set_pc AtStop s.
Proof.
  intros Hh Hpc Hd. rewrite step_control by (apply not_terminal; [done | by rewrite Hpc]).
  unfold control_step. by rewrite Hpc, Hd.
Qed.

Lemma step_AtStop (s : State) (lsn labelFile mapFile : string) :
  halted s = None → pc s = AtStop → db_stop W = Some (lsn, labelFile, mapFile) →
  step K W a Control s
  = set_pc (AtLabel labelFile mapFile) (emit Main StopBackupOp true s).
Proof.
  intros Hh Hpc Hs. rewrite step_control by (apply not_terminal; [done | by rewrite Hpc]).
  unfold control_step. by rewrite Hpc, Hs.
Qed.

Lemma step_AtLabel (s : State) (labelFile mapFile : string) :
  halted s = None → pc s = AtLabel labelFile mapFile →
  put_fault W (history s) (backupName a +:+ "/backup_label") = false →
  step K W a Control s
  = set_pc (if decide (mapFile = "") then AtMark else AtMap mapFile)
      (emit Main (PutStringOp (backupName a +:+ "/backup_label") labelFile) true
         (set_objects (<[backupName a +:+ "/backup_label" := Text labelFile]> (objects s)) s)).
Proof.
  intros Hh Hpc Hp. rewrite step_control by (apply not_terminal; [done | by rewrite Hpc]).
  unfold control_step, PutString. rewrite Hpc, Hp. by destruct (decide _).
Qed.

Lemma step_AtMap (s : State) (mapFile : string) :
  halted s = None → pc s = AtMap mapFile →
  put_fault W (history s) (backupName a +:+ "/tablespace_map") = false →
  step K W a Control s
  = set_pc AtMark
      (emit Main (PutStringOp (backupName a +:+ "/tablespace_map") mapFile) true
         (set_objects (<[backupName a +:+ "/tablespace_map" := Text mapFile]> (objects s)) s)).
Proof.
  intros Hh Hpc Hp. rewrite step_control by (apply not_terminal; [done | by rewrite Hpc]).
  unfold control_step, PutString. by rewrite Hpc, Hp.
Qed.

(** [putSuccessfulMarker]: whether the write succeeds or fails, the next
    statement is [updateLatest]. *)
Lemma step_AtMark (s : State) :
  halted s = None → pc s = AtMark →
  step K W a Control s
  = set_pc AtLatest
      (if put_fault W (history s) (getSuccessfulMarker K (backupName a))
       then emit Main (marker_write K a) false s
       else emit Main (marker_write K a) true
              (set_objects (<[getSuccessfulMarker K (backupName a) := Text ""]> (objects s)) s)).
Proof.
  intros Hh Hpc. rewrite step_control by (apply not_terminal; [done | by rewrite Hpc]).
  unfold control_step, putSuccessfulMarker, PutString, marker_write. rewrite Hpc.
  by destruct (put_fault W _ _).
Qed.

Lemma step_AtLatest (s : State) :
  halted s = None → pc s = AtLatest →
  step K W a Control s
  = if put_fault W (history s) (latestKey K)
    then set_pc (Returned 1) (emit Main (latest_write K a) false s)
    else set_pc AtSuccess
           (emit Main (latest_write K a) true
              (set_objects (<[latestKey K := Text (backupName a)]> (objects s)) s)).
Proof.
  intros Hh Hpc. rewrite step_control by (apply not_terminal; [done | by rewrite Hpc]).
  unfold control_step, updateLatest, PutString, latest_write. rewrite Hpc.
  by destruct (put_fault W _ _).
Qed.

(** A walk that fails: [uploadFiles] returns 1, the channel stays open,
    the pool is not waited for, and the next statement of [createBackup] is
    [stopBackup], as after a walk that completed. *)
Lemma step_walk_abort (s : State) (v : Visit) (rest : list Visit) (e : os_error) :
  halted s = None → pc s = Walking (v :: rest) → walkFn a v = Abort e →
  step K W a Control s = set_items 1 (set_pc AtStop s).
Proof.
  intros Hh Hpc Hv. rewrite step_control by (apply not_terminal; [done | by rewrite Hpc]).
  unfold control_step. by rewrite Hpc, Hv.
Qed.

Lemma step_AtSuccess (s : State) :
  halted s = None → pc s = AtSuccess →
  step K W a Control s = set_pc (Returned 0) s.
Proof.
  intros Hh Hpc. rewrite step_control by (apply not_terminal; [done | by rewrite Hpc]).
  unfold control_step. by rewrite Hpc.
Qed.

(** From [wg.Wait()] with the pool at rest to the end of [createBackup]. *)
Lemma sequential_finish (s : State) :
  (∀ h k, put_fault W h k = false) →
  db_stop W ≠ None →
  halted s = None → pc s = Waiting → forallb is_done (workers s) = true →
  let s' := run K W a (replicate 7 Control) s in
  exit_code s' = Some 0%Z
  ∧ objects s' !! latestKey K = Some (Text (backupName a))
  ∧ event Main (marker_write K a) true ∈ history s'
  ∧ event Main (latest_write K a) true ∈ history s'.
Proof.
  intros Hput Hstop Hh Hpc Hdone.
  destruct (db_stop W) as [[[lsn labelFile] mapFile]|] eqn:Hs; [|contradiction].
  cbn [replicate].
  rewrite run_cons, step_Waiting by assumption.
  rewrite run_cons, (step_AtStop _ lsn labelFile mapFile) by (cbn; done).
  rewrite run_cons, (step_AtLabel _ labelFile mapFile) by (try apply Hput; cbn; done).
  destruct (decide (mapFile = "")) as [->|Hne].
  - rewrite run_cons, step_AtMark by (cbn; done). rewrite Hput.
    rewrite run_cons, step_AtLatest by (cbn; done). rewrite Hput.
    rewrite run_cons, step_AtSuccess by (cbn; done).
    rewrite run_terminal by (unfold terminal; cbn; by rewrite Hh).
    unfold exit_code; cbn. rewrite Hh.
    repeat split; [apply lookup_insert_eq | set_solver | set_solver].
  - rewrite run_cons, (step_AtMap _ mapFile) by (try apply Hput; cbn; done).
    rewrite run_cons, step_AtMark by (cbn; done). rewrite Hput.
    rewrite run_cons, step_AtLatest by (cbn; done). rewrite Hput.
    rewrite run_cons, step_AtSuccess by (cbn; done).
    unfold exit_code; cbn. rewrite Hh.
    repeat split; [apply lookup_insert_eq | set_solver | set_solver].
Qed.

(** In a world where only entries vanish, whenever the existence check
    lets the backup proceed, the sequential run ends with exit code 0, the
    success marker written and the latest pointer naming the backup. *)
Lemma sequential_run_succeeds (objs : gmap string Object) :
  only_vanishing W a →
  check_passes W a objs →
  0 < nWorkers a →
  let s' := run K W a (sequential W a) (init objs) in
  exit_code s' = Some 0%Z
  ∧ objects s' !! latestKey K = Some (Text (backupName a))
  ∧ event Main (marker_write K a) true ∈ history s'
  ∧ event Main (latest_write K a) true ∈ history s'.
Proof.
  intros [Hput Hstart Hstop Hwalk] Hcheck Hn.
  destruct (nWorkers a) as [|n] eqn:En; [lia|].
  unfold sequential. rewrite En, !run_app.
  set (s4 := run K W a [Control; Control; Control; Control] (init objs)).
  assert (H4 : halted s4 = None ∧ closed s4 = false
               ∧ workers s4 = replicate (S n) Idle ∧ pc s4 = Walking (walk W)).
  { unfold s4. cbn [run fold_left].
    unfold step at 4. cbn. unfold GetString. cbn.
    assert (Hg : ∃ e ok, (if get_fault W [] (backupKey a)
                    then (inr Unavailable, emit Main (GetStringOp (backupKey a)) false (init objs))
                    else match objs !! backupKey a with
                         | Some o => (inl o, emit Main (GetStringOp (backupKey a)) true (init objs))
                         | None => (inr NotFound, emit Main (GetStringOp (backupKey a)) false (init objs))
                         end)
                  = (@inr Object StorageError e, emit Main (GetStringOp (backupKey a)) ok (init objs))).
    { destruct Hcheck as [-> | ->]; [by eexists _, _|].
      destruct (get_fault W [] _); by eexists _, _. }
    destruct Hg as (e & ok & ->). cbn.
    unfold step at 3. cbn. unfold PutString. rewrite Hput. cbn.
    unfold step at 2. cbn. rewrite Hstart. cbn.
    unfold step. cbn. rewrite En. auto. }
  destruct H4 as (Hh4 & Hcl4 & Hws4 & Hpc4).
  pose proof (sequential_walk n (walk W) s4 Hput Hwalk Hh4 Hcl4 Hws4 Hpc4) as Hw.
  cbn zeta in Hw. set (s5 := run K W a _ s4) in *.
  destruct Hw as (Hh5 & Hcl5 & Hws5 & Hpc5).
  set (s6 := run K W a [Control] s5).
  assert (H6 : halted s6 = None ∧ closed s6 = true
               ∧ workers s6 = replicate (S n) Idle ∧ pc s6 = Waiting).
  { unfold s6. cbn. unfold step, terminal. rewrite Hh5, Hpc5. cbn.
    unfold control_step. rewrite Hpc5. cbn. auto. }
  destruct H6 as (Hh6 & Hcl6 & Hws6 & Hpc6).
  rewrite (sequential_close (S n) (S n) s6) by (assumption || lia).
  apply sequential_finish; try assumption.
  cbn [workers set_workers]. rewrite Nat.sub_diag, app_nil_r. apply all_done.
Qed.


(** *** The history only grows *)

Lemma control_step_history (s : State) :
  ∃ new : list Event, history (control_step K W a s) = (new ++ history s)%list
    ∧ ∀ e, e ∈ new → ev_actor e = Main ∧ ev_op e ≠ FatalOp.
Proof.
  control_cases;
    first [ exists []; split; [reflexivity | intros ev Hev; by apply elem_of_nil in Hev]
          | eexists [_]; split; [reflexivity | by intros ev ->%list_elem_of_singleton] ].
Qed.

Lemma step_history (act : Action) (s : State) :
  ∃ new : list Event, history (step K W a act s) = (new ++ history s)%list.
Proof.
  unfold step. destruct (terminal s); [by exists []|].
  destruct act as [|i|i].
  - destruct (control_step_history s) as (new & H & _). by exists new.
  - destruct (pc s); try by exists [].
    destruct (workers s !! i) as [[| |]|]; try by exists []. by eexists [_].
  - destruct (workers s !! i) as [[|pgFile|]|]; try by exists [].
    + destruct (closed s); by exists [].
    + destruct (process_history K W a i pgFile s) as (new & H & _).
      destruct (halted _); exists new; exact H.
Qed.

Lemma run_history (sched : list Action) (s : State) (e : Event) :
  e ∈ history s → e ∈ history (run K W a sched s).
Proof.
  revert s. induction sched as [|act l IH]; intros s He; [exact He|].
  rewrite run_cons. apply IH.
  destruct (step_history act s) as (new & ->). apply elem_of_app. by right.
Qed.


(** *** The claims about whole runs *)

Lemma safe_run (objs : gmap string Object) (sched : list Action) :
  (∀ h k, put_fault W h k = false) →
  db_start_ok W = true →
  db_stop W ≠ None →
  check_passes W a objs →
  let s := run K W a sched (init objs) in
  exit_code s = None ∨ exit_code s = Some 0%Z.
Proof.
  intros Hput Hstart Hstop Hcheck s.
  assert (Hinv : safe_inv objs s).
  { apply run_invariant.
    - constructor; cbn; [reflexivity | discriminate | reflexivity].
    - intros s0 act H _. by apply safe_inv_step. }
  destruct Hinv as [Hh Hpc _]. unfold exit_code. rewrite Hh.
  destruct (pc s) eqn:E; try by left. right. by rewrite (Hpc code eq_refl).
Qed.

(** *** Every run can go on until the process is over *)

Lemma pool_weight_insert (ws : list WorkerState) (i : nat) (old new : WorkerState) :
  ws !! i = Some old →
  pool_weight (<[i := new]> ws) + worker_weight old
  = pool_weight ws + worker_weight new.
Proof.
  revert i. induction ws as [|w ws IH]; intros i Hi; [done|].
  destruct i as [|i]; cbn in *.
  - injection Hi as ->. lia.
  - specialize (IH i Hi).
    change (<[S i := new]> (w :: ws)) with (w :: <[i := new]> ws). cbn.
    rewrite <- !Nat.add_assoc. f_equal. exact IH.
Qed.

Lemma pool_weight_replicate (n : nat) : pool_weight (replicate n Idle) = n.
Proof. induction n; cbn; [done | by rewrite IHn]. Qed.

(** Every step that changes the state lowers the bound: a run makes at
    most [steps_left W a s] steps that change the state. *)
Lemma step_steps_left (s : State) (act : Action) :
  step K W a act s = s ∨ steps_left W a (step K W a act s) < steps_left W a s.
Proof.
  unfold step. destruct (terminal s) eqn:Ht; [by left|].
  pose proof (terminal_false_halted s Ht) as Hh.
  assert (Hm : steps_left W a s = S (pc_weight W a (pc s) + pool_weight (workers s)))
    by (unfold steps_left; by rewrite Ht).
  assert (Hle : ∀ s', pc_weight W a (pc s') + pool_weight (workers s')
                      < pc_weight W a (pc s) + pool_weight (workers s) →
                      steps_left W a s' < steps_left W a s).
  { intros s' H. rewrite Hm. unfold steps_left. destruct (terminal s'); lia. }
  destruct act as [|i|i].
  - control_cases; try (by left); right; apply Hle; cbn;
      rewrite ?pool_weight_replicate; try lia.
  - destruct (pc s) eqn:Hpc; try by left.
    destruct (workers s !! i) as [[| |]|] eqn:Hw; try by left.
    right. apply Hle. cbn. pose proof (pool_weight_insert _ i Idle (Busy file) Hw).
    cbn in *. lia.
  - destruct (workers s !! i) as [[|pgFile|]|] eqn:Hw; try by left.
    + destruct (closed s); [|by left]. right. apply Hle. cbn.
      pose proof (pool_weight_insert _ i Idle Done Hw). cbn in *. lia.
    + right. destruct (process_frame K W a i pgFile s) as (Hpc & Hws & _ & _).
      destruct (halted (process K W a i pgFile s)) eqn:Hp.
      * rewrite Hm. unfold steps_left, terminal. rewrite Hp. lia.
      * apply Hle. cbn. rewrite Hpc, Hws.
        pose proof (pool_weight_insert _ i (Busy pgFile) Idle Hw). cbn in *. lia.
Qed.

Lemma live_inv_init (objs : gmap string Object) : live_inv a (init objs).
Proof. constructor; cbn; try done. Qed.

Lemma live_inv_step (s : State) (act : Action) :
  live_inv a s → live_inv a (step K W a act s).
Proof.
  intros Hinv. unfold step. destruct (terminal s) eqn:Ht; [exact Hinv|].
  pose proof Hinv as [Hopen Hpool Hidle Hwait].
  destruct act as [|i|i].
  - control_cases; try exact Hinv; cbn in *;
      constructor; cbn; try done; eauto.
    + intros _. by rewrite length_replicate.
    + intros _ i Hi. apply lookup_replicate in Hi as [? _]. done.
  - destruct (pc s) eqn:Hpc; try exact Hinv.
    destruct (workers s !! i) as [[| |]|] eqn:Hw; try exact Hinv.
    cbn in *. constructor; cbn; try done.
    + intros _. rewrite length_insert. by apply Hpool.
    + intros Hc j Hj. destruct (decide (i = j)) as [->|Hne].
      * rewrite list_lookup_insert_eq in Hj by (by eapply lookup_lt_Some). done.
      * rewrite list_lookup_insert_ne in Hj by done. by eapply Hidle.
  - destruct (workers s !! i) as [[|pgFile|]|] eqn:Hw; try exact Hinv.
    + destruct (closed s) eqn:Hc; [|exact Hinv].
      constructor; cbn; try done.
      * intros Hp. rewrite Hopen in Hc by done. done.
      * intros Hp. rewrite length_insert. by apply Hpool.
      * by rewrite Hc.
    + destruct (process_frame K W a i pgFile s) as (Hpc & Hws & _ & Hcl).
      destruct (halted (process K W a i pgFile s)) eqn:Hp.
      * constructor; rewrite ?Hpc, ?Hws, ?Hcl; done.
      * constructor; cbn; rewrite ?Hpc, ?Hws, ?Hcl; try done.
        -- intros Hq. rewrite length_insert. by apply Hpool.
        -- intros Hc j Hj. destruct (decide (i = j)) as [->|Hne].
           ++ rewrite list_lookup_insert_eq in Hj by (by eapply lookup_lt_Some). done.
           ++ rewrite list_lookup_insert_ne in Hj by done. by eapply Hidle.
Qed.

Lemma not_all_done (ws : list WorkerState) :
  forallb is_done ws = false →
  ∃ i, ws !! i = Some Idle ∨ ∃ f, ws !! i = Some (Busy f).
Proof.
  induction ws as [|w ws IH]; cbn; [done|].
  destruct w; cbn.
  - intros _. exists 0. by left.
  - intros _. exists 0. right. by eexists.
  - intros H. destruct (IH H) as [i Hi]. by exists (S i).
Qed.

Lemma work_busy_moves (s : State) (i : nat) (f : string) :
  terminal s = false → workers s !! i = Some (Busy f) →
  step K W a (Work i) s ≠ s.
Proof.
  intros Ht Hw. unfold step. rewrite Ht, Hw.
  destruct (process_frame K W a i f s) as (_ & Hws & _).
  destruct (halted (process K W a i f s)) eqn:Hp.
  - intros E. rewrite E in Hp. by rewrite (terminal_false_halted s Ht) in Hp.
  - intros E. apply (f_equal (λ s, workers s !! i)) in E. cbn in E.
    rewrite Hws, list_lookup_insert_eq, Hw in E by (by eapply lookup_lt_Some). done.
Qed.

(** No deadlock: as long as the process is not over, some goroutine can
    take a step. *)
Lemma no_deadlock (s : State) :
  0 < nWorkers a → live_inv a s → terminal s = false →
  ∃ act, step K W a act s ≠ s.
Proof.
  intros Hn [Hopen Hpool Hidle Hwait] Ht.
  assert (Hc : pc (control_step K W a s) ≠ pc s → step K W a Control s ≠ s).
  { intros Hne E. apply Hne. unfold step in E. rewrite Ht in E. by rewrite E. }
  destruct (pc s) eqn:Hpc.
  all: try (exists Control; apply Hc; unfold control_step; rewrite Hpc;
            unfold GetString, PutString, putSuccessfulMarker, updateLatest, PutString;
            repeat (match goal with
              | |- context [get_fault W ?h ?k] => destruct (get_fault W h k) eqn:?
              | |- context [put_fault W ?h ?k] => destruct (put_fault W h k) eqn:?
              | |- context [objects ?s0 !! ?k] => destruct (objects s0 !! k) eqn:?
              | |- context [db_start_ok W] => destruct (db_start_ok W) eqn:?
              | |- context [db_stop W] => destruct (db_stop W) as [[[? ?] ?]|] eqn:?
              | |- context [decide (?x = ?y)] => destruct (decide (x = y))
              end; cbn); cbn; discriminate).
  - (* Walking *)
    exists Control. apply Hc. unfold control_step. rewrite Hpc.
    destruct rest as [|v rest]; cbn; [discriminate|].
    destruct (walkFn a v); cbn; try discriminate.
    intros [= E]. apply (f_equal length) in E. cbn in E. lia.
  - (* Sending *)
    cbn in *. specialize (Hopen eq_refl). specialize (Hpool eq_refl).
    destruct (workers s !! 0) as [w|] eqn:Hw.
    2: { apply lookup_ge_None in Hw. lia. }
    destruct w as [|f|].
    + exists (Deliver 0). unfold step. rewrite Ht, Hpc, Hw.
      intros E. apply (f_equal pc) in E. cbn in E. by rewrite Hpc in E.
    + exists (Work 0). by eapply work_busy_moves.
    + by destruct (Hidle Hopen 0).
  - (* Waiting *)
    specialize (Hwait eq_refl).
    destruct (forallb is_done (workers s)) eqn:Hd.
    + exists Control. apply Hc. unfold control_step. rewrite Hpc, Hd. cbn. discriminate.
    + destruct (not_all_done _ Hd) as [i [Hi | [f Hi]]].
      * exists (Work i). unfold step. rewrite Ht, Hi, Hwait.
        intros E. apply (f_equal (λ s, workers s !! i)) in E. cbn in E.
        rewrite list_lookup_insert_eq, Hi in E by (by eapply lookup_lt_Some). done.
      * exists (Work i). by eapply work_busy_moves.
  - (* Returned *)
    unfold terminal in Ht. rewrite Hpc in Ht. by destruct (halted s).
Qed.

Lemma live_run (objs : gmap string Object) (sched : list Action) :
  live_inv a (run K W a sched (init objs)).
Proof.
  apply run_invariant; [apply live_inv_init|].
  intros s act H _. by apply live_inv_step.
Qed.

Lemma terminal_exit_code (s : State) : terminal s = true → exit_code s ≠ None.
Proof.
  unfold terminal, exit_code. destruct (halted s); [done|]. by destruct (pc s).
Qed.

(** A run that can go no further is over. *)
Lemma stuck_terminal (objs : gmap string Object) (sched : list Action) :
  0 < nWorkers a →
  stuck K W a (run K W a sched (init objs)) →
  terminal (run K W a sched (init objs)) = true.
Proof.
  intros Hn Hstuck.
  destruct (terminal (run K W a sched (init objs))) eqn:Ht; [done|].
  destruct (no_deadlock _ Hn (live_run objs sched) Ht) as [act Hact].
  by destruct (Hact (Hstuck act)).
Qed.

(** From every state of a run the process can be brought to its end, in
    at most [steps_left] steps. *)
Lemma run_completes (objs : gmap string Object) (n : nat) (sched : list Action) :
  0 < nWorkers a →
(steps_left W a (run K W a sched (init objs)) ≤ n)%nat →
  ∃ ext, (length ext ≤ n)%nat
         ∧ terminal (run K W a (sched ++ ext)%list (init objs)) = true.
Proof.
  intros Hn. revert sched. induction n as [|n IH]; intros sched Hle.
  - exists []. split; [done|]. rewrite app_nil_r.
    unfold steps_left in Hle.
    destruct (terminal (run K W a sched (init objs))); [done | lia].
  - destruct (terminal (run K W a sched (init objs))) eqn:Ht.
    + exists []. split; [cbn; lia|]. by rewrite app_nil_r.
    + destruct (no_deadlock _ Hn (live_run objs sched) Ht) as [act Hact].
      destruct (step_steps_left (run K W a sched (init objs)) act) as [E|Hlt];
        [by destruct (Hact E)|].
      destruct (IH (sched ++ [act])%list) as (ext & Hlen & Hterm).
      { rewrite run_app. cbn. lia. }
      exists (act :: ext). split; [cbn; lia|].
      by rewrite <- app_assoc in Hterm.
Qed.

(** C9: an entry that vanished is skipped, by the walk and by a worker,
    and the run goes on to succeed.  When the error the walk meets on the
    way to an entry is that the entry does not exist, the callback returns
    nil and the walk goes on with the next entry; when the stat of a worker
    fails, the worker calls nothing and returns to the receive; and in a
    world where nothing else fails, whatever vanishes, no schedule ends
    with a non-zero exit code; a run that can go no further has ended with
    exit code 0 (no goroutine is left blocked); every step that changes the
    state lowers [steps_left], so that a run cannot go on for ever; every
    run can be continued, in at most [steps_left] steps, to exit code 0;
    and the sequential schedule ends with exit code 0, the success marker
    written and the latest pointer naming the backup. *)
Theorem vanished_entries_are_skipped :
  (∀ s v rest e,
      terminal s = false → pc s = Walking (v :: rest) →
      v_res v = inr e → IsNotExist e = true →
      step K W a Control s = set_pc (Walking rest) s)
  ∧ (∀ s i pgFile,
        terminal s = false → workers s !! i = Some (Busy pgFile) →
        os_Stat W (filepath_Join (pgDataDirectory a) pgFile) = None →
        step K W a (Work i) s = set_workers (<[i := Idle]> (workers s)) s)
  ∧ (∀ objs,
        only_vanishing W a → objs !! backupKey a = None → 0 < nWorkers a →
        (∀ sched, exit_code (run K W a sched (init objs)) = None
                  ∨ exit_code (run K W a sched (init objs)) = Some 0%Z)
        ∧ (∀ sched, stuck K W a (run K W a sched (init objs)) →
                    exit_code (run K W a sched (init objs)) = Some 0%Z)
        ∧ (∀ sched act,
              let s := run K W a sched (init objs) in
              step K W a act s = s
              ∨ steps_left W a (step K W a act s) < steps_left W a s)
        ∧ (∀ sched, ∃ ext,
              (length ext ≤ steps_left W a (run K W a sched (init objs)))%nat
              ∧ exit_code (run K W a (sched ++ ext)%list (init objs)) = Some 0%Z)
        ∧ let s' := run K W a (sequential W a) (init objs) in
          exit_code s' = Some 0%Z
          ∧ objects s' !! latestKey K = Some (Text (backupName a))
          ∧ event Main (marker_write K a) true ∈ history s'
          ∧ event Main (latest_write K a) true ∈ history s').
Proof.
  split; [|split].
  - intros s v rest e Ht Hpc Hres Hne.
    rewrite step_control by exact Ht.
    unfold control_step, walkFn. by rewrite Hpc, Hres, Hne.
  - intros s i pgFile Ht Hw Hst.
    rewrite (step_work_busy K W a s i pgFile Ht Hw). cbn zeta.
    unfold process. rewrite Hst. by rewrite (terminal_false_halted s Ht).
  - intros objs Hov Hnew Hn.
    assert (Hsafe : ∀ sched, exit_code (run K W a sched (init objs)) = None
                             ∨ exit_code (run K W a sched (init objs)) = Some 0%Z).
    { intros sched. destruct Hov. apply safe_run; try assumption. by right. }
    assert (Hend : ∀ sched, terminal (run K W a sched (init objs)) = true →
                            exit_code (run K W a sched (init objs)) = Some 0%Z).
    { intros sched Ht. destruct (Hsafe sched) as [E|E]; [|exact E].
      by destruct (terminal_exit_code _ Ht). }
    split; [exact Hsafe|]. split; [|split; [|split]].
    + intros sched Hstuck. apply Hend. by apply stuck_terminal.
    + intros sched act. apply step_steps_left.
    + intros sched.
      destruct (run_completes objs _ sched Hn (le_n _)) as (ext & Hlen & Ht).
      exists ext. split; [exact Hlen|]. by apply Hend.
    + apply sequential_run_succeeds; try assumption. by right.
Qed.

(** C10: the existence check treats every error of the lookup, not only
    not-found, as "no such backup".  Whatever error [GetString] returns,
    [createBackup] goes on to create the top-level key; it returns 1 at the
    check exactly when the lookup succeeds; and when the lookup of an
    existing name fails in a world where nothing else fails, the sequential
    run writes the top-level key again and ends with exit code 0, the
    success marker written and the latest pointer naming the backup. *)
Theorem lookup_error_is_taken_for_absence (objs : gmap string Object) :
  let r := fst (GetString W Main (backupKey a) (init objs)) in
  let s := step K W a Control (init objs) in
  (∀ e, r = inr e → pc s = AtReserve)
  ∧ (pc s = Returned 1 ↔ ∃ o, r = inl o)
  ∧ (get_fault W [] (backupKey a) = true → is_Some (objs !! backupKey a) →
     only_vanishing W a → 0 < nWorkers a →
     let s' := run K W a (sequential W a) (init objs) in
     exit_code s' = Some 0%Z
     ∧ event Main (GetStringOp (backupKey a)) false ∈ history s'
     ∧ event Main (PutStringOp (backupKey a) "") true ∈ history s'
     ∧ event Main (marker_write K a) true ∈ history s'
     ∧ objects s' !! latestKey K = Some (Text (backupName a))).
Proof.
  intros r s. subst r s. split; [|split].
  - intros e. rewrite step_control by reflexivity.
    unfold control_step, GetString; cbn.
    destruct (get_fault W [] _); [done|]. by destruct (objs !! _).
  - rewrite step_control by reflexivity.
    unfold control_step, GetString; cbn.
    destruct (get_fault W [] _); cbn.
    + split; [discriminate | by intros [o ?]].
    + destruct (objs !! _) as [o|]; cbn.
      * split; [by exists o | done].
      * split; [discriminate | by intros [o ?]].
  - intros Hg _ Hov Hn s'.
    destruct (sequential_run_succeeds objs Hov (or_introl Hg) Hn) as (H1 & H2 & H3 & _).
    assert (E2 : run K W a [Control; Control] (init objs)
                 = set_pc AtStart
                     (emit Main (PutStringOp (backupKey a) "") true
                        (set_objects (<[backupKey a := Text ""]> objs)
                           (set_pc AtReserve
                              (emit Main (GetStringOp (backupKey a)) false (init objs)))))).
    { assert (E1 : step K W a Control (init objs)
                   = set_pc AtReserve
                       (emit Main (GetStringOp (backupKey a)) false (init objs))).
      { rewrite step_control by reflexivity.
        unfold control_step, GetString; cbn. by rewrite Hg. }
      cbn [run fold_left]. rewrite E1.
      rewrite step_control by reflexivity.
      unfold control_step, PutString; cbn. destruct Hov as [Hput _ _ _].
      by rewrite Hput. }
    assert (Hpre : ∀ e, e ∈ history (run K W a [Control; Control] (init objs)) →
                        e ∈ history s').
    { intros e He. unfold s', sequential.
      change [Control; Control; Control; Control]
        with ([Control; Control] ++ [Control; Control])%list.
      rewrite <- app_assoc, run_app. by apply run_history. }
    repeat split; try assumption; apply Hpre; rewrite E2; cbn; set_solver.
Qed.

(** The existence check does what its comment says when the lookup
    succeeds: the top-level key of the name exists, the first step of
    [createBackup] returns 1, and no schedule leads anywhere else: the only
    call ever made is the lookup, the bucket is as it was, no session was
    opened and no worker was started. *)
Lemma existing_backup_is_rejected (objs : gmap string Object) :
  is_Some (objs !! backupKey a) →
  get_fault W [] (backupKey a) = false →
  let rejected :=
    set_pc (Returned 1) (emit Main (GetStringOp (backupKey a)) true (init objs)) in
  step K W a Control (init objs) = rejected
  ∧ (∀ sched, run K W a sched (init objs) = init objs
              ∨ run K W a sched (init objs) = rejected)
  ∧ exit_code rejected = Some 1%Z
  ∧ objects rejected = objs
  ∧ workers rejected = []
  ∧ history rejected = [event Main (GetStringOp (backupKey a)) true].
Proof.
  intros [o Ho] Hg rejected.
  assert (Hstep : step K W a Control (init objs) = rejected).
  { rewrite step_control by reflexivity.
    unfold control_step, GetString; cbn. by rewrite Hg, Ho. }
  split; [exact Hstep|]. split; [|by repeat split].
  intros sched.
  apply (run_invariant K W a (λ s, s = init objs ∨ s = rejected)); [by left|].
  intros s act [-> | ->] Ht; [|discriminate Ht].
  destruct act as [|i|i]; [by right | by left | by left].
Qed.


(** *** Fatal errors and the end of the backup *)

Lemma all_done_no_busy (ws : list WorkerState) (i : nat) (f : string) :
  forallb is_done ws = true → ws !! i ≠ Some (Busy f).
Proof.
  intros Hd Hi. apply list_elem_of_lookup_2 in Hi.
  rewrite forallb_forall in Hd. apply list_elem_of_In in Hi.
  by specialize (Hd _ Hi).
Qed.

Lemma pool_inv_step (s : State) (act : Action) :
  walk_completes W a →
  terminal s = false →
  pool_inv W a s → pool_inv W a (step K W a act s).
Proof.
  intros Hwalk Ht Hinv. pose proof (terminal_false_halted s Ht) as Hh.
  pose proof Hinv as [Hbusy Hhalt Hcalls Hrest].
  unfold step. rewrite Ht. destruct act as [|i|i].
  - assert (Hnb : in_upload (pc s) = false → ∀ i f, workers s !! i ≠ Some (Busy f)).
    { intros Hf i f Hi. specialize (Hbusy i f Hi). congruence. }
    control_cases.
    all: try exact Hinv.
    all: try (exfalso; eapply Hwalk; [|eassumption];
              apply (Hrest _ (or_introl eq_refl)); by left).
    all: constructor; cbn [pc workers halted history set_pc set_workers set_items
                           set_closed set_objects emit in_upload].
    all: try (intros ? ? Hi; by destruct (Hnb eq_refl _ _ Hi)).
    all: try (intros ? ? Hi; reflexivity).
    all: try (intros ? ? Hi; exfalso; eapply all_done_no_busy; eassumption).
    all: try (intros Hx; congruence).
    all: try (intros [Hx|[Hx|[Hx|[Hx|Hx]]]]; discriminate).
    all: try (intros _ ev [->|Hev]%elem_of_cons Ha;
              [by cbn; auto | by apply Hcalls; auto]).
    all: try (intros _ ev Hev Ha; by apply Hcalls; auto).
    all: try (intros ? [[= <-]|[? [=]]] v0 Hv0;
              apply (Hrest _ (or_introl eq_refl)); by right).
    all: try (intros ? [[=]|[? [= <- <-]]] v0 Hv0;
              apply (Hrest _ (or_introl eq_refl)); by right).
    all: try (by intros ? [[= <-]|[? [=]]]).
    all: try (by intros ? [[=]|[? [=]]]).
  - destruct (pc s) eqn:Hpc; try exact Hinv.
    destruct (workers s !! i) as [[| |]|] eqn:Hw; try exact Hinv.
    constructor; cbn.
    + reflexivity.
    + reflexivity.
    + intros _ ev [->|Hev]%elem_of_cons Ha; [exact I|]. apply Hcalls; auto.
    + intros rest' [[= <-]|[? [=]]] v Hv. apply (Hrest rest); [|exact Hv].
      right. by eexists.
  - destruct (workers s !! i) as [[|pgFile|]|] eqn:Hw; try exact Hinv.
    + destruct (closed s); [|exact Hinv].
      constructor; cbn; try assumption.
      intros j f Hj. destruct (decide (i = j)) as [<-|Hne].
      * rewrite list_lookup_insert_eq in Hj by (by eapply lookup_lt_Some). discriminate.
      * rewrite list_lookup_insert_ne in Hj by done. by eapply Hbusy.
    + pose proof (Hbusy i pgFile Hw) as Hup.
      destruct (process_frame K W a i pgFile s) as (Hpc & Hws & _ & _).
      destruct (process_history K W a i pgFile s) as (new & Hhist & Hnew).
      assert (Hinv1 : pool_inv W a (process K W a i pgFile s)).
      { constructor; rewrite ?Hpc; try done.
        intros Hor ev Hev Ha. rewrite Hhist in Hev.
        apply elem_of_app in Hev as [Hev|Hev]; [|by apply Hcalls].
        destruct (Hnew _ Hev) as [Hw' _]. congruence. }
      destruct (halted (process K W a i pgFile s)); [exact Hinv1|].
      destruct Hinv1 as [B1 H1 C1 R1].
      constructor; cbn; try assumption. by rewrite Hpc.
Qed.

Lemma fatal_event_halts (objs : gmap string Object) (sched : list Action) (e : Event) :
  e ∈ history (run K W a sched (init objs)) → ev_op e = FatalOp →
  halted (run K W a sched (init objs)) ≠ None.
Proof.
  revert e.
  apply (run_invariant K W a
           (λ s, ∀ e, e ∈ history s → ev_op e = FatalOp → halted s ≠ None)).
  { intros e He. by apply elem_of_nil in He. }
  intros s act Hinv Ht e He Hop.
  pose proof (terminal_false_halted s Ht) as Hh.
  assert (Hold : e ∉ history s) by (intros Hin; by apply (Hinv e Hin Hop)).
  revert He. unfold step. rewrite Ht. destruct act as [|i|i].
  - destruct (control_step_history s) as (new & -> & Hnew).
    intros [He|He]%elem_of_app; [|done]. by destruct (Hnew _ He) as [_ ?].
  - destruct (pc s); try done.
    destruct (workers s !! i) as [[| |]|]; try done.
    cbn. intros [->|He]%elem_of_cons; [discriminate | done].
  - destruct (workers s !! i) as [[|pgFile|]|]; try done.
    + by destruct (closed s).
    + destruct (halted (process K W a i pgFile s)) eqn:Hp.
      * intros _. by rewrite Hp.
      * cbn. intros He. destruct (process_fatal K W a i pgFile s e He Hop) as [?|Hx]; [done|].
        by rewrite Hp in Hx.
Qed.

(** In a run whose walk completes, [logger.Fatal] can only end the process
    while the control goroutine is still inside [uploadFiles]: all it has
    called by then is the existence check, the reservation, [startBackup]
    and the sends, so neither [putSuccessfulMarker] nor [updateLatest]. *)
Lemma fatal_only_during_upload (objs : gmap string Object) (sched : list Action) :
  walk_completes W a →
  let s := run K W a sched (init objs) in
  halted s ≠ None →
  in_upload (pc s) = true
  ∧ ∀ e, e ∈ history s → ev_actor e = Main → before_stop a (ev_op e).
Proof.
  intros Hwalk s Hh.
  assert (Hinv : pool_inv W a s).
  { apply run_invariant.
    - constructor; cbn.
      + intros i f Hi. discriminate.
      + done.
      + intros _ e He. by apply elem_of_nil in He.
      + intros rest [[=]|[? [=]]].
    - intros s0 act H Ht. by apply pool_inv_step. }
  destruct Hinv as [_ Hhalt Hcalls _]. split; [by apply Hhalt|].
  apply Hcalls. left. by apply Hhalt.
Qed.

(** The same in the words of the specification: in a run whose walk
    completes, once the upload of a worker has failed fatally, the control
    goroutine has called neither [stopBackup] nor [putSuccessfulMarker] nor
    [updateLatest], and it never will, the process being over. *)
Lemma fatal_upload_before_markers (objs : gmap string Object) (sched : list Action) :
  walk_completes W a →
  fatal_upload (run K W a sched (init objs)) →
  terminal (run K W a sched (init objs)) = true
  ∧ in_upload (pc (run K W a sched (init objs))) = true
  ∧ ∀ e, e ∈ history (run K W a sched (init objs)) →
         ev_actor e = Main → before_stop a (ev_op e).
Proof.
  intros Hwalk (i & key & src & mtime & _ & Hf).
  pose proof (fatal_event_halts objs sched _ Hf eq_refl) as Hh.
  split; [|by apply fatal_only_during_upload].
  unfold terminal. by destruct (halted _).
Qed.


End Completion.

(* ===================================================================== *)
(** ** The revision that calls S3 directly, where it differs            *)
(* ===================================================================== *)

Section DirectS3Facts.

Variable K : Constants.
Variable W : World.
Variable a : app.
Variable backupExclusive : bool.

(** In this revision a failure of [markSuccessful] returns 1 and
    [updateLatest] is not reached. *)
Lemma s3_marker_failure_returns (s : State) :
  pc s = AtMark →
  put_fault W (history s) (getSuccessfulMarker K (backupName a)) = true →
  DirectS3.control_step K W a backupExclusive s
  = set_pc (Returned 1) (emit Main (marker_write K a) false s).
Proof.
  intros Hpc Hp. unfold DirectS3.control_step, PutString. by rewrite Hpc, Hp.
Qed.

(** In this revision a worker skips directories. *)
Lemma s3_directory_skipped (s : State) (i : nat) (pgFile : string) (st : FileInfo) :
  os_Stat W (filepath_Join (pgDataDirectory a) pgFile) = Some st →
  IsDir st = true →
  DirectS3.process W a i pgFile s = s.
Proof. intros Hst Hd. unfold DirectS3.process. by rewrite Hst, Hd. Qed.

(** In this revision the walk ends on every error, also when the
    entry only vanished. *)
Lemma s3_walk_aborts (v : Visit) (e : os_error) :
  v_res v = inr e → DirectS3.walkFn a v = Abort e.
Proof. intros H. unfold DirectS3.walkFn. by rewrite H. Qed.

End DirectS3Facts.

(* ===================================================================== *)
(** ** Strings and paths                                                *)
(* ===================================================================== *)

Section Paths.

Lemma append_cons (c : ascii) (x y : string) : String c x +:+ y = String c (x +:+ y).
Proof. reflexivity. Qed.

Lemma HasPrefix_cons (c d : ascii) (s p : string) :
  HasPrefix (String d s) (String c p) = if Ascii.eqb c d then HasPrefix s p else false.
Proof. reflexivity. Qed.

Lemma HasPrefix_nil (s : string) : HasPrefix s "" = true.
Proof. by destruct s. Qed.

Lemma HasPrefix_app (s p q : string) :
  HasPrefix s p = true → HasPrefix (s +:+ q) p = true.
Proof.
  revert s. induction p as [|c p IH]; intros s; [intros _; apply HasPrefix_nil|].
  destruct s as [|d s]; [done|].
  rewrite append_cons, !HasPrefix_cons.
  destruct (Ascii.eqb c d); [apply IH | done].
Qed.

Lemma HasPrefix_self (p q : string) : HasPrefix (p +:+ q) p = true.
Proof.
  induction p as [|c p IH]; [apply HasPrefix_nil|].
  by rewrite append_cons, HasPrefix_cons, Ascii.eqb_refl.
Qed.

Lemma string_drop_app (p q : string) : string_drop (String.length p) (p +:+ q) = q.
Proof. induction p as [|c p IH]; [by destruct q | exact IH]. Qed.

Lemma TrimPrefix_app (p q : string) : TrimPrefix (p +:+ q) p = q.
Proof. unfold TrimPrefix. by rewrite HasPrefix_self, string_drop_app. Qed.

Lemma append_assoc (x y z : string) : (x +:+ y) +:+ z = x +:+ (y +:+ z).
Proof. induction x as [|c x IH]; [done|]. rewrite !append_cons. by f_equal. Qed.

Lemma append_nil_r (x : string) : x +:+ "" = x.
Proof. induction x as [|c x IH]; [done|]. rewrite append_cons. by f_equal. Qed.

Lemma components_slash (x y cur : string) :
  components (x +:+ String "/" y) cur = (components x cur ++ components y "")%list.
Proof.
  revert cur. induction x as [|c x IH]; intros cur; [done|].
  rewrite append_cons. cbn [components].
  destruct (Ascii.eqb c "/"); [by rewrite IH | apply IH].
Qed.

(** What [filepath.Clean] keeps of a path that is not empty. *)
Lemma Clean_cons (c0 : ascii) (x : string) :
  filepath_Clean (String c0 x)
  = let rooted := Ascii.eqb c0 "/"%char in
    let out := fold_left (clean_component rooted) (components (String c0 x) "") [] in
    let body := join_slash (rev out) in
    if rooted then "/" +:+ body
    else if decide (body = "") then "." else body.
Proof. reflexivity. Qed.

Lemma clean_component_empty (rooted : bool) (out : list string) :
  clean_component rooted out "" = out.
Proof. reflexivity. Qed.

Lemma Clean_slash_skip (x y : string) :
  x ≠ "" →
  filepath_Clean ((x +:+ "/") +:+ String "/" y) = filepath_Clean (x +:+ String "/" y).
Proof.
  destruct x as [|c0 x]; [done|]. intros _.
  rewrite !append_cons, !Clean_cons. cbn zeta.
  rewrite <- !append_cons. rewrite !components_slash.
  change (components "" "") with [""].
  rewrite !fold_left_app. cbn [fold_left].
  by rewrite clean_component_empty.
Qed.

Lemma Clean_trailing_slash (x : string) :
  x ≠ "" → filepath_Clean (x +:+ "/") = filepath_Clean x.
Proof.
  destruct x as [|c0 x]; [done|]. intros _.
  rewrite !append_cons, !Clean_cons. cbn zeta.
  rewrite <- !append_cons. rewrite !components_slash.
  change (components "" "") with [""].
  rewrite !fold_left_app. cbn [fold_left].
  by rewrite clean_component_empty.
Qed.

Lemma Join_empty (b : string) : b ≠ "" → filepath_Join b "" = filepath_Clean b.
Proof.
  intros Hb. unfold filepath_Join. rewrite decide_False by done.
  by apply Clean_trailing_slash.
Qed.

Lemma Join_trailing_slash (b f : string) :
  b ≠ "" → filepath_Join (b +:+ "/") f = filepath_Join b f.
Proof.
  intros Hb. unfold filepath_Join.
  rewrite (decide_False (P := b +:+ "/" = "")) by (by destruct b).
  rewrite (decide_False (P := b = "")) by done.
  by apply Clean_slash_skip.
Qed.

End Paths.

(* ===================================================================== *)
(** ** The protocol of a run                                            *)
(* ===================================================================== *)

Section Protocol.

Variable K : Constants.
Variable W : World.
Variable a : app.

Ltac control_cases :=
  unfold control_step, GetString, PutString, putSuccessfulMarker, updateLatest, PutString;
  match goal with |- context [pc ?s] => destruct (pc s) eqn:? end;
  repeat (match goal with
          | |- context [get_fault W ?h ?k] => destruct (get_fault W h k) eqn:?
          | |- context [put_fault W ?h ?k] => destruct (put_fault W h k) eqn:?
          | |- context [objects ?s0 !! ?k] => destruct (objects s0 !! k) eqn:?
          | |- context [db_start_ok W] => destruct (db_start_ok W) eqn:?
          | |- context [db_stop W] => destruct (db_stop W) as [[[? ?] ?]|] eqn:?
          | |- context [decide (?x = ?y)] => destruct (decide (x = y))
          | |- context [forallb ?f ?l] => destruct (forallb f l) eqn:?
          | |- context [match ?r with [] => _ | _ :: _ => _ end] => destruct r eqn:?
          | |- context [walkFn a ?v] => destruct (walkFn a v) eqn:?
          end; cbn).

Lemma sends_of_app (new h : list Event) :
  sends_of (new ++ h) = (sends_of h ++ sends_of new)%list.
Proof.
  induction new as [|e new IH]; cbn; [by rewrite app_nil_r|].
  destruct (ev_actor e); [|exact IH].
  destruct (ev_op e); try exact IH. by rewrite IH, app_assoc.
Qed.

Lemma sends_of_workers (new : list Event) :
  (∀ e, e ∈ new → ∃ i, ev_actor e = Worker i) → sends_of new = [].
Proof.
  induction new as [|e new IH]; intros H; [done|]. cbn.
  destruct (H e) as [i ->]; [by left|]. apply IH. intros e' He'. apply H. by right.
Qed.

Lemma process_sends (i : nat) (pgFile : string) (s : State) :
  sends_of (history (process K W a i pgFile s)) = sends_of (history s).
Proof.
  destruct (process_history K W a i pgFile s) as (new & -> & Hnew).
  rewrite sends_of_app. rewrite (sends_of_workers new); [by rewrite app_nil_r|].
  intros e He. destruct (Hnew e He) as [-> _]. by eexists.
Qed.

Lemma handoff_inv_init (objs : gmap string Object) : handoff_inv W a (init objs).
Proof. split; cbn; [by eexists | done]. Qed.

Lemma handoff_inv_step (s : State) (act : Action) :
  handoff_inv W a s → handoff_inv W a (step K W a act s).
Proof.
  intros Hinv. unfold step. destruct (terminal s) eqn:Ht; [exact Hinv|].
  destruct act as [|i|i].
  - pose proof Hinv as [Hpre Hpc]. unfold handoff_inv.
    unfold control_step, GetString, PutString, putSuccessfulMarker, updateLatest, PutString.
    destruct (pc s) eqn:Epc.
    all: repeat (match goal with
          | |- context [get_fault W ?h ?k] => destruct (get_fault W h k) eqn:?
          | |- context [put_fault W ?h ?k] => destruct (put_fault W h k) eqn:?
          | |- context [objects ?s0 !! ?k] => destruct (objects s0 !! k) eqn:?
          | |- context [db_start_ok W] => destruct (db_start_ok W) eqn:?
          | |- context [db_stop W] => destruct (db_stop W) as [[[? ?] ?]|] eqn:?
          | |- context [decide (?x = ?y)] => destruct (decide (x = y))
          | |- context [forallb ?f ?l] => destruct (forallb f l) eqn:?
          end; cbn).
    all: cbn; rewrite ?Epc.
    all: try (split; [exact Hpre | first [exact Hpc | discriminate]]).
    + (* AtSpawn *)
      destruct Hpc as [Hs Hi]. rewrite Hs. cbn. rewrite Hi. by split; [eexists|].
    + (* Walking *)
      destruct Hpc as (Hs & Ha & Hi). destruct rest as [|v rest]; cbn in *.
      * rewrite app_nil_r in Hs. unfold uploadFiles_result.
        rewrite <- Ha, <- Hs. by split; [eexists; apply app_nil_r|].
      * destruct (walkFn a v) eqn:Ew; cbn; (split; [exact Hpre|]); try done.
        rewrite app_nil_r in Hs. unfold uploadFiles_result. by rewrite <- Ha.
    + by split.
  - destruct (pc s) eqn:Epc; try exact Hinv.
    destruct (workers s !! i) as [[| |]|] eqn:Hw; try exact Hinv.
    destruct Hinv as [Hpre Hpc]. rewrite Epc in Hpc. destruct Hpc as (Hs & Ha & Hi).
    unfold handoff_inv; cbn. rewrite <- !app_assoc. cbn.
    split; [exists (hands a rest); rewrite <- app_assoc; exact Hs|]. split; [exact Hs|]. split; [exact Ha|].
    rewrite length_app. cbn. lia.
  - destruct (workers s !! i) as [[|pgFile|]|] eqn:Hw; try exact Hinv.
    + destruct (closed s); exact Hinv.
    + destruct (process_frame K W a i pgFile s) as (Hpc & _ & Hit & _).
      assert (H1 : handoff_inv W a (process K W a i pgFile s)).
      { unfold handoff_inv. rewrite process_sends, Hpc, Hit. exact Hinv. }
      destruct (halted (process K W a i pgFile s)); exact H1.
Qed.

Lemma handoff_run (objs : gmap string Object) (sched : list Action) :
  handoff_inv W a (run K W a sched (init objs)).
Proof.
  apply run_invariant; [apply handoff_inv_init|].
  intros s act H _. by apply handoff_inv_step.
Qed.

Ltac process_cases :=
  unfold process, Compress, PutString, Put, Fatal, MustRemoveFile;
  repeat (match goal with
          | |- context [os_Stat W ?p] => destruct (os_Stat W p) eqn:?
          | |- context [IsDir ?st] => destruct (IsDir st) eqn:?
          | |- context [(?x >? ?y)%Z] => destruct (x >? y)%Z eqn:?
          | |- context [lz4_tmp W ?p] => destruct (lz4_tmp W p) eqn:?
          | |- context [decide (?x = ?y)] => destruct (decide (x = y))
          | |- context [put_fault W ?h ?k] => destruct (put_fault W h k) eqn:?
          end; cbn).

Lemma halted_run (objs : gmap string Object) (sched : list Action) :
  halted (run K W a sched (init objs)) = None
  ∨ halted (run K W a sched (init objs)) = Some 1%Z.
Proof.
  apply (run_invariant K W a (λ s, halted s = None ∨ halted s = Some 1%Z)); [by left|].
  intros s act _ Ht. pose proof (terminal_false_halted s Ht) as Hh.
  unfold step. rewrite Ht. destruct act as [|i|i].
  - left. rewrite <- Hh. control_cases; reflexivity.
  - destruct (pc s); try by left.
    destruct (workers s !! i) as [[| |]|]; by left.
  - destruct (workers s !! i) as [[|pgFile|]|]; try by left.
    + destruct (closed s); by left.
    + destruct (halted (process K W a i pgFile s)) eqn:Hp; [|by left].
      destruct (process_halted K W a i pgFile s) as [E|E]; [|by right].
      rewrite E, Hh in Hp. discriminate.
Qed.

(** The process ended with exit code 0: [createBackup] returned 0. *)
Lemma exit_zero (objs : gmap string Object) (sched : list Action) :
  exit_code (run K W a sched (init objs)) = Some 0%Z →
  halted (run K W a sched (init objs)) = None
  ∧ pc (run K W a sched (init objs)) = Returned 0.
Proof.
  unfold exit_code. destruct (halted_run objs sched) as [-> | ->]; [|discriminate].
  destruct (pc _); try discriminate. by intros [= ->].
Qed.

Lemma replay_app (new h : list Event) (m : gmap string Object) :
  replay (new ++ h) m = replay new (replay h m).
Proof. unfold replay. by rewrite foldr_app. Qed.

Lemma store_of_mono (e : Event) (m : gmap string Object) (k : string) :
  is_Some (m !! k) → is_Some (store_of e m !! k).
Proof.
  intros Hk. unfold store_of. destruct (ev_ok e); [|exact Hk].
  destruct (ev_op e); try exact Hk; apply lookup_insert_is_Some'; by right.
Qed.

Lemma replay_mono (h : list Event) (m : gmap string Object) (k : string) :
  is_Some (m !! k) → is_Some (replay h m !! k).
Proof.
  intros Hk. induction h as [|e h IH]; [exact Hk|]. cbn. by apply store_of_mono.
Qed.

Lemma store_of_written (e : Event) (m : gmap string Object) (k : string) :
  ev_ok e = true → written_key (ev_op e) = Some k → is_Some (store_of e m !! k).
Proof.
  intros Hok Hk. unfold store_of. rewrite Hok.
  destruct (ev_op e); try discriminate; injection Hk as ->;
    apply lookup_insert_is_Some'; by left.
Qed.

Lemma replay_written (h : list Event) (m : gmap string Object) (e : Event) (k : string) :
  e ∈ h → ev_ok e = true → written_key (ev_op e) = Some k →
  is_Some (replay h m !! k).
Proof.
  intros He Hok Hk. induction h as [|e' h IH]; [by apply elem_of_nil in He|].
  apply elem_of_cons in He as [->|He]; cbn.
  - by apply store_of_written.
  - by apply store_of_mono, IH.
Qed.

Lemma store_of_changed (e : Event) (m : gmap string Object) (k : string) :
  store_of e m !! k = m !! k ∨ (ev_ok e = true ∧ written_key (ev_op e) = Some k).
Proof.
  unfold store_of. destruct (ev_ok e); [|by left].
  destruct (ev_op e) as [| key v | key src mt | | | | | |]; try by left.
  - destruct (decide (key = k)) as [->|Hne]; [by right|].
    left. by rewrite lookup_insert_ne.
  - destruct (decide (key = k)) as [->|Hne]; [by right|].
    left. by rewrite lookup_insert_ne.
Qed.

Lemma replay_changed (h : list Event) (m : gmap string Object) (k : string) :
  replay h m !! k ≠ m !! k →
  ∃ e, e ∈ h ∧ ev_ok e = true ∧ written_key (ev_op e) = Some k.
Proof.
  induction h as [|e h IH]; [done|]. cbn. intros Hne.
  destruct (store_of_changed e (replay h m) k) as [E|E].
  - unfold replay in E. rewrite E in Hne.
    destruct (IH Hne) as (e' & He' & H). exists e'.
    split; [by right | exact H].
  - exists e. split; [by left | exact E].
Qed.

(** What a step of the control goroutine does to the world around it. *)
Lemma control_effects (s : State) :
  ∃ new : list Event,
    history (control_step K W a s) = (new ++ history s)%list
    ∧ objects (control_step K W a s) = replay new (objects s)
    ∧ ∀ e, e ∈ new →
           ev_actor e = Main ∧ (∀ f, ev_op e ≠ SendOp f)
           ∧ ∀ k, written_key (ev_op e) = Some k → k ∈ main_keys K a.
Proof.
  unfold main_keys.
  control_cases;
    first [ exists []; split; [reflexivity|]; split; [reflexivity|];
            intros ev Hev; by apply elem_of_nil in Hev
          | eexists [_]; split; [reflexivity|]; split; [reflexivity|];
            intros ev ->%list_elem_of_singleton; split; [reflexivity|];
            split; [done|]; cbn; intros k Hk; try discriminate;
            injection Hk as <-; set_solver ].
Qed.

(** What the loop body of a worker does to the world around it. *)
Lemma process_effects (i : nat) (pgFile : string) (s : State) :
  ∃ new : list Event,
    history (process K W a i pgFile s) = (new ++ history s)%list
    ∧ objects (process K W a i pgFile s) = replay new (objects s)
    ∧ ∀ e, e ∈ new → ev_actor e = Worker i.
Proof.
  process_cases;
    match goal with
    | |- ∃ new, ?h = _ ∧ _ =>
        let rec pref l := match l with
                          | history s => constr:(@nil Event)
                          | ?e :: ?l' => let r := pref l' in constr:(e :: r)
                          end in
        let p := pref h in exists p
    end;
    (split; [reflexivity|]); (split; [reflexivity|]);
    intros ev Hev; repeat (apply elem_of_cons in Hev as [->|Hev]);
    try (apply elem_of_nil in Hev; contradiction); reflexivity.
Qed.

Lemma step_effects (act : Action) (s : State) :
  ∃ new : list Event,
    history (step K W a act s) = (new ++ history s)%list
    ∧ objects (step K W a act s) = replay new (objects s).
Proof.
  unfold step. destruct (terminal s); [by exists []|].
  destruct act as [|i|i].
  - destruct (control_effects s) as (new & H1 & H2 & _). by exists new.
  - destruct (pc s); try by exists [].
    destruct (workers s !! i) as [[| |]|]; try by exists []. by eexists [_].
  - destruct (workers s !! i) as [[|pgFile|]|]; try by exists [].
    + destruct (closed s); by exists [].
    + destruct (process_effects i pgFile s) as (new & H1 & H2 & _).
      destruct (halted _); by exists new.
Qed.

(** The bucket is the one the run started with, with the writes that went
    through applied in their order. *)
Lemma bucket_run (objs : gmap string Object) (sched : list Action) :
  objects (run K W a sched (init objs))
  = replay (history (run K W a sched (init objs))) objs.
Proof.
  apply (run_invariant K W a (λ s, objects s = replay (history s) objs)); [done|].
  intros s act Hinv _. destruct (step_effects act s) as (new & -> & ->).
  by rewrite replay_app, Hinv.
Qed.

Lemma control_objects_mono (s : State) (k : string) :
  is_Some (objects s !! k) → is_Some (objects (control_step K W a s) !! k).
Proof.
  intros Hk. destruct (control_effects s) as (new & _ & -> & _). by apply replay_mono.
Qed.

Lemma process_objects_mono (i : nat) (pgFile : string) (s : State) (k : string) :
  is_Some (objects s !! k) → is_Some (objects (process K W a i pgFile s) !! k).
Proof.
  intros Hk. destruct (process_effects i pgFile s) as (new & _ & -> & _).
  by apply replay_mono.
Qed.

(** A worker that has dealt with a path without [logger.Fatal] has stored
    it under its key. *)
Lemma process_stores (i : nat) (pgFile : string) (s : State) (k : string) :
  halted s = None →
  halted (process K W a i pgFile s) = None →
  stored_key K W a pgFile = Some k →
  is_Some (objects (process K W a i pgFile s) !! k).
Proof.
  intros Hh. unfold stored_key. process_cases; rewrite ?Hh; try discriminate.
  all: intros _ [= <-]; apply lookup_insert_is_Some'; by left.
Qed.

Lemma control_frame (s : State) :
  halted (control_step K W a s) = halted s
  ∧ sends_of (history (control_step K W a s)) = sends_of (history s)
  ∧ (pc s ≠ AtSpawn → workers (control_step K W a s) = workers s).
Proof. control_cases; done. Qed.

Lemma held_or_stored_step (s : State) (act : Action) :
  handoff_inv W a s →
  held_or_stored K W a s → held_or_stored K W a (step K W a act s).
Proof.
  intros Hho Hinv. unfold step. destruct (terminal s) eqn:Ht; [exact Hinv|].
  pose proof (terminal_false_halted s Ht) as Hh. specialize (Hinv Hh).
  destruct act as [|i|i].
  - destruct (control_frame s) as (Eh & Es & Ew).
    intros _ f. rewrite Es. intros Hf.
    assert (pc s = AtSpawn ∨ pc s ≠ AtSpawn) as [Hc|Hc]
      by (destruct (pc s); (by left) || (by right)).
    { destruct Hho as [_ Hpc]. rewrite Hc in Hpc. destruct Hpc as [E _].
      rewrite E in Hf. by apply elem_of_nil in Hf. }
    rewrite (Ew Hc). destruct (Hinv f Hf) as [Hb|Hst]; [by left|].
    right. intros k Hk. by apply control_objects_mono, Hst.
  - destruct (pc s) eqn:Hpc; try (intros _; exact Hinv).
    destruct (workers s !! i) as [[| |]|] eqn:Hw; try (intros _; exact Hinv).
    intros _ f. cbn. intros [Hf|Hf]%elem_of_app.
    + destruct (Hinv f Hf) as [[j Hj]|Hst]; [|by right].
      left. exists j. rewrite list_lookup_insert_ne; [done|]. intros ->. congruence.
    + apply list_elem_of_singleton in Hf as ->. left. exists i.
      apply list_lookup_insert_eq. by eapply lookup_lt_Some.
  - destruct (workers s !! i) as [[|pgFile|]|] eqn:Hw; try (intros _; exact Hinv).
    + destruct (closed s); [|intros _; exact Hinv].
      intros _ f Hf. cbn in *. destruct (Hinv f Hf) as [[j Hj]|Hst]; [|by right].
      left. exists j. rewrite list_lookup_insert_ne; [done|]. intros ->. congruence.
    + destruct (process_frame K W a i pgFile s) as (_ & Hws & _ & _).
      destruct (halted (process K W a i pgFile s)) eqn:Hp.
      { intros Hx. by rewrite Hp in Hx. }
      intros _ f. cbn. rewrite process_sends. intros Hf.
      destruct (Hinv f Hf) as [[j Hj]|Hst].
      * destruct (decide (i = j)) as [<-|Hne].
        -- right. intros k Hk. rewrite Hw in Hj. injection Hj as <-.
           by apply process_stores.
        -- left. exists j. by rewrite list_lookup_insert_ne, Hws.
      * right. intros k Hk. by apply process_objects_mono, Hst.
Qed.

Lemma held_or_stored_run (objs : gmap string Object) (sched : list Action) :
  held_or_stored K W a (run K W a sched (init objs)).
Proof.
  apply (run_invariant K W a (λ s, handoff_inv W a s ∧ held_or_stored K W a s)).
  - split; [apply handoff_inv_init|]. intros _ f Hf. by apply elem_of_nil in Hf.
  - intros s act [H1 H2] _. split; [by apply handoff_inv_step|].
    by apply held_or_stored_step.
Qed.

Lemma pool_run (objs : gmap string Object) (sched : list Action) :
  walk_completes W a → pool_inv W a (run K W a sched (init objs)).
Proof.
  intros Hwalk. apply run_invariant.
  - constructor; cbn.
    + intros i f Hi. discriminate.
    + done.
    + intros _ e He. by apply elem_of_nil in He.
    + intros rest [[=]|[? [=]]].
  - intros s0 act H Ht. by apply pool_inv_step.
Qed.

Lemma upload_run (objs : gmap string Object) (sched : list Action) :
  upload_inv K W a (run K W a sched (init objs)).
Proof.
  apply run_invariant; [apply upload_inv_init|].
  intros s act H _. by apply upload_inv_step.
Qed.

(** The control goroutine writes under its five keys only. *)
Lemma main_writes_run (objs : gmap string Object) (sched : list Action) (e : Event)
    (k : string) :
  e ∈ history (run K W a sched (init objs)) → ev_actor e = Main →
  written_key (ev_op e) = Some k → k ∈ main_keys K a.
Proof.
  revert e k.
  apply (run_invariant K W a
           (λ s, ∀ e k, e ∈ history s → ev_actor e = Main →
                        written_key (ev_op e) = Some k → k ∈ main_keys K a)).
  { intros e k He. by apply elem_of_nil in He. }
  intros s act Hinv Ht e k. unfold step. rewrite Ht. destruct act as [|i|i].
  - destruct (control_effects s) as (new & -> & _ & Hnew).
    intros [He|He]%elem_of_app Hact Hk; [|by eapply Hinv].
    destruct (Hnew e He) as (_ & _ & H). by apply H.
  - destruct (pc s); try apply Hinv.
    destruct (workers s !! i) as [[| |]|]; try apply Hinv.
    cbn. intros [->|He]%elem_of_cons Hact Hk; [discriminate | by eapply Hinv].
  - destruct (workers s !! i) as [[|pgFile|]|]; try apply Hinv.
    + destruct (closed s); apply Hinv.
    + assert (H : ∀ e k, e ∈ history (process K W a i pgFile s) → ev_actor e = Main →
                         written_key (ev_op e) = Some k → k ∈ main_keys K a).
      { destruct (process_effects i pgFile s) as (new & -> & _ & Hnew).
        intros e0 k0 [He|He]%elem_of_app Hact Hk; [|by eapply Hinv].
        rewrite (Hnew e0 He) in Hact. discriminate. }
      destruct (halted _); apply H.
Qed.

Lemma hands_complete (vs : list Visit) (v : Visit) (f : string) :
  (∀ v e, v ∈ vs → walkFn a v ≠ Abort e) →
  v ∈ vs → walkFn a v = Hand f → f ∈ hands a vs.
Proof.
  induction vs as [|v0 vs IH]; intros Hc Hv Hf; [by apply elem_of_nil in Hv|].
  assert (Hc' : ∀ v e, v ∈ vs → walkFn a v ≠ Abort e)
    by (intros v1 e1 H1; apply Hc; by right).
  cbn. apply elem_of_cons in Hv as [->|Hv].
  - rewrite Hf. by left.
  - destruct (walkFn a v0) eqn:E0.
    + by apply IH.
    + right. by apply IH.
    + exfalso. eapply Hc; [|exact E0]. by left.
Qed.

(** When [createBackup] returns 0, every path of the walk was received,
    and the count is the one [uploadFiles] returned. *)
Lemma handoff_at_exit (objs : gmap string Object) (sched : list Action) :
  exit_code (run K W a sched (init objs)) = Some 0%Z →
  sends_of (history (run K W a sched (init objs))) = hands a (walk W)
  ∧ items (run K W a sched (init objs)) = uploadFiles_result W a.
Proof.
  intros He. apply exit_zero in He as [_ He].
  destruct (handoff_run objs sched) as [_ Hpc]. rewrite He in Hpc. by apply Hpc.
Qed.

(** X4: the paths are received in the order of the walk, each one once.  In
    every state of every run the paths received so far are a prefix of the
    paths the walk hands over; when the process ends with exit code 0 they
    are exactly those paths, the walk having ended at its first error other
    than a vanished entry, if there is one. *)
Theorem entries_are_handed_in_walk_order (objs : gmap string Object) (sched : list Action) :
  let s := run K W a sched (init objs) in
  (∃ later, (sends_of (history s) ++ later)%list = hands a (walk W))
  ∧ (exit_code s = Some 0%Z → sends_of (history s) = hands a (walk W)).
Proof.
  intros s. destruct (handoff_run objs sched) as [Hpre _]. split; [exact Hpre|].
  intros He. by apply handoff_at_exit.
Qed.

(** X5: the number of files in the closing log line.  When the process
    ends with exit code 0, the count is 1 if the walk ended with an error,
    and otherwise the number of entries that were handed to the workers,
    whether or not a worker stored them. *)
Theorem reported_file_count (objs : gmap string Object) (sched : list Action) :
  let s := run K W a sched (init objs) in
  exit_code s = Some 0%Z →
  items s = if aborts a (walk W) then 1 else length (hands a (walk W)).
Proof.
  intros s He. apply exit_zero in He as [_ He].
  destruct (handoff_run objs sched) as [_ Hpc]. fold s in He, Hpc.
  rewrite He in Hpc. exact (proj2 (Hpc eq_refl)).
Qed.

(** X6: a backup that ends with exit code 0 is complete.  If the walk met
    no error other than vanished entries, every entry it visited without
    error and that is not ignored is in the bucket under its key (the key
    with the directory extension for a directory, with the lz4 extension
    for a file above the threshold, the plain key otherwise), unless the
    worker could not stat it or could not compress it. *)
Theorem successful_backup_is_complete (objs : gmap string Object) (sched : list Action)
    (v : Visit) (info : FileInfo) (k : string) :
  let s := run K W a sched (init objs) in
  let file := TrimPrefix (v_path v) (pgDataDirectory a) in
  walk_completes W a →
  exit_code s = Some 0%Z →
  v ∈ walk W → v_res v = inl info → ignoreFile file = false →
  stored_key K W a file = Some k →
  is_Some (objects s !! k).
Proof.
  intros s file Hwalk He Hv Hres Hig Hk.
  assert (Hf : file ∈ hands a (walk W)).
  { apply hands_complete with v; [exact Hwalk | exact Hv |].
    unfold walkFn. rewrite Hres. fold file. by rewrite Hig. }
  destruct (handoff_at_exit objs sched He) as [Hs _].
  apply exit_zero in He as [Hh Hpc].
  destruct (held_or_stored_run objs sched Hh file) as [[i Hi]|Hst].
  - by rewrite Hs.
  - destruct (pool_run objs sched Hwalk) as [Hbusy _ _ _].
    specialize (Hbusy i file Hi). by rewrite Hpc in Hbusy.
  - by apply Hst.
Qed.

(** X9: what a run changes in the bucket.  An object that differs from the
    one the run started with lies under one of the five keys of
    [createBackup] (the top-level key, backup_label, tablespace_map, the
    success marker, the latest pointer) or under a key of an entry that was
    handed over and is not ignored; and no object of the bucket
    disappears. *)
Theorem only_the_keys_of_the_backup_change (objs : gmap string Object)
    (sched : list Action) (k : string) :
  let s := run K W a sched (init objs) in
  (objects s !! k ≠ objs !! k →
   k ∈ main_keys K a
   ∨ ∃ file, sent file s ∧ ignoreFile file = false ∧ k ∈ keys_of K a file)
  ∧ (is_Some (objs !! k) → is_Some (objects s !! k)).
Proof.
  intros s. split.
  - unfold s. rewrite bucket_run. intros (e & He & _ & Hk)%replay_changed.
    destruct (ev_actor e) as [|i] eqn:Hact.
    + left. by eapply main_writes_run.
    + right. destruct (upload_run objs sched) as [Hsent _ _ _ Hwritten].
      destruct (Hwritten e i k He Hact Hk) as (f & Hf & Hin).
      exists f. by destruct (Hsent f Hf).
  - unfold s. rewrite bucket_run. apply replay_mono.
Qed.

(** X10: a name that was reserved is used up, however the run went on.
    Once the write of the top-level key has succeeded, a later
    [createBackup] with the same name over the resulting bucket, in any
    world in which the lookup works, returns 1 at the existence check and
    changes nothing. *)
Theorem reserved_name_is_never_reused (objs : gmap string Object) (sched : list Action)
    (W' : World) (sched' : list Action) :
  let s := run K W a sched (init objs) in
  let s' := run K W' a (Control :: sched') (init (objects s)) in
  reserve_ok a ∈ history s →
  get_fault W' [] (backupKey a) = false →
  exit_code s' = Some 1%Z
  ∧ objects s' = objects s
  ∧ history s' = [event Main (GetStringOp (backupKey a)) true].
Proof.
  intros s s' Hr Hg.
  assert (Hk : is_Some (objects s !! backupKey a)).
  { unfold s. rewrite bucket_run. by eapply replay_written. }
  destruct Hk as [o Ho].
  assert (E : step K W' a Control (init (objects s))
              = set_pc (Returned 1)
                  (emit Main (GetStringOp (backupKey a)) true (init (objects s)))).
  { rewrite step_control by reflexivity.
    unfold control_step, GetString; cbn. by rewrite Hg, Ho. }
  unfold s'. rewrite run_cons, E, run_terminal by reflexivity. done.
Qed.

(** *** The order of the calls *)

Lemma suffix_inv_app (P : Event → Prop) (R : list Event → Prop) (new h : list Event) :
  (∀ l1 e l2, h = (l1 ++ e :: l2)%list → P e → R l2) →
  (∀ n1 e n2, new = (n1 ++ e :: n2)%list → P e → R (n2 ++ h)%list) →
  ∀ l1 e l2, (new ++ h)%list = (l1 ++ e :: l2)%list → P e → R l2.
Proof.
  revert h. induction new as [|x new IH]; intros h Hold Hnew l1 e l2 E HP.
  - by eapply Hold.
  - destruct l1 as [|y l1]; cbn in E; injection E as -> E.
    + subst l2. by apply (Hnew [] e new).
    + eapply (IH h Hold); [|exact E|exact HP].
      intros n1 e0 n2 -> HP0. by apply (Hnew (y :: n1) e0 n2).
Qed.

Lemma session_inv_init (objs : gmap string Object) : session_inv a (init objs).
Proof.
  split; [discriminate|]. right. repeat split; try done.
  all: by apply elem_of_nil in H.
Qed.

Lemma session_inv_step (s : State) (act : Action) :
  session_inv a s → session_inv a (step K W a act s).
Proof.
  intros Hinv. pose proof Hinv as [Hat Hor].
  destruct Hor as [[H1 H2]|(Hb & Hw & Hm)].
  { destruct (step_history K W a act s) as [new Hn]. unfold session_inv. rewrite Hn.
    split; [intros _|left; split]; apply elem_of_app; right; first [exact H1 | exact H2]. }
  unfold step. destruct (terminal s) eqn:Ht; [exact Hinv|].
  destruct act as [|i|i].
  - unfold session_inv, reserve_ok, start_ok, event in *.
    unfold control_step, GetString, PutString.
    destruct (pc s) eqn:Epc; try discriminate Hb.
    all: repeat (match goal with
          | |- context [get_fault W ?h ?k] => destruct (get_fault W h k) eqn:?
          | |- context [put_fault W ?h ?k] => destruct (put_fault W h k) eqn:?
          | |- context [objects ?s0 !! ?k] => destruct (objects s0 !! k) eqn:?
          | |- context [db_start_ok W] => destruct (db_start_ok W) eqn:?
          end; cbn).
    all: cbn; rewrite ?Epc.
    all: try (split; [exact Hat | right; by rewrite Epc]).
    all: split; [first [discriminate | intros _; by left]|].
    all: first [ left; split; [right; by apply Hat | by left]
               | right; split; [reflexivity|]; split; [exact Hw|];
                 intros e [->|He]%elem_of_cons; [by split | by apply Hm]
               | right; split; [reflexivity|]; split; [exact Hw | exact Hm] ].
  - rewrite Hw, lookup_nil. by destruct (pc s).
  - by rewrite Hw, lookup_nil.
Qed.

Lemma session_run (objs : gmap string Object) (sched : list Action) :
  session_inv a (run K W a sched (init objs)).
Proof.
  apply run_invariant; [apply session_inv_init|].
  intros s act H _. by apply session_inv_step.
Qed.

Lemma step_new_uploads (act : Action) (s : State) :
  session_inv a s →
  ∃ new : list Event,
    history (step K W a act s) = (new ++ history s)%list
    ∧ ∀ e, e ∈ new → uploads e → reserve_ok a ∈ history s ∧ start_ok ∈ history s.
Proof.
  intros [_ [Hopen|(Hb & Hw & Hm)]].
  { destruct (step_history K W a act s) as [new Hn]. exists new. by split. }
  assert (Hnone : ∃ new : list Event,
             history s = (new ++ history s)%list
             ∧ ∀ e, e ∈ new → uploads e →
                    reserve_ok a ∈ history s ∧ start_ok ∈ history s).
  { exists []. split; [reflexivity|]. intros e He. by apply elem_of_nil in He. }
  unfold step. destruct (terminal s); [exact Hnone|].
  destruct act as [|i|i].
  - destruct (control_effects s) as (new & Hn & _ & Hnew). exists new.
    split; [exact Hn|]. intros e He [[j Hj]|[f Hf]].
    + destruct (Hnew e He) as (Hact & _). congruence.
    + destruct (Hnew e He) as (_ & Hns & _). by destruct (Hns f).
  - rewrite Hw, lookup_nil. by destruct (pc s).
  - by rewrite Hw, lookup_nil.
Qed.

(** X7: nothing is handed over or uploaded before the session is open.  In
    the history of every run (the newest call first), every send and every
    call of a worker comes after the call that reserved the name and after
    the call of pg_start_backup, both successful. *)
Theorem no_upload_before_start (objs : gmap string Object) (sched : list Action)
    (l1 l2 : list Event) (e : Event) :
  history (run K W a sched (init objs)) = (l1 ++ e :: l2)%list →
  ((∃ i, ev_actor e = Worker i) ∨ ∃ f, ev_op e = SendOp f) →
  event Main (PutStringOp (backupKey a) "") true ∈ l2
  ∧ event Main StartBackupOp true ∈ l2.
Proof.
  revert l1 e l2.
  apply (run_invariant K W a
           (λ s, session_inv a s
                 ∧ ∀ l1 e l2, history s = (l1 ++ e :: l2)%list → uploads e →
                              reserve_ok a ∈ l2 ∧ start_ok ∈ l2)).
  { split; [apply session_inv_init|]. intros [|? ?] ? ? [=]. }
  intros s act [Hs Hq] _. split; [by apply session_inv_step|].
  destruct (step_new_uploads act s Hs) as (new & -> & Hnew).
  apply (suffix_inv_app uploads (λ l, reserve_ok a ∈ l ∧ start_ok ∈ l)); [exact Hq|].
  intros n1 e n2 -> He. destruct (Hnew e) as [H1 H2]; [|exact He|].
  - apply elem_of_app. right. by left.
  - split; apply elem_of_app; by right.
Qed.

Lemma stop_inv_step (s : State) (act : Action) :
  stop_inv s → stop_inv (step K W a act s).
Proof.
  intros Hinv. unfold step. destruct (terminal s) eqn:Ht; [exact Hinv|].
  destruct act as [|i|i].
  - unfold stop_inv, is_stop in *.
    unfold control_step, GetString, PutString, putSuccessfulMarker, updateLatest, PutString.
    destruct (pc s) eqn:Epc.
    all: repeat (match goal with
          | |- context [get_fault W ?h ?k] => destruct (get_fault W h k) eqn:?
          | |- context [put_fault W ?h ?k] => destruct (put_fault W h k) eqn:?
          | |- context [objects ?s0 !! ?k] => destruct (objects s0 !! k) eqn:?
          | |- context [db_start_ok W] => destruct (db_start_ok W) eqn:?
          | |- context [db_stop W] => destruct (db_stop W) as [[[? ?] ?]|] eqn:?
          | |- context [decide (?x = ?y)] => destruct (decide (x = y))
          | |- context [forallb ?f ?l] => destruct (forallb f l) eqn:?
          | |- context [match ?r with [] => _ | _ :: _ => _ end] => destruct r eqn:?
          | |- context [walkFn a ?v] => destruct (walkFn a v) eqn:?
          end; cbn).
    all: cbn; rewrite ?Epc.
    all: try exact Hinv.
    all: try (intros; reflexivity).
    all: try (intros e [->|He]%elem_of_cons [Ha Hop]; [discriminate Hop|];
              pose proof (Hinv e He (conj Ha Hop)) as Hx; cbn in Hx; discriminate Hx).
    all: intros e He Hs; pose proof (Hinv e He Hs) as Hx; cbn in Hx; discriminate Hx.
  - destruct (pc s) eqn:Epc; try exact Hinv.
    destruct (workers s !! i) as [[| |]|]; try exact Hinv.
    intros e. cbn. intros [->|He]%elem_of_cons [Ha Hop]; [discriminate|].
    pose proof (Hinv e He (conj Ha Hop)) as Hx. rewrite Epc in Hx. discriminate Hx.
  - destruct (workers s !! i) as [[|pgFile|]|]; try exact Hinv.
    + destruct (closed s); exact Hinv.
    + assert (H : stop_inv (process K W a i pgFile s)).
      { destruct (process_frame K W a i pgFile s) as (Hpc & _).
        destruct (process_effects i pgFile s) as (new & Hn & _ & Hnew).
        intros e. rewrite Hn, Hpc. intros [He|He]%elem_of_app Hs.
        - destruct Hs as [Hact _]. rewrite (Hnew e He) in Hact. discriminate.
        - by apply (Hinv e He). }
      destruct (halted _); exact H.
Qed.

Lemma step_new_worker_calls (act : Action) (s : State) :
  pool_inv W a s → stop_inv s →
  ∃ new : list Event,
    history (step K W a act s) = (new ++ history s)%list
    ∧ ∀ n1 e n2, new = (n1 ++ e :: n2)%list → by_worker e →
                 ∀ e', e' ∈ (n2 ++ history s)%list → ¬ is_stop e'.
Proof.
  intros [Hbusy _ _ _] Hstop.
  assert (Hnone : ∃ new : list Event,
             history s = (new ++ history s)%list
             ∧ ∀ n1 e n2, new = (n1 ++ e :: n2)%list → by_worker e →
                          ∀ e', e' ∈ (n2 ++ history s)%list → ¬ is_stop e').
  { exists []. split; [reflexivity|]. intros n1 e n2 Hn. by destruct n1. }
  unfold step. destruct (terminal s); [exact Hnone|].
  destruct act as [|i|i].
  - destruct (control_effects s) as (new & Hn & _ & Hnew). exists new.
    split; [exact Hn|]. intros n1 e n2 -> [j Hj].
    destruct (Hnew e) as (Hact & _); [|congruence]. apply elem_of_app. right. by left.
  - destruct (pc s); try exact Hnone.
    destruct (workers s !! i) as [[| |]|]; try exact Hnone.
    eexists [_]. split; [reflexivity|].
    intros n1 e n2 Hn [j Hj]. destruct n1 as [|x [|y n1]]; [|discriminate Hn..].
    injection Hn as <- _. discriminate Hj.
  - destruct (workers s !! i) as [[|pgFile|]|] eqn:Hw; try exact Hnone.
    + destruct (closed s); exact Hnone.
    + assert (H : ∃ new : list Event,
                 history (process K W a i pgFile s) = (new ++ history s)%list
                 ∧ ∀ n1 e n2, new = (n1 ++ e :: n2)%list → by_worker e →
                              ∀ e', e' ∈ (n2 ++ history s)%list → ¬ is_stop e').
      { destruct (process_effects i pgFile s) as (new & Hn & _ & Hnew). exists new.
        split; [exact Hn|]. intros n1 e n2 -> _ e' [He'|He']%elem_of_app [Hact Hop].
        - rewrite (Hnew e') in Hact; [discriminate|].
          apply elem_of_app. right. by right.
        - pose proof (Hstop e' He' (conj Hact Hop)) as Hx.
          pose proof (Hbusy i pgFile Hw) as Hy. by destruct (pc s). }
      destruct (halted _); exact H.
Qed.

Lemma worker_calls_before_stop (objs : gmap string Object) (sched : list Action) :
  walk_completes W a →
  ∀ l1 e l2, history (run K W a sched (init objs)) = (l1 ++ e :: l2)%list →
             by_worker e → ∀ e', e' ∈ l2 → ¬ is_stop e'.
Proof.
  intros Hwalk.
  apply (run_invariant K W a
           (λ s, (pool_inv W a s ∧ stop_inv s)
                 ∧ ∀ l1 e l2, history s = (l1 ++ e :: l2)%list → by_worker e →
                              ∀ e', e' ∈ l2 → ¬ is_stop e')).
  { split; [split|].
    - apply (pool_run objs []), Hwalk.
    - intros e He. by apply elem_of_nil in He.
    - intros [|? ?] ? ? [=]. }
  intros s act [[Hp Hs] Hq] Ht. split; [split|].
  - by apply pool_inv_step.
  - by apply stop_inv_step.
  - destruct (step_new_worker_calls act s Hp Hs) as (new & -> & Hnew).
    apply (suffix_inv_app by_worker (λ l, ∀ e', e' ∈ l → ¬ is_stop e')); [exact Hq|].
    exact Hnew.
Qed.

(** X8: in a run whose walk meets no error other than vanished entries, no
    worker makes a call after pg_stop_backup was called: at every call of
    a worker, no call of pg_stop_backup is in the history before it. *)
Theorem no_upload_after_stop (objs : gmap string Object) (sched : list Action)
    (l1 l2 : list Event) (e : Event) (i : nat) :
  walk_completes W a →
  history (run K W a sched (init objs)) = (l1 ++ e :: l2)%list →
  ev_actor e = Worker i →
  ∀ ok, event Main StopBackupOp ok ∉ l2.
Proof.
  intros Hwalk Hh Hact ok Hin.
  eapply (worker_calls_before_stop objs sched Hwalk l1 e l2 Hh); [by exists i | exact Hin |].
  by split.
Qed.

(** *** What has been achieved when [createBackup] returns *)

Ltac milestone :=
  repeat match goal with
         | |- _ → _ => intro
         | H : ?c = 0%Z → _, H' : ?c = 0%Z |- _ => specialize (H H')
         | H : _ ∧ _ |- _ => destruct H
         | H : ∃ _, _ |- _ => destruct H
         | |- _ ∧ _ => split
         | H : db_stop W = Some (_, ?l, ?m) |- ∃ _ _, _ => exists l, m
         | H : db_stop W = Some (?lsn, _, _) |- ∃ x, db_stop W = @?P x => exists lsn
         | |- ∃ x, Some (?lsn, _, _) = @?P x => exists lsn
         | H : db_stop W = Some (_, ?l, _) |- ∃ _, _ => exists l
         | |- ∃ _, _ => eexists
         | |- _ ∈ _ :: _ => first [by left | right]
         | H : ∀ e, e ∈ ?h → e ∈ ?h' |- _ ∈ ?h' => apply H
         end;
  try eassumption; try done; eauto.

Lemma milestones_mono (s s' : State) :
  pc s' = pc s → (∀ e, e ∈ history s → e ∈ history s') →
  milestones K W a s → milestones K W a s'.
Proof.
  intros Hpc Hh. unfold milestones. rewrite Hpc.
  destruct (pc s); cbn; intros Hinv; milestone.
Qed.

Lemma milestones_step (s : State) (act : Action) :
  milestones K W a s → milestones K W a (step K W a act s).
Proof.
  intros Hinv. unfold step. destruct (terminal s) eqn:Ht; [exact Hinv|].
  destruct act as [|i|i].
  - unfold milestones, reserve_ok, start_ok, stop_ok, marker_write, latest_write, event in *.
    unfold control_step, GetString, PutString, putSuccessfulMarker, updateLatest, PutString.
    destruct (pc s) eqn:Epc.
    all: repeat (match goal with
          | |- context [get_fault W ?h ?k] => destruct (get_fault W h k) eqn:?
          | |- context [put_fault W ?h ?k] => destruct (put_fault W h k) eqn:?
          | |- context [objects ?s0 !! ?k] => destruct (objects s0 !! k) eqn:?
          | |- context [db_start_ok W] => destruct (db_start_ok W) eqn:?
          | |- context [match db_stop W with Some _ => _ | None => _ end] =>
              destruct (db_stop W) as [[[? ?] ?]|] eqn:?
          | |- context [decide (?x = ?y)] => destruct (decide (x = y))
          | |- context [forallb ?f ?l] => destruct (forallb f l) eqn:?
          | |- context [match ?r with [] => _ | _ :: _ => _ end] => destruct r eqn:?
          | |- context [walkFn a ?v] => destruct (walkFn a v) eqn:?
          end; cbn).
    all: cbn; rewrite ?Epc; cbn in Hinv.
    all: try exact Hinv.
    all: try discriminate.
    all: try (intros [=]).
    all: milestone.
  - destruct (pc s) eqn:Epc; try exact Hinv.
    destruct (workers s !! i) as [[| |]|]; try exact Hinv.
    unfold milestones in *. rewrite Epc in Hinv. cbn in *. milestone.
  - destruct (workers s !! i) as [[|pgFile|]|]; try exact Hinv.
    + destruct (closed s); exact Hinv.
    + assert (H : milestones K W a (process K W a i pgFile s)).
      { destruct (process_frame K W a i pgFile s) as (Hpc & _).
        destruct (process_effects i pgFile s) as (new & Hn & _).
        apply (milestones_mono s); [exact Hpc | | exact Hinv].
        intros e He. rewrite Hn. apply elem_of_app. by right. }
      destruct (halted _); [exact H|].
      apply (milestones_mono (process K W a i pgFile s)); done.
Qed.

Lemma milestones_run (objs : gmap string Object) (sched : list Action) :
  milestones K W a (run K W a sched (init objs)).
Proof.
  apply run_invariant; [exact I|].
  intros s act H _. by apply milestones_step.
Qed.

(** X11: what exit code 0 says.  The top-level key was written,
    pg_start_backup and pg_stop_backup succeeded, backup_label was stored
    with the label pg_stop_backup returned and tablespace_map with its map
    unless that is empty, the success marker was attempted (not
    necessarily with success) and the latest pointer was updated; the
    top-level key, backup_label and the latest pointer are in the
    bucket. *)
Theorem exit_code_zero_guarantees (objs : gmap string Object) (sched : list Action) :
  let s := run K W a sched (init objs) in
  exit_code s = Some 0%Z →
  event Main (PutStringOp (backupKey a) "") true ∈ history s
  ∧ event Main StartBackupOp true ∈ history s
  ∧ event Main StopBackupOp true ∈ history s
  ∧ (∃ lsn labelFile mapFile,
        db_stop W = Some (lsn, labelFile, mapFile)
        ∧ event Main (PutStringOp (backupName a +:+ "/backup_label") labelFile) true
          ∈ history s
        ∧ (mapFile ≠ "" →
           event Main (PutStringOp (backupName a +:+ "/tablespace_map") mapFile) true
           ∈ history s))
  ∧ (∃ ok, event Main (marker_write K a) ok ∈ history s)
  ∧ event Main (latest_write K a) true ∈ history s
  ∧ is_Some (objects s !! backupKey a)
  ∧ is_Some (objects s !! (backupName a +:+ "/backup_label"))
  ∧ is_Some (objects s !! latestKey K).
Proof.
  intros s He. apply exit_zero in He as [_ Hpc].
  pose proof (milestones_run objs sched) as Hm. unfold milestones in Hm.
  rewrite Hpc in Hm.
  destruct (Hm eq_refl) as ([H1 H2] & (l & m & [H3 [lsn H4]] & H5 & H6) & H7 & H8).
  repeat split; try assumption.
  - by exists lsn, l, m.
  - unfold s. rewrite bucket_run. by eapply replay_written; [exact H1|..].
  - unfold s. rewrite bucket_run. by eapply replay_written; [exact H5|..].
  - unfold s. rewrite bucket_run. by eapply replay_written; [exact H8|..].
Qed.

Lemma latest_inv_step (s : State) (act : Action) :
  latest_inv K a s → latest_inv K a (step K W a act s).
Proof.
  intros Hinv. unfold step. destruct (terminal s) eqn:Ht; [exact Hinv|].
  destruct act as [|i|i].
  - unfold latest_inv, early_keys in *.
    unfold control_step, GetString, PutString, putSuccessfulMarker, updateLatest, PutString.
    destruct (pc s) eqn:Epc.
    all: repeat (match goal with
          | |- context [get_fault W ?h ?k] => destruct (get_fault W h k) eqn:?
          | |- context [put_fault W ?h ?k] => destruct (put_fault W h k) eqn:?
          | |- context [objects ?s0 !! ?k] => destruct (objects s0 !! k) eqn:?
          | |- context [db_start_ok W] => destruct (db_start_ok W) eqn:?
          | |- context [db_stop W] => destruct (db_stop W) as [[[? ?] ?]|] eqn:?
          | |- context [decide (?x = ?y)] => destruct (decide (x = y))
          | |- context [forallb ?f ?l] => destruct (forallb f l) eqn:?
          | |- context [match ?r with [] => _ | _ :: _ => _ end] => destruct r eqn:?
          | |- context [walkFn a ?v] => destruct (walkFn a v) eqn:?
          end; cbn).
    all: cbn; rewrite ?Epc.
    all: try exact Hinv.
    all: try (left; by auto).
    all: destruct Hinv as [[Hx|Hx]|Hinv]; try discriminate Hx.
    all: right; try exact Hinv.
    all: intros ev key [->|Hev]%elem_of_cons Hact Hok Hkey; [|by eapply Hinv].
    all: try discriminate.
    all: injection Hkey as <-; set_solver.
  - destruct (pc s) eqn:Epc; try exact Hinv.
    destruct (workers s !! i) as [[| |]|]; try exact Hinv.
    destruct Hinv as [[Hx|Hx]|Hinv]; try congruence.
    right. cbn. intros e k [->|He]%elem_of_cons Hact Hok Hk; [discriminate|].
    by eapply Hinv.
  - destruct (workers s !! i) as [[|pgFile|]|]; try exact Hinv.
    + destruct (closed s); exact Hinv.
    + assert (H : latest_inv K a (process K W a i pgFile s)).
      { destruct (process_frame K W a i pgFile s) as (Hpc & _).
        destruct (process_effects i pgFile s) as (new & Hn & _ & Hnew).
        unfold latest_inv. rewrite Hpc, Hn.
        destruct Hinv as [Hx|Hinv]; [by left|]. right.
        intros e k [He|He]%elem_of_app Hact Hok Hk; [|by eapply Hinv].
        rewrite (Hnew e He) in Hact. discriminate. }
      destruct (halted _); exact H.
Qed.

(** X12: when [createBackup] returns 1 it has not updated the latest
    pointer, provided the key of the pointer is not one of the four other
    keys that [createBackup] writes. *)
Theorem failure_leaves_latest (objs : gmap string Object) (sched : list Action)
    (value : string) :
  let s := run K W a sched (init objs) in
  pc s = Returned 1 →
  latestKey K ∉ early_keys K a →
  event Main (PutStringOp (latestKey K) value) true ∉ history s.
Proof.
  intros s Hpc Hk Hin.
  assert (Hinv : latest_inv K a s).
  { apply run_invariant.
    - right. intros e k He. by apply elem_of_nil in He.
    - intros s0 act H _. by apply latest_inv_step. }
  destruct Hinv as [[Hx|Hx]|Hinv]; try congruence.
  apply Hk. by eapply (Hinv _ _ Hin).
Qed.

(** *** Termination and deadlocks *)

(** X2: there is no deadlock.  With at least one worker, in every world and
    after every schedule, as long as the process is not over some goroutine
    can take a step: the control goroutine, a worker that receives the path
    being sent, or a worker that deals with its path or returns. *)
Theorem some_goroutine_can_step (objs : gmap string Object) (sched : list Action) :
  let s := run K W a sched (init objs) in
  (0 < nWorkers a)%nat →
  exit_code s = None →
  ∃ act, step K W a act s ≠ s.
Proof.
  intros s Hn He. apply (no_deadlock K W a); [exact Hn | apply live_run |].
  destruct (terminal s) eqn:Ht; [|done].
  by destruct (terminal_exit_code s Ht).
Qed.

Lemma no_workers_run (objs : gmap string Object) (sched : list Action) :
  nWorkers a = 0 →
  let s := run K W a sched (init objs) in
  workers s = [] ∧ halted s = None ∧ sends_of (history s) = [].
Proof.
  intros Hn.
  apply (run_invariant K W a
           (λ s, workers s = [] ∧ halted s = None ∧ sends_of (history s) = [])); [done|].
  intros s act (Hw & Hh & Hs) Ht. unfold step. rewrite Ht.
  destruct act as [|i|i].
  - destruct (control_frame s) as (Eh & Es & Ew). rewrite Eh, Es.
    split; [|done].
    assert (pc s = AtSpawn ∨ pc s ≠ AtSpawn) as [Hc|Hc]
      by (destruct (pc s); (by left) || (by right)).
    + unfold control_step. rewrite Hc, Hn. reflexivity.
    + by rewrite (Ew Hc).
  - rewrite Hw, lookup_nil. by destruct (pc s).
  - by rewrite Hw, lookup_nil.
Qed.

(** X3: with nWorkers = 0 a backup that has anything to hand over never
    succeeds.  [uploadFiles] starts no worker, so the first send on the
    unbuffered channel finds no receiver: no run ends with exit code 0, and
    once the walk is in a send no goroutine can take a step while the
    process is not over. *)
Theorem no_workers_no_backup (objs : gmap string Object) (sched : list Action) :
  let s := run K W a sched (init objs) in
  nWorkers a = 0 →
  hands a (walk W) ≠ [] →
  exit_code s ≠ Some 0%Z
  ∧ (∀ file rest, pc s = Sending file rest → stuck K W a s ∧ exit_code s = None).
Proof.
  intros s Hn Hne. destruct (no_workers_run objs sched Hn) as (Hw & Hh & Hs).
  fold s in Hw, Hh, Hs. split.
  - intros He. destruct (handoff_at_exit objs sched He) as [E _].
    fold s in E. by rewrite Hs in E.
  - intros file rest Hpc. split.
    + intros act. unfold step. destruct (terminal s); [done|].
      destruct act as [|i|i].
      * unfold control_step. by rewrite Hpc.
      * by rewrite Hpc, Hw, lookup_nil.
      * by rewrite Hw, lookup_nil.
    + unfold exit_code. by rewrite Hh, Hpc.
Qed.

End Protocol.

(* ===================================================================== *)
(** ** Paths, keys and the ignore lists                                 *)
(* ===================================================================== *)

Section PathFacts.

Variable K : Constants.
Variable W : World.
Variable a : app.

Lemma ignoreFile_app (p q : string) :
  ignoreFile p = true → ignoreFile (p +:+ q) = true.
Proof.
  unfold ignoreFile. rewrite !existsb_exists.
  intros (d & Hd & Hp). exists d. split; [exact Hd | by apply HasPrefix_app].
Qed.

(** X13: [ignoreFile] matches by string prefix, so whatever is ignored
    stays ignored when the path goes on: every entry whose path is the data
    directory followed by an ignored relative path and anything more is
    skipped by the walk. *)
Theorem entries_below_an_ignored_prefix_are_skipped (p q : string) (info : FileInfo) :
  ignoreFile p = true →
  ignoreFile (p +:+ q) = true
  ∧ walkFn a {| v_path := pgDataDirectory a +:+ p +:+ q; v_res := inl info |} = Skip.
Proof.
  intros Hp. pose proof (ignoreFile_app p q Hp) as Hpq. split; [exact Hpq|].
  unfold walkFn. cbn [v_res v_path]. by rewrite TrimPrefix_app, Hpq.
Qed.

Lemma ignoreFile_slash (q : string) : ignoreFile (String "/" q) = false.
Proof. reflexivity. Qed.

Lemma s3_ignoreFile_slash (p : string) :
  DirectS3.ignoreFile p = true → ∃ r, p = String "/" r.
Proof.
  destruct p as [|c r]; [discriminate|].
  destruct (Ascii.eqb "/" c) eqn:E.
  - apply Ascii.eqb_eq in E as <-. by exists r.
  - unfold DirectS3.ignoreFile, DirectS3.prefixesNotToBackup. cbn [existsb].
    rewrite !HasPrefix_cons, E. discriminate.
Qed.

(** X14: the two ignore lists need opposite conventions for the data
    directory.  With the list of this revision a relative path that starts
    with a slash (data directory given without the slash at its end) is
    never ignored; with the list of the revision that calls S3 directly a
    relative path that does not start with a slash is never ignored; no
    relative path is ignored by both. *)
Theorem ignore_lists_need_opposite_conventions (q : string) (c : ascii) (info : FileInfo) :
  walkFn a {| v_path := pgDataDirectory a +:+ "/" +:+ q; v_res := inl info |}
  = Hand ("/" +:+ q)
  ∧ (c ≠ "/"%char →
     DirectS3.walkFn a {| v_path := pgDataDirectory a +:+ String c q; v_res := inl info |}
     = Hand (String c q))
  ∧ (∀ p, ignoreFile p = true → DirectS3.ignoreFile p = false).
Proof.
  split; [|split].
  - unfold walkFn. cbn [v_res v_path]. rewrite TrimPrefix_app.
    change ("/" +:+ q) with (String "/" q). by rewrite ignoreFile_slash.
  - intros Hc. unfold DirectS3.walkFn. cbn [v_res v_path]. rewrite TrimPrefix_app.
    destruct (DirectS3.ignoreFile (String c q)) eqn:E; [|done].
    apply s3_ignoreFile_slash in E as [r [= -> _]]. done.
  - intros p Hp. destruct (DirectS3.ignoreFile p) eqn:E; [|done].
    apply s3_ignoreFile_slash in E as [r ->]. by rewrite ignoreFile_slash in Hp.
Qed.

Lemma TrimPrefix_self (p : string) : TrimPrefix p p = "".
Proof. rewrite <- (append_nil_r p) at 1. apply TrimPrefix_app. Qed.

(** X15: the data directory itself.  [filepath.Walk] visits its root first;
    the callback hands it over as the empty relative path, and the worker
    that stats it as a directory writes its placeholder under the cleaned
    backup name followed by the directory extension, next to the folder of
    the backup and not inside it. *)
Theorem data_directory_root_placeholder (s : State) (i : nat) (info st : FileInfo) :
  let key := filepath_Clean (backupName a) +:+ DirectoryExtension K in
  walkFn a {| v_path := pgDataDirectory a; v_res := inl info |} = Hand ""
  ∧ (backupName a ≠ "" →
     terminal s = false → workers s !! i = Some (Busy "") →
     os_Stat W (filepath_Join (pgDataDirectory a) "") = Some st → IsDir st = true →
     put_fault W (history s) key = false →
     objects (step K W a (Work i) s) = <[key := Text ""]> (objects s)).
Proof.
  intros key. split.
  - unfold walkFn. cbn [v_res v_path]. by rewrite TrimPrefix_self.
  - intros Hb Ht Hw Hst Hdir Hput.
    rewrite (step_work_busy K W a s i "" Ht Hw). cbn zeta.
    unfold process, PutString. rewrite Hst, Hdir, (Join_empty _ Hb).
    fold key. rewrite Hput. cbn. by rewrite (terminal_false_halted s Ht).
Qed.

(** X16: a name and the same name followed by a slash are two names for
    the existence check, whose top-level keys differ, but [filepath.Join]
    gives them the same success marker and the same key for every
    entry. *)
Theorem names_that_differ_by_a_trailing_slash (a' : app) :
  backupName a ≠ "" →
  successfullyCompletedFolder K ≠ "" →
  backupName a' = backupName a +:+ "/" →
  backupKey a' ≠ backupKey a
  ∧ getSuccessfulMarker K (backupName a') = getSuccessfulMarker K (backupName a)
  ∧ ∀ file, keys_of K a' file = keys_of K a file.
Proof.
  intros Hb Hf Hn. split; [|split].
  - unfold backupKey. rewrite Hn, append_assoc. intros E.
    apply String.app_inj in E. discriminate.
  - unfold getSuccessfulMarker, filepath_Join. rewrite Hn.
    rewrite !(decide_False (P := successfullyCompletedFolder K = "")) by done.
    rewrite <- !append_assoc. apply Clean_trailing_slash. by destruct (successfullyCompletedFolder K).
  - intros file. unfold keys_of. by rewrite Hn, Join_trailing_slash.
Qed.

End PathFacts.

(* ===================================================================== *)
(** ** deleteSuccessfulMarker                                           *)
(* ===================================================================== *)

Section DeleteFacts.

Variable K : Constants.
Variable W : World.
Variable delete_fault : list Event → string → bool.

(** X17: [putSuccessfulMarker] followed by [deleteSuccessfulMarker], when
    no call fails, both return nil and leave the bucket as it was but for
    the marker, which is gone. *)
Theorem delete_marker_round_trip (name : string) (s : State) :
  let key := getSuccessfulMarker K name in
  let s1 := snd (putSuccessfulMarker K W name s) in
  let r := deleteSuccessfulMarker K W delete_fault name s1 in
  (∀ h, put_fault W h key = false) →
  (∀ h, get_fault W h key = false) →
  (∀ h, delete_fault h key = false) →
  fst (putSuccessfulMarker K W name s) = true
  ∧ fst r = true
  ∧ objects (snd r) = delete key (objects s)
  ∧ (∀ k, k ≠ key → objects (snd r) !! k = objects s !! k).
Proof.
  intros key s1 r Hp Hg Hd. subst r s1.
  unfold deleteSuccessfulMarker, putSuccessfulMarker, PutString, GetString, Delete.
  fold key. rewrite Hp. cbn. rewrite Hg. cbn. rewrite lookup_insert_eq. cbn.
  rewrite Hd. cbn. rewrite delete_insert_eq. repeat split.
  intros k Hk. by rewrite lookup_delete_ne.
Qed.

(** X18: [deleteSuccessfulMarker] returns nil and deletes nothing whenever
    the lookup of the marker fails, be it because there is no marker or
    because the backend failed; in the second case a marker that exists
    stays. *)
Theorem delete_marker_after_a_failed_lookup (name : string) (s : State) (e : StorageError) :
  let key := getSuccessfulMarker K name in
  let r := deleteSuccessfulMarker K W delete_fault name s in
  fst (GetString W Main key s) = inr e →
  fst r = true ∧ objects (snd r) = objects s.
Proof.
  intros key r. subst r. unfold deleteSuccessfulMarker. fold key.
  unfold GetString. destruct (get_fault W (history s) key); [done|].
  by destruct (objects s !! key).
Qed.

End DeleteFacts.

(* ===================================================================== *)
(** ** Runs of the revision that calls S3 directly                      *)
(* ===================================================================== *)

Section S3Runs.

Variable K : Constants.
Variable W : World.
Variable a : app.
Variable backupExclusive : bool.

Lemma s3_run_invariant (P : State → Prop) (s0 : State) :
  P s0 →
  (∀ s act, P s → terminal s = false → P (s3_step K W a backupExclusive act s)) →
  ∀ sched, P (s3_run K W a backupExclusive sched s0).
Proof.
  intros H0 Hstep sched. revert s0 H0.
  induction sched as [|act l IH]; intros s0 H0; [exact H0|].
  cbn. apply IH. destruct (terminal s0) eqn:Ht.
  - unfold s3_step. by rewrite Ht.
  - by apply Hstep.
Qed.

Lemma s3_process_effects (i : nat) (pgFile : string) (s : State) :
  halted s = None →
  pc (DirectS3.process W a i pgFile s) = pc s
  ∧ (halted (DirectS3.process W a i pgFile s) = None
     ∨ halted (DirectS3.process W a i pgFile s) = Some 1%Z)
  ∧ ∃ new : list Event,
      history (DirectS3.process W a i pgFile s) = (new ++ history s)%list
      ∧ ∀ e, e ∈ new → ev_actor e = Worker i ∧ ∀ key, ev_op e ≠ GetStringOp key.
Proof.
  intros Hh.
  unfold DirectS3.process, Compress, Put, Fatal, MustRemoveFile;
  repeat (match goal with
          | |- context [os_Stat W ?p] => destruct (os_Stat W p) eqn:?
          | |- context [IsDir ?st] => destruct (IsDir st) eqn:?
          | |- context [(?x >? ?y)%Z] => destruct (x >? y)%Z eqn:?
          | |- context [lz4_tmp W ?p] => destruct (lz4_tmp W p) eqn:?
          | |- context [decide (?x = ?y)] => destruct (decide (x = y))
          | |- context [put_fault W ?h ?k] => destruct (put_fault W h k) eqn:?
          end; cbn);
  (split; [reflexivity|]); (split; [auto|]);
  match goal with
       | |- ∃ new, ?h = _ ∧ _ =>
           let rec pref l := match l with
                             | history s => constr:(@nil Event)
                             | ?e :: ?l' => let r := pref l' in constr:(e :: r)
                             end in
           let p := pref h in exists p
       end;
       (split; [reflexivity|]);
       intros ev Hev; repeat (apply elem_of_cons in Hev as [->|Hev]);
       try (apply elem_of_nil in Hev; contradiction); by split.
Qed.

Ltac s3_milestone :=
  repeat match goal with
         | |- _ → _ => intro
         | H : ?c = 0%Z → _, H' : ?c = 0%Z |- _ => specialize (H H')
         | H : _ ∧ _ |- _ => destruct H
         | |- _ ∧ _ => split
         | |- _ ∈ _ :: _ => first [by left | right]
         | H : ∀ e, e ∈ ?h → e ∈ ?h' |- _ ∈ ?h' => apply H
         end;
  try eassumption; try done; eauto.

Lemma s3_milestones_mono (s s' : State) (new : list Event) :
  pc s' = pc s →
  history s' = (new ++ history s)%list →
  (∀ e key, e ∈ new → ev_op e ≠ GetStringOp key) →
  (halted s' = None ∨ halted s' = Some 1%Z) →
  s3_milestones K a backupExclusive s → s3_milestones K a backupExclusive s'.
Proof.
  intros Hpc Hn Hnew Hh (Hg & _ & Hm). unfold s3_milestones. rewrite Hpc.
  assert (Hin : ∀ e, e ∈ history s → e ∈ history s').
  { intros e He. rewrite Hn. apply elem_of_app. by right. }
  split; [|split; [exact Hh|]].
  - intros e key. rewrite Hn. intros [He|He]%elem_of_app; [by apply Hnew | by apply Hg].
  - destruct (pc s); cbn in *; s3_milestone.
    all: match goal with H : backupExclusive = false → ∃ _, _ |- _ =>
           destruct H as [l Hl]; [done|]; exists l; by apply Hin end.
Qed.

Lemma s3_milestones_step (s : State) (act : Action) :
  s3_milestones K a backupExclusive s →
  s3_milestones K a backupExclusive (s3_step K W a backupExclusive act s).
Proof.
  intros Hinv. unfold s3_step. destruct (terminal s) eqn:Ht; [exact Hinv|].
  pose proof (terminal_false_halted s Ht) as Hh.
  destruct act as [|i|i].
  - destruct Hinv as (Hg & _ & Hm).
    unfold s3_milestones, reserve_ok, start_ok, stop_ok, marker_write, latest_write, event in *.
    unfold DirectS3.control_step, PutString.
    destruct (pc s) eqn:Epc.
    all: repeat (match goal with
          | |- context [put_fault W ?h ?k] => destruct (put_fault W h k) eqn:?
          | |- context [db_start_ok W] => destruct (db_start_ok W) eqn:?
          | |- context [match db_stop W with Some _ => _ | None => _ end] =>
              destruct (db_stop W) as [[[? ?] ?]|] eqn:?
          | |- context [decide (?x = ?y)] => destruct (decide (x = y))
          | |- context [if backupExclusive then _ else _] => destruct backupExclusive eqn:?
          | |- context [forallb ?f ?l] => destruct (forallb f l) eqn:?
          | |- context [match ?r with [] => _ | _ :: _ => _ end] => destruct r eqn:?
          | |- context [DirectS3.walkFn a ?v] => destruct (DirectS3.walkFn a v) eqn:?
          end; cbn).
    all: cbn; rewrite ?Epc, ?Hh; cbn in Hm.
    all: (split; [|split; [by left|]]).
    all: try (intros ev key [->|Hev]%elem_of_cons; [discriminate | by apply Hg]).
    all: try exact Hg.
    all: try exact Hm.
    all: try discriminate.
    all: try (intros [=]).
    all: s3_milestone.
    all: first [ eexists; by left
               | match goal with
                 | H : ?b = false → ∃ _, _, H' : ?b = false |- _ =>
                     destruct (H H') as [l0 Hl]; exists l0; by right
                 end ].
  - destruct (pc s) eqn:Epc; try exact Hinv.
    destruct (workers s !! i) as [[| |]|]; try exact Hinv.
    unfold s3_milestones in *. rewrite Epc in Hinv. cbn.
    destruct Hinv as (Hg & Hx & [H1 H2]).
    split; [|split; [exact Hx | split; by right]].
    intros e key [->|He]%elem_of_cons; [discriminate | by apply Hg].
  - destruct (workers s !! i) as [[|pgFile|]|]; try exact Hinv.
    + destruct (closed s); [|exact Hinv].
      apply (s3_milestones_mono s _ []); cbn; try done.
      * intros e key He. by apply elem_of_nil in He.
      * by left.
    + destruct (s3_process_effects i pgFile s Hh) as (Hpc & Hhalt & new & Hn & Hnew).
      assert (H : s3_milestones K a backupExclusive (DirectS3.process W a i pgFile s)).
      { apply (s3_milestones_mono s _ new); try done.
        intros e key He. by destruct (Hnew e He) as [_ ?]. }
      destruct (halted (DirectS3.process W a i pgFile s)) eqn:Hp; [exact H|].
      apply (s3_milestones_mono (DirectS3.process W a i pgFile s) _ []); cbn; try done.
      * intros e key He. by apply elem_of_nil in He.
      * by left.
Qed.

Lemma s3_milestones_run (objs : gmap string Object) (sched : list Action) :
  s3_milestones K a backupExclusive (s3_run K W a backupExclusive sched (init objs)).
Proof.
  apply s3_run_invariant.
  - split; [|split; [by left | exact I]]. intros e key He. by apply elem_of_nil in He.
  - intros s act H _. by apply s3_milestones_step.
Qed.

(** X19: in the revision that calls S3 directly exit code 0 says that the
    top-level key was written, pg_start_backup and pg_stop_backup
    succeeded, backup_label was stored unless the backup is exclusive, and
    both the success marker and the latest pointer were written with
    success. *)
Theorem s3_exit_code_zero_guarantees (objs : gmap string Object) (sched : list Action) :
  let s := s3_run K W a backupExclusive sched (init objs) in
  exit_code s = Some 0%Z →
  event Main (PutStringOp (backupKey a) "") true ∈ history s
  ∧ event Main StartBackupOp true ∈ history s
  ∧ event Main StopBackupOp true ∈ history s
  ∧ (backupExclusive = false →
     ∃ labelFile,
       event Main (PutStringOp (backupName a +:+ "/backup_label") labelFile) true
       ∈ history s)
  ∧ event Main (marker_write K a) true ∈ history s
  ∧ event Main (latest_write K a) true ∈ history s.
Proof.
  intros s He. destruct (s3_milestones_run objs sched) as (_ & Hh & Hm).
  fold s in Hh, Hm. unfold exit_code in He.
  destruct Hh as [Hh|Hh]; rewrite Hh in He; [|discriminate].
  destruct (pc s); try discriminate. injection He as ->.
  destruct (Hm eq_refl) as ([H1 H2] & H3 & H4 & H5 & H6). done.
Qed.

(** X20: the revision that calls S3 directly never looks up a key: no run
    makes a lookup, and the first step writes the top-level key whether or
    not the bucket already holds a backup of that name. *)
Theorem s3_overwrites_without_looking (objs : gmap string Object) (sched : list Action) :
  let s := s3_run K W a backupExclusive sched (init objs) in
  (∀ e key, e ∈ history s → ev_op e ≠ GetStringOp key)
  ∧ (put_fault W [] (backupKey a) = false →
     let s1 := s3_step K W a backupExclusive Control (init objs) in
     pc s1 = AtStart ∧ objects s1 = <[backupKey a := Text ""]> objs).
Proof.
  intros s. split.
  - by destruct (s3_milestones_run objs sched) as (Hg & _).
  - intros Hp. unfold s3_step, DirectS3.control_step, PutString; cbn. by rewrite Hp.
Qed.

End S3Runs.

(* ===================================================================== *)
(** ** Failures and exit codes                                          *)
(* ===================================================================== *)

Section Failures.

Variable K : Constants.
Variable W : World.
Variable a : app.

(** X21: a failed upload ends the process.  When the backend refuses the
    write of a worker (the placeholder of a directory, a compressed file
    or a plain file), nothing is stored, the temporary compressed file is
    removed before anything else, [logger.Fatal] is called and the process
    is over with exit code 1: no goroutine takes another step. *)
Theorem failed_upload_ends_the_process (s : State) (i : nat) (pgFile : string)
    (st : FileInfo) :
  terminal s = false →
  workers s !! i = Some (Busy pgFile) →
  os_Stat W (filepath_Join (pgDataDirectory a) pgFile) = Some st →
  let pgFilePath := filepath_Join (pgDataDirectory a) pgFile in
  let key := filepath_Join (backupName a) pgFile in
  let s' := step K W a (Work i) s in
  let over (new : list Event) : Prop :=
    history s' = (new ++ history s)%list
    ∧ objects s' = objects s
    ∧ exit_code s' = Some 1%Z
    ∧ ∀ sched, run K W a sched s' = s' in
  (IsDir st = true →
   put_fault W (history s) (key +:+ DirectoryExtension K) = true →
   over [ event (Worker i) FatalOp true;
          event (Worker i) (PutStringOp (key +:+ DirectoryExtension K) "") false ])
  ∧ (IsDir st = false → (Size st > compressThreshold a)%Z →
     ∀ compressed,
       Compress W pgFilePath (tmpDirectory a) = Some compressed →
       put_fault W (event (Worker i) (CompressOp pgFilePath) true :: history s)
         (key +:+ lz4_Extension) = true →
       over [ event (Worker i) FatalOp true;
              event (Worker i) (RemoveOp compressed) true;
              event (Worker i) (PutOp (key +:+ lz4_Extension) compressed (ModTime st)) false;
              event (Worker i) (CompressOp pgFilePath) true ])
  ∧ (IsDir st = false → (Size st <= compressThreshold a)%Z →
     put_fault W (history s) key = true →
     over [ event (Worker i) FatalOp true;
            event (Worker i) (PutOp key pgFilePath (ModTime st)) false ]).
Proof.
  intros Ht Hw Hst pgFilePath key s' over. subst over s' pgFilePath key.
  rewrite (step_work_busy K W a s i pgFile Ht Hw). cbn zeta.
  unfold process. rewrite Hst.
  assert (Hover : ∀ s1, halted s1 = Some 1%Z → ∀ sched, run K W a sched s1 = s1).
  { intros s1 H1 sched. apply run_terminal. unfold terminal. by rewrite H1. }
  split; [|split].
  - intros -> Hput. unfold PutString, Fatal. rewrite Hput. cbn.
    split; [reflexivity|]. split; [reflexivity|]. split; [reflexivity|]. by apply Hover.
  - intros -> Hgt compressed Hc Hput.
    assert (Hne : compressed ≠ "").
    { unfold Compress in Hc. destruct (lz4_tmp W _); [|discriminate].
      injection Hc as <-. destruct (tmpDirectory a); discriminate. }
    apply Z.gtb_gt in Hgt. rewrite Hgt, Hc.
    rewrite (decide_False (P := compressed = "")) by exact Hne.
    unfold Put, MustRemoveFile, Fatal, event in *. cbn [history emit]. rewrite Hput. cbn.
    split; [reflexivity|]. split; [reflexivity|]. split; [reflexivity|]. by apply Hover.
  - intros -> Hle Hput.
    assert (Hgt : (Size st >? compressThreshold a)%Z = false).
    { rewrite Z.gtb_ltb. apply Z.ltb_ge. lia. }
    rewrite Hgt. rewrite (decide_True (P := "" = "")) by reflexivity.
    unfold Put, Fatal. rewrite Hput. cbn.
    split; [reflexivity|]. split; [reflexivity|]. split; [reflexivity|]. by apply Hover.
Qed.

(** X22: the exit code of the process is 0 or 1, and it is 0 only when
    [createBackup] returned 0: [logger.Fatal] and every error return give
    1. *)
Theorem exit_code_is_zero_or_one (objs : gmap string Object) (sched : list Action)
    (c : Z) :
  let s := run K W a sched (init objs) in
  exit_code s = Some c →
  (c = 0%Z ∧ halted s = None ∧ pc s = Returned 0) ∨ c = 1%Z.
Proof.
  intros s.
  assert (Hinv : (halted s = None ∨ halted s = Some 1%Z)
                 ∧ ∀ c, pc s = Returned c → c = 0%Z ∨ c = 1%Z).
  { apply (run_invariant K W a
             (λ s, (halted s = None ∨ halted s = Some 1%Z)
                   ∧ ∀ c, pc s = Returned c → c = 0%Z ∨ c = 1%Z)).
    { split; [by left | discriminate]. }
    intros s0 act [_ Hpc] Ht. pose proof (terminal_false_halted s0 Ht) as Hh.
    unfold step. rewrite Ht. destruct act as [|j|j].
    - unfold control_step, GetString, PutString, putSuccessfulMarker, updateLatest,
        PutString.
      destruct (pc s0) eqn:Epc.
      all: repeat (match goal with
            | |- context [get_fault W ?h ?k] => destruct (get_fault W h k) eqn:?
            | |- context [put_fault W ?h ?k] => destruct (put_fault W h k) eqn:?
            | |- context [objects ?s0 !! ?k] => destruct (objects s0 !! k) eqn:?
            | |- context [db_start_ok W] => destruct (db_start_ok W) eqn:?
            | |- context [db_stop W] => destruct (db_stop W) as [[[? ?] ?]|] eqn:?
            | |- context [decide (?x = ?y)] => destruct (decide (x = y))
            | |- context [forallb ?f ?l] => destruct (forallb f l) eqn:?
            | |- context [match ?r with [] => _ | _ :: _ => _ end] => destruct r eqn:?
            | |- context [walkFn a ?v] => destruct (walkFn a v) eqn:?
            end; cbn).
      all: cbn; rewrite ?Epc, ?Hh.
      all: split; [by left|].
      all: try discriminate.
      all: try (intros ? [= <-]; by auto).
      all: exact Hpc.
    - destruct (pc s0) eqn:Epc; try (split; [by left | by rewrite Epc]).
      destruct (workers s0 !! j) as [[| |]|]; try (split; [by left | by rewrite Epc]).
      split; [by left | discriminate].
    - destruct (workers s0 !! j) as [[|pgFile|]|]; try (split; [by left | exact Hpc]).
      + destruct (closed s0); (split; [by left | exact Hpc]).
      + destruct (process_frame K W a j pgFile s0) as (Epc & _).
        destruct (process_halted K W a j pgFile s0) as [E|E];
          destruct (halted (process K W a j pgFile s0)) eqn:Hp; cbn;
          rewrite ?Epc; (split; [|exact Hpc]); rewrite ?Hp; try (by left);
          right; congruence. }
  destruct Hinv as [Hh Hpc]. unfold exit_code.
  destruct Hh as [Hh|Hh]; rewrite Hh.
  - destruct (pc s) eqn:Epc; try discriminate. intros [= ->].
    destruct (Hpc _ eq_refl) as [-> | ->]; [by left | by right].
  - intros [= <-]. by right.
Qed.

End Failures.

(* ===================================================================== *)
(** ** Concrete runs                                                     *)
(* ===================================================================== *)

Example Clean_double_slash : filepath_Clean "/data//pg_xlog" = "/data/pg_xlog".
Proof. reflexivity. Qed.
Example Clean_dotdot : filepath_Clean "a/b/../c/./d//" = "a/c/d".
Proof. reflexivity. Qed.
Example Clean_above_root : filepath_Clean "/.." = "/".
Proof. reflexivity. Qed.
Example Clean_leading_dotdot : filepath_Clean "../../a/.." = "../..".
Proof. reflexivity. Qed.
Example Join_key : filepath_Join "b1" "base/1/16384" = "b1/base/1/16384".
Proof. reflexivity. Qed.
Example Join_root : filepath_Join "/data/" "" = "/data".
Proof. reflexivity. Qed.
Example TrimPrefix_relative : TrimPrefix "/data/pg_xlog/0001" "/data/" = "pg_xlog/0001".
Proof. reflexivity. Qed.
Example ignoreFile_relative : ignoreFile "pg_xlog/0001" = true.
Proof. reflexivity. Qed.
Example ignoreFile_base : ignoreFile "base/1/16384" = false.
Proof. reflexivity. Qed.
Example ignoreFile_pg_wal : ignoreFile "pg_wal/000000010000000000000001" = false.
Proof. reflexivity. Qed.
Example ignoreFile_log_prefix : ignoreFile "logical_replication.conf" = true.
Proof. reflexivity. Qed.

(** The relative path is what is left of the path after the data directory
    as it is configured: with no slash at the end of the data directory the
    relative path starts with one, which is the form the ignore list of the
    revision that calls S3 directly expects, and not the form of this one. *)
Example relative_path_without_trailing_slash :
  TrimPrefix "/data/pg_xlog" "/data" = "/pg_xlog"
  ∧ ignoreFile "/pg_xlog" = false
  ∧ DirectS3.ignoreFile "/pg_xlog" = true
  ∧ DirectS3.ignoreFile "pg_xlog" = false.
Proof. repeat split; reflexivity. Qed.

(** The run of the calm world: every entry is stored under its key, the
    ignored and the vanished ones are not, and the backup is marked. *)
Example calm_run :
  rev (history (run K0 calm a1 (sequential calm a1) (init ∅)))
  = [ event Main (GetStringOp "b1/") false;
      event Main (PutStringOp "b1/" "") true;
      event Main StartBackupOp true;
      event Main (SendOp "") true;
      event (Worker 0) (PutStringOp "b1.dir" "") true;
      event Main (SendOp "PG_VERSION") true;
      event (Worker 0) (PutOp "b1/PG_VERSION" "/data/PG_VERSION" 1700000001) true;
      event Main (SendOp "base") true;
      event (Worker 0) (PutStringOp "b1/base.dir" "") true;
      event Main (SendOp "base/1/16384") true;
      event (Worker 0) (CompressOp "/data/base/1/16384") true;
      event (Worker 0) (PutOp "b1/base/1/16384.lz4" "/tmp/16384.lz4tmp" 1700000002) true;
      event (Worker 0) (RemoveOp "/tmp/16384.lz4tmp") true;
      event Main (SendOp "postgresql.conf") true;
      event Main StopBackupOp true;
      event Main (PutStringOp "b1/backup_label" "START WAL LOCATION") true;
      event Main (PutStringOp "successful/b1" "") true;
      event Main (PutStringOp "LATEST" "b1") true ]
  ∧ exit_code (run K0 calm a1 (sequential calm a1) (init ∅)) = Some 0%Z.
Proof. split; vm_compute; reflexivity. Qed.

(** C1: a run in which the upload of a worker fails and the success marker
    and the latest pointer are written all the same.  The walk fails on an
    unreadable directory, so [uploadFiles] returns without closing the
    channel and without waiting for the pool; [createBackup] goes on to
    write the marker and the pointer while worker 0 still holds PG_VERSION;
    then the upload of worker 0 fails and [logger.Fatal] ends the process. *)
Theorem upload_failure_after_markers :
  rev (history (run K0 unreadable_base_and_upload_fault a1 late_failure (init ∅)))
  = [ event Main (GetStringOp "b1/") false;
      event Main (PutStringOp "b1/" "") true;
      event Main StartBackupOp true;
      event Main (SendOp "PG_VERSION") true;
      event Main StopBackupOp true;
      event Main (PutStringOp "b1/backup_label" "START WAL LOCATION") true;
      event Main (PutStringOp "successful/b1" "") true;
      event Main (PutStringOp "LATEST" "b1") true;
      event (Worker 0) (PutOp "b1/PG_VERSION" "/data/PG_VERSION" 1700000001) false;
      event (Worker 0) FatalOp true ]
  ∧ exit_code (run K0 unreadable_base_and_upload_fault a1 late_failure (init ∅))
    = Some 1%Z
  ∧ objects (run K0 unreadable_base_and_upload_fault a1 late_failure (init ∅))
      !! "successful/b1" = Some (Text "")
  ∧ objects (run K0 unreadable_base_and_upload_fault a1 late_failure (init ∅))
      !! "LATEST" = Some (Text "b1")
  ∧ marker_write K0 a1 = PutStringOp "successful/b1" ""
  ∧ latest_write K0 a1 = PutStringOp "LATEST" "b1"
  ∧ fatal_upload (run K0 unreadable_base_and_upload_fault a1 late_failure (init ∅)).
Proof.
  repeat split; try (vm_compute; reflexivity).
  exists 0, "b1/PG_VERSION", "/data/PG_VERSION", 1700000001%Z.
  split; apply (bool_decide_unpack _); vm_compute; exact I.
Qed.

(** C2: a run in which the write of the success marker fails: the run goes
    on, the latest pointer is set to the backup, whose marker does not
    exist, and the exit code is 0. *)
Theorem marker_failure_still_updates_latest :
  exit_code (run K0 marker_fault a1 (sequential marker_fault a1) (init ∅)) = Some 0%Z
  ∧ objects (run K0 marker_fault a1 (sequential marker_fault a1) (init ∅))
      !! "LATEST" = Some (Text "b1")
  ∧ objects (run K0 marker_fault a1 (sequential marker_fault a1) (init ∅))
      !! "successful/b1" = None
  ∧ firstn 2 (history (run K0 marker_fault a1 (sequential marker_fault a1) (init ∅)))
    = [ event Main (PutStringOp "LATEST" "b1") true;
        event Main (PutStringOp "successful/b1" "") false ].
Proof. repeat split; vm_compute; reflexivity. Qed.

(** C3: a run whose walk fails on a directory it cannot read: [uploadFiles]
    returns 1, which [createBackup] takes for the number of files; the
    session is closed, the success marker and the latest pointer are
    written and the exit code is 0, though nothing under base was stored. *)
Theorem walk_error_is_not_reported :
  rev (history (run K0 unreadable_base a1 (sequential unreadable_base a1) (init ∅)))
  = [ event Main (GetStringOp "b1/") false;
      event Main (PutStringOp "b1/" "") true;
      event Main StartBackupOp true;
      event Main (SendOp "") true;
      event (Worker 0) (PutStringOp "b1.dir" "") true;
      event Main (SendOp "PG_VERSION") true;
      event (Worker 0) (PutOp "b1/PG_VERSION" "/data/PG_VERSION" 1700000001) true;
      event Main StopBackupOp true;
      event Main (PutStringOp "b1/backup_label" "START WAL LOCATION") true;
      event Main (PutStringOp "successful/b1" "") true;
      event Main (PutStringOp "LATEST" "b1") true ]
  ∧ exit_code (run K0 unreadable_base a1 (sequential unreadable_base a1) (init ∅))
    = Some 0%Z
  ∧ items (run K0 unreadable_base a1 (sequential unreadable_base a1) (init ∅)) = 1
  ∧ objects (run K0 unreadable_base a1 (sequential unreadable_base a1) (init ∅))
      !! "successful/b1" = Some (Text "")
  ∧ objects (run K0 unreadable_base a1 (sequential unreadable_base a1) (init ∅))
      !! "LATEST" = Some (Text "b1")
  ∧ objects (run K0 unreadable_base a1 (sequential unreadable_base a1) (init ∅))
      !! "b1/base.dir" = None.
Proof. repeat split; vm_compute; reflexivity. Qed.

(** C4: a run over a bucket that already holds a backup named b1, in which
    the lookup of the existence check fails for another reason than
    not-found: [createBackup] does not return at the check but goes on to
    the reservation, overwrites the objects of the existing backup and
    ends with exit code 0, against its comment "don't allow existing
    backups to be overwritten". *)
Theorem existing_backup_overwritten_after_lookup_error :
  taken !! backupKey a1 = Some (Text "")
  ∧ pc (step K0 lookup_error a1 Control (init taken)) = AtReserve
  ∧ exit_code (run K0 lookup_error a1 (sequential lookup_error a1) (init taken))
    = Some 0%Z
  ∧ taken !! "b1/PG_VERSION" = Some (File "/data/PG_VERSION" 1600000000)
  ∧ objects (run K0 lookup_error a1 (sequential lookup_error a1) (init taken))
      !! "b1/PG_VERSION" = Some (File "/data/PG_VERSION" 1700000001).
Proof. repeat split; vm_compute; reflexivity. Qed.

(* ===================================================================== *)
(** ** The theorems at work on the concrete runs                         *)
(* ===================================================================== *)

Lemma calm_only_vanishing : only_vanishing calm a1.
Proof.
  constructor; [reflexivity | reflexivity | discriminate |].
  intros v e Hv H. cbn [walk calm] in Hv. unfold visits in Hv.
  repeat (apply elem_of_cons in Hv as [->|Hv]);
    try (vm_compute in H; discriminate).
  by apply elem_of_nil in Hv.
Defined.

Lemma lookup_error_only_vanishing : only_vanishing lookup_error a1.
Proof.
  constructor; [reflexivity | reflexivity | discriminate |].
  intros v e Hv H. cbn [walk lookup_error] in Hv. unfold visits in Hv.
  repeat (apply elem_of_cons in Hv as [->|Hv]);
    try (vm_compute in H; discriminate).
  by apply elem_of_nil in Hv.
Defined.

(** Worker 0 holds the directory base. *)
Lemma directory_placeholder_witness :
  terminal (holding calm 2) = false
  ∧ workers (holding calm 2) !! 0 = Some (Busy "base")
  ∧ os_Stat calm (filepath_Join (pgDataDirectory a1) "base") = Some dir_info
  ∧ IsDir dir_info = true
  ∧ history (step K0 calm a1 (Work 0) (holding calm 2))
    = event (Worker 0) (PutStringOp "b1/base.dir" "") true :: history (holding calm 2)
  ∧ objects (step K0 calm a1 (Work 0) (holding calm 2))
    = <["b1/base.dir" := Text ""]> (objects (holding calm 2)).
Proof.
  assert (Ht : terminal (holding calm 2) = false) by (vm_compute; reflexivity).
  assert (Hw : workers (holding calm 2) !! 0 = Some (Busy "base"))
    by (vm_compute; reflexivity).
  assert (Hs : os_Stat calm (filepath_Join (pgDataDirectory a1) "base") = Some dir_info)
    by reflexivity.
  split; [exact Ht|]. split; [exact Hw|]. split; [exact Hs|]. split; [reflexivity|].
  split.
  - exact (proj1 (directory_placeholder K0 calm a1 _ 0 "base" dir_info Ht Hw Hs eq_refl)).
  - exact (proj1 (proj2 (directory_placeholder K0 calm a1 _ 0 "base" dir_info Ht Hw Hs eq_refl))).
Defined.

(** Worker 0 holds base/1/16384 (2 MiB, above the threshold of 512 KiB),
    and then PG_VERSION (3 bytes). *)
Lemma regular_file_upload_witness :
  (terminal (holding calm 3) = false
   ∧ workers (holding calm 3) !! 0 = Some (Busy "base/1/16384")
   ∧ (Size big_info > compressThreshold a1)%Z
   ∧ history (step K0 calm a1 (Work 0) (holding calm 3))
     = event (Worker 0) (RemoveOp "/tmp/16384.lz4tmp") true
         :: event (Worker 0)
              (PutOp "b1/base/1/16384.lz4" "/tmp/16384.lz4tmp" 1700000002) true
         :: event (Worker 0) (CompressOp "/data/base/1/16384") true
         :: history (holding calm 3))
  ∧ (terminal (holding calm 1) = false
     ∧ workers (holding calm 1) !! 0 = Some (Busy "PG_VERSION")
     ∧ (Size small_info <= compressThreshold a1)%Z
     ∧ history (step K0 calm a1 (Work 0) (holding calm 1))
       = event (Worker 0) (PutOp "b1/PG_VERSION" "/data/PG_VERSION" 1700000001) true
           :: history (holding calm 1)).
Proof.
  assert (Ht3 : terminal (holding calm 3) = false) by (vm_compute; reflexivity).
  assert (Hw3 : workers (holding calm 3) !! 0 = Some (Busy "base/1/16384"))
    by (vm_compute; reflexivity).
  assert (Hgt : (Size big_info > compressThreshold a1)%Z) by reflexivity.
  assert (Ht1 : terminal (holding calm 1) = false) by (vm_compute; reflexivity).
  assert (Hw1 : workers (holding calm 1) !! 0 = Some (Busy "PG_VERSION"))
    by (vm_compute; reflexivity).
  assert (Hle : (Size small_info <= compressThreshold a1)%Z) by (cbn; lia).
  split; [split; [exact Ht3|]; split; [exact Hw3|]; split; [exact Hgt|]
        | split; [exact Ht1|]; split; [exact Hw1|]; split; [exact Hle|]].
  - exact (proj1 (proj1 (regular_file_upload K0 calm a1 _ 0 "base/1/16384" big_info
                           Ht3 Hw3 eq_refl eq_refl)
                    Hgt "/tmp/16384.lz4tmp" eq_refl eq_refl)).
  - exact (proj1 (proj2 (regular_file_upload K0 calm a1 _ 0 "PG_VERSION" small_info
                           Ht1 Hw1 eq_refl eq_refl)
                    Hle eq_refl)).
Defined.

(** Worker 0 holds base/1/16384 and the compressor fails. *)
Lemma compression_failure_skips_file_witness :
  terminal (holding broken_compressor 3) = false
  ∧ workers (holding broken_compressor 3) !! 0 = Some (Busy "base/1/16384")
  ∧ (Size big_info > compressThreshold a1)%Z
  ∧ Compress broken_compressor "/data/base/1/16384" (tmpDirectory a1) = None
  ∧ objects (step K0 broken_compressor a1 (Work 0) (holding broken_compressor 3))
    = objects (holding broken_compressor 3)
  ∧ terminal (step K0 broken_compressor a1 (Work 0) (holding broken_compressor 3))
    = false.
Proof.
  assert (Ht : terminal (holding broken_compressor 3) = false)
    by (vm_compute; reflexivity).
  assert (Hw : workers (holding broken_compressor 3) !! 0 = Some (Busy "base/1/16384"))
    by (vm_compute; reflexivity).
  assert (Hgt : (Size big_info > compressThreshold a1)%Z) by reflexivity.
  pose proof (compression_failure_skips_file K0 broken_compressor a1 _ 0
                "base/1/16384" big_info Ht Hw eq_refl eq_refl Hgt eq_refl)
    as (_ & Ho & _ & _ & Ht').
  split; [exact Ht|]. split; [exact Hw|]. split; [exact Hgt|]. split; [reflexivity|].
  split; [exact Ho | exact Ht'].
Defined.


(** pg_stat_tmp/global.tmp vanishes before the walk reaches it,
    postgresql.conf before worker 0 stats it; the run succeeds. *)
Lemma vanished_entries_are_skipped_witness :
  (pc (holding calm 4)
   = Walking [ {| v_path := "/data/pg_stat_tmp/global.tmp"; v_res := inr ErrNotExist |};
               {| v_path := "/data/postgresql.conf"; v_res := inl small_info |} ]
   ∧ step K0 calm a1 Control (holding calm 4)
     = set_pc (Walking [ {| v_path := "/data/postgresql.conf";
                            v_res := inl small_info |} ])
         (holding calm 4))
  ∧ (workers (holding calm 6) !! 0 = Some (Busy "postgresql.conf")
     ∧ os_Stat calm (filepath_Join (pgDataDirectory a1) "postgresql.conf") = None
     ∧ step K0 calm a1 (Work 0) (holding calm 6)
       = set_workers (<[0 := Idle]> (workers (holding calm 6))) (holding calm 6))
  ∧ (only_vanishing calm a1
     ∧ (∅ : gmap string Object) !! backupKey a1 = None
     ∧ (0 < nWorkers a1)%nat
     ∧ exit_code (run K0 calm a1 (sequential calm a1) (init ∅)) = Some 0%Z).
Proof.
  destruct (vanished_entries_are_skipped K0 calm a1) as (H1 & H2 & H3).
  assert (Hpc : pc (holding calm 4)
                = Walking [ {| v_path := "/data/pg_stat_tmp/global.tmp";
                               v_res := inr ErrNotExist |};
                            {| v_path := "/data/postgresql.conf";
                               v_res := inl small_info |} ])
    by (vm_compute; reflexivity).
  assert (Ht4 : terminal (holding calm 4) = false) by (vm_compute; reflexivity).
  assert (Ht6 : terminal (holding calm 6) = false) by (vm_compute; reflexivity).
  assert (Hw6 : workers (holding calm 6) !! 0 = Some (Busy "postgresql.conf"))
    by (vm_compute; reflexivity).
  assert (Hn : (0 < nWorkers a1)%nat) by (cbn; lia).
  split; [|split].
  - split; [exact Hpc|].
    exact (H1 _ _ _ ErrNotExist Ht4 Hpc eq_refl eq_refl).
  - split; [exact Hw6|]. split; [reflexivity|].
    exact (H2 _ 0 "postgresql.conf" Ht6 Hw6 eq_refl).
  - split; [exact calm_only_vanishing|]. split; [reflexivity|]. split; [exact Hn|].
    exact (proj1 (proj2 (proj2 (proj2 (proj2 (H3 ∅ calm_only_vanishing eq_refl Hn)))))).
Defined.

(** The lookup of the existing b1 fails; the backup is taken over it. *)
Lemma lookup_error_is_taken_for_absence_witness :
  get_fault lookup_error [] (backupKey a1) = true
  ∧ is_Some (taken !! backupKey a1)
  ∧ only_vanishing lookup_error a1
  ∧ (0 < nWorkers a1)%nat
  ∧ pc (step K0 lookup_error a1 Control (init taken)) = AtReserve
  ∧ exit_code (run K0 lookup_error a1 (sequential lookup_error a1) (init taken))
    = Some 0%Z.
Proof.
  assert (Hn : (0 < nWorkers a1)%nat) by (cbn; lia).
  assert (Hs : is_Some (taken !! backupKey a1)) by (by exists (Text "")).
  destruct (lookup_error_is_taken_for_absence K0 lookup_error a1 taken)
    as (H1 & _ & H3).
  split; [reflexivity|]. split; [exact Hs|].
  split; [exact lookup_error_only_vanishing|]. split; [exact Hn|]. split.
  - exact (H1 Unavailable eq_refl).
  - exact (proj1 (H3 eq_refl Hs lookup_error_only_vanishing Hn)).
Defined.

(** The lookup of the existing b1 succeeds: the run returns 1 at once. *)
Lemma existing_backup_is_rejected_witness :
  is_Some (taken !! backupKey a1)
  ∧ get_fault calm [] (backupKey a1) = false
  ∧ exit_code (step K0 calm a1 Control (init taken)) = Some 1%Z
  ∧ objects (run K0 calm a1 (sequential calm a1) (init taken)) = taken.
Proof.
  assert (Hs : is_Some (taken !! backupKey a1)) by (by exists (Text "")).
  destruct (existing_backup_is_rejected K0 calm a1 taken Hs eq_refl)
    as (H1 & H2 & H3 & _).
  split; [exact Hs|]. split; [reflexivity|]. split.
  - rewrite H1. exact H3.
  - by destruct (H2 (sequential calm a1)) as [-> | ->].
Defined.

(* ===================================================================== *)
(** ** The further properties on concrete runs                          *)
(* ===================================================================== *)

(** The walk is blocked in the send of the data directory; worker 0 can
    receive it. *)
Lemma some_goroutine_can_step_witness :
  (0 < nWorkers a1)%nat
  ∧ exit_code (holding_send) = None
  ∧ step K0 calm a1 Control holding_send = holding_send
  ∧ ∃ act, step K0 calm a1 act holding_send ≠ holding_send.
Proof.
  assert (Hn : (0 < nWorkers a1)%nat) by (cbn; lia).
  assert (He : exit_code holding_send = None) by (vm_compute; reflexivity).
  split; [exact Hn|]. split; [exact He|]. split; [vm_compute; reflexivity|].
  exact (some_goroutine_can_step K0 calm a1 ∅
           [Control; Control; Control; Control; Control] Hn He).
Defined.

(** With no worker the walk blocks in the send of the data directory. *)
Lemma no_workers_no_backup_witness :
  nWorkers a0 = 0
  ∧ hands a0 (walk calm) ≠ []
  ∧ pc (run K0 calm a0 [Control; Control; Control; Control; Control] (init ∅))
    = Sending "" (tail visits)
  ∧ stuck K0 calm a0 (run K0 calm a0 [Control; Control; Control; Control; Control] (init ∅))
  ∧ exit_code (run K0 calm a0 [Control; Control; Control; Control; Control] (init ∅)) = None.
Proof.
  assert (Hh : hands a0 (walk calm) ≠ []) by (vm_compute; discriminate).
  assert (Hpc : pc (run K0 calm a0 [Control; Control; Control; Control; Control] (init ∅))
                = Sending "" (tail visits)) by (vm_compute; reflexivity).
  split; [reflexivity|]. split; [exact Hh|]. split; [exact Hpc|].
  exact (proj2 (no_workers_no_backup K0 calm a0 ∅
                  [Control; Control; Control; Control; Control] eq_refl Hh) _ _ Hpc).
Defined.

(** In the calm world the five entries that are not ignored and have not
    vanished are received in the order of the walk. *)
Lemma entries_are_handed_in_walk_order_witness :
  exit_code (run K0 calm a1 (sequential calm a1) (init ∅)) = Some 0%Z
  ∧ sends_of (history (run K0 calm a1 (sequential calm a1) (init ∅)))
    = hands a1 (walk calm)
  ∧ hands a1 (walk calm) = [""; "PG_VERSION"; "base"; "base/1/16384"; "postgresql.conf"].
Proof.
  assert (He : exit_code (run K0 calm a1 (sequential calm a1) (init ∅)) = Some 0%Z)
    by (vm_compute; reflexivity).
  split; [exact He|]. split; [|vm_compute; reflexivity].
  exact (proj2 (entries_are_handed_in_walk_order K0 calm a1 ∅ (sequential calm a1)) He).
Defined.

(** Five entries in the calm world; 1 when the walk cannot read base. *)
Lemma reported_file_count_witness :
  (exit_code (run K0 calm a1 (sequential calm a1) (init ∅)) = Some 0%Z
   ∧ items (run K0 calm a1 (sequential calm a1) (init ∅)) = 5)
  ∧ (exit_code (run K0 unreadable_base a1 (sequential unreadable_base a1) (init ∅))
     = Some 0%Z
     ∧ items (run K0 unreadable_base a1 (sequential unreadable_base a1) (init ∅)) = 1).
Proof.
  assert (He : exit_code (run K0 calm a1 (sequential calm a1) (init ∅)) = Some 0%Z)
    by (vm_compute; reflexivity).
  assert (He' : exit_code (run K0 unreadable_base a1 (sequential unreadable_base a1)
                             (init ∅)) = Some 0%Z)
    by (vm_compute; reflexivity).
  split; (split; [assumption|]).
  - exact (reported_file_count K0 calm a1 ∅ (sequential calm a1) He).
  - exact (reported_file_count K0 unreadable_base a1 ∅ (sequential unreadable_base a1) He').
Defined.

(** PG_VERSION is in the bucket after the calm run. *)
Lemma successful_backup_is_complete_witness :
  walk_completes calm a1
  ∧ exit_code (run K0 calm a1 busy (init ∅)) = Some 0%Z
  ∧ stored_key K0 calm a1 "PG_VERSION" = Some "b1/PG_VERSION"
  ∧ is_Some (objects (run K0 calm a1 busy (init ∅)) !! "b1/PG_VERSION").
Proof.
  pose proof (ov_walk _ _ calm_only_vanishing) as Hwalk.
  assert (He : exit_code (run K0 calm a1 busy (init ∅)) = Some 0%Z)
    by (vm_compute; reflexivity).
  assert (Hv : {| v_path := "/data/PG_VERSION"; v_res := inl small_info |} ∈ walk calm).
  { right. by left. }
  split; [exact Hwalk|]. split; [exact He|]. split; [reflexivity|].
  exact (successful_backup_is_complete K0 calm a1 ∅ busy _ small_info "b1/PG_VERSION"
           Hwalk He Hv eq_refl eq_refl eq_refl).
Defined.

(** The placeholder of the data directory is written after the name was
    reserved and the session opened. *)
Lemma no_upload_before_start_witness :
  history stored_root
  = [ event (Worker 0) (PutStringOp "b1.dir" "") true;
      event Main (SendOp "") true;
      event Main StartBackupOp true;
      event Main (PutStringOp "b1/" "") true;
      event Main (GetStringOp "b1/") false ]
  ∧ event Main (PutStringOp (backupKey a1) "") true
    ∈ [ event Main (SendOp "") true;
        event Main StartBackupOp true;
        event Main (PutStringOp "b1/" "") true;
        event Main (GetStringOp "b1/") false ]
  ∧ event Main StartBackupOp true
    ∈ [ event Main (SendOp "") true;
        event Main StartBackupOp true;
        event Main (PutStringOp "b1/" "") true;
        event Main (GetStringOp "b1/") false ].
Proof.
  assert (Hh : history stored_root
               = ([] ++ event (Worker 0) (PutStringOp "b1.dir" "") true
                    :: [ event Main (SendOp "") true;
                         event Main StartBackupOp true;
                         event Main (PutStringOp "b1/" "") true;
                         event Main (GetStringOp "b1/") false ])%list)
    by (vm_compute; reflexivity).
  split; [exact Hh|].
  exact (no_upload_before_start K0 calm a1 ∅ _ [] _ _ Hh (or_introl (ex_intro _ 0 eq_refl))).
Defined.

(** When worker 0 stores the placeholder of the data directory,
    pg_stop_backup has not been called. *)
Lemma no_upload_after_stop_witness :
  walk_completes calm a1
  ∧ history stored_root
    = [ event (Worker 0) (PutStringOp "b1.dir" "") true;
        event Main (SendOp "") true;
        event Main StartBackupOp true;
        event Main (PutStringOp "b1/" "") true;
        event Main (GetStringOp "b1/") false ]
  ∧ ∀ ok, event Main StopBackupOp ok
          ∉ [ event Main (SendOp "") true;
              event Main StartBackupOp true;
              event Main (PutStringOp "b1/" "") true;
              event Main (GetStringOp "b1/") false ].
Proof.
  pose proof (ov_walk _ _ calm_only_vanishing) as Hwalk.
  assert (Hh : history stored_root
               = ([] ++ event (Worker 0) (PutStringOp "b1.dir" "") true
                    :: [ event Main (SendOp "") true;
                         event Main StartBackupOp true;
                         event Main (PutStringOp "b1/" "") true;
                         event Main (GetStringOp "b1/") false ])%list)
    by (vm_compute; reflexivity).
  split; [exact Hwalk|]. split; [exact Hh|].
  exact (no_upload_after_stop K0 calm a1 ∅ _ [] _ _ 0 Hwalk Hh eq_refl).
Defined.

(** The calm run changes b1/PG_VERSION, a key of the entry PG_VERSION, and
    keeps the object that was in the bucket. *)
Lemma only_the_keys_of_the_backup_change_witness :
  (objects (run K0 calm a1 busy (init marked)) !! "b1/PG_VERSION"
   ≠ marked !! "b1/PG_VERSION"
   ∧ ("b1/PG_VERSION" ∈ main_keys K0 a1
      ∨ ∃ file, sent file (run K0 calm a1 busy (init marked))
                ∧ ignoreFile file = false ∧ "b1/PG_VERSION" ∈ keys_of K0 a1 file))
  ∧ (is_Some (marked !! "successful/b1")
     ∧ is_Some (objects (run K0 calm a1 busy (init marked)) !! "successful/b1")).
Proof.
  assert (H1 : objects (run K0 calm a1 busy (init marked)) !! "b1/PG_VERSION"
               ≠ marked !! "b1/PG_VERSION") by (vm_compute; discriminate).
  assert (H2 : is_Some (marked !! "successful/b1")) by (vm_compute; by eexists).
  split; (split; [assumption|]).
  - exact (proj1 (only_the_keys_of_the_backup_change K0 calm a1 marked busy
                    "b1/PG_VERSION") H1).
  - exact (proj2 (only_the_keys_of_the_backup_change K0 calm a1 marked busy
                    "successful/b1") H2).
Defined.

(** pg_start_backup fails after b1 was reserved; the next attempt to create
    b1 is rejected, in a world where nothing fails. *)
Lemma reserved_name_is_never_reused_witness :
  exit_code (run K0 start_refused a1 [Control; Control; Control] (init ∅)) = Some 1%Z
  ∧ event Main (PutStringOp (backupKey a1) "") true
    ∈ history (run K0 start_refused a1 [Control; Control; Control] (init ∅))
  ∧ get_fault calm [] (backupKey a1) = false
  ∧ exit_code (run K0 calm a1 (Control :: busy)
                 (init (objects (run K0 start_refused a1 [Control; Control; Control]
                                   (init ∅)))))
    = Some 1%Z.
Proof.
  assert (Hr : event Main (PutStringOp (backupKey a1) "") true
               ∈ history (run K0 start_refused a1 [Control; Control; Control] (init ∅))).
  { apply (bool_decide_unpack _). vm_compute. exact I. }
  split; [vm_compute; reflexivity|]. split; [exact Hr|]. split; [reflexivity|].
  exact (proj1 (reserved_name_is_never_reused K0 start_refused a1 ∅
                  [Control; Control; Control] calm busy Hr eq_refl)).
Defined.

(** The calm run. *)
Lemma exit_code_zero_guarantees_witness :
  exit_code (run K0 calm a1 busy (init ∅)) = Some 0%Z
  ∧ event Main StopBackupOp true ∈ history (run K0 calm a1 busy (init ∅))
  ∧ event Main (latest_write K0 a1) true ∈ history (run K0 calm a1 busy (init ∅))
  ∧ is_Some (objects (run K0 calm a1 busy (init ∅)) !! latestKey K0).
Proof.
  assert (He : exit_code (run K0 calm a1 busy (init ∅)) = Some 0%Z)
    by (vm_compute; reflexivity).
  destruct (exit_code_zero_guarantees K0 calm a1 ∅ busy He)
    as (_ & _ & H3 & _ & _ & H6 & _ & _ & H9).
  split; [exact He|]. split; [exact H3|]. split; [exact H6 | exact H9].
Defined.

(** pg_stop_backup fails: [createBackup] returns 1 and LATEST is not
    written. *)
Lemma failure_leaves_latest_witness :
  pc (run K0 stop_refused a1 busy (init ∅)) = Returned 1
  ∧ (latestKey K0 ∉ early_keys K0 a1)
  ∧ (event Main (PutStringOp (latestKey K0) "b1") true
     ∉ history (run K0 stop_refused a1 busy (init ∅))).
Proof.
  assert (Hpc : pc (run K0 stop_refused a1 busy (init ∅)) = Returned 1)
    by (vm_compute; reflexivity).
  assert (Hk : latestKey K0 ∉ early_keys K0 a1).
  { apply (bool_decide_unpack _). vm_compute. exact I. }
  split; [exact Hpc|]. split; [exact Hk|].
  exact (failure_leaves_latest K0 stop_refused a1 ∅ busy "b1" Hpc Hk).
Defined.

(** A segment below pg_xlog. *)
Lemma entries_below_an_ignored_prefix_are_skipped_witness :
  ignoreFile "pg_xlog" = true
  ∧ ignoreFile ("pg_xlog" +:+ "/000000010000000000000001") = true
  ∧ walkFn a1 {| v_path := pgDataDirectory a1 +:+ ("pg_xlog"
                                                    +:+ "/000000010000000000000001");
                 v_res := inl small_info |} = Skip.
Proof.
  split; [reflexivity|].
  exact (entries_below_an_ignored_prefix_are_skipped a1 "pg_xlog"
           "/000000010000000000000001" small_info eq_refl).
Defined.

(** pg_xlog below a data directory that is written without and with the
    slash at its end. *)
Lemma ignore_lists_need_opposite_conventions_witness :
  walkFn a1 {| v_path := pgDataDirectory a1 +:+ "/" +:+ "pg_xlog"; v_res := inl dir_info |}
  = Hand ("/" +:+ "pg_xlog")
  ∧ ("p"%char ≠ "/"%char
     ∧ DirectS3.walkFn a1 {| v_path := pgDataDirectory a1 +:+ "pg_xlog";
                             v_res := inl dir_info |}
       = Hand "pg_xlog")
  ∧ (ignoreFile "pg_xlog" = true ∧ DirectS3.ignoreFile "pg_xlog" = false).
Proof.
  destruct (ignore_lists_need_opposite_conventions a1 "pg_xlog" "p" dir_info)
    as (H1 & _ & H3).
  assert (Hc : "p"%char ≠ "/"%char) by discriminate.
  split; [exact H1|]. split; [split; [exact Hc|] | split; [reflexivity|]].
  - exact (proj1 (proj2 (ignore_lists_need_opposite_conventions a1 "g_xlog" "p" dir_info))
             Hc).
  - exact (H3 "pg_xlog" eq_refl).
Defined.

(** The placeholder of /data/ goes to b1.dir. *)
Lemma data_directory_root_placeholder_witness :
  walkFn a1 {| v_path := pgDataDirectory a1; v_res := inl dir_info |} = Hand ""
  ∧ backupName a1 ≠ ""
  ∧ terminal holding_root = false
  ∧ workers holding_root !! 0 = Some (Busy "")
  ∧ os_Stat calm (filepath_Join (pgDataDirectory a1) "") = Some dir_info
  ∧ objects (step K0 calm a1 (Work 0) holding_root)
    = <[ "b1.dir" := Text "" ]> (objects holding_root).
Proof.
  destruct (data_directory_root_placeholder K0 calm a1 holding_root 0 dir_info dir_info)
    as [H1 H2].
  assert (Hb : backupName a1 ≠ "") by discriminate.
  assert (Ht : terminal holding_root = false) by (vm_compute; reflexivity).
  assert (Hw : workers holding_root !! 0 = Some (Busy "")) by (vm_compute; reflexivity).
  split; [exact H1|]. split; [exact Hb|]. split; [exact Ht|]. split; [exact Hw|].
  split; [reflexivity|].
  exact (H2 Hb Ht Hw eq_refl eq_refl eq_refl).
Defined.

(** b1 and b1/. *)
Lemma names_that_differ_by_a_trailing_slash_witness :
  backupName a1 ≠ ""
  ∧ successfullyCompletedFolder K0 ≠ ""
  ∧ backupName a1_slash = backupName a1 +:+ "/"
  ∧ backupKey a1_slash ≠ backupKey a1
  ∧ getSuccessfulMarker K0 (backupName a1_slash) = getSuccessfulMarker K0 (backupName a1)
  ∧ keys_of K0 a1_slash "PG_VERSION" = keys_of K0 a1 "PG_VERSION".
Proof.
  assert (Hb : backupName a1 ≠ "") by discriminate.
  assert (Hf : successfullyCompletedFolder K0 ≠ "") by discriminate.
  destruct (names_that_differ_by_a_trailing_slash K0 a1 a1_slash Hb Hf eq_refl)
    as (H1 & H2 & H3).
  split; [exact Hb|]. split; [exact Hf|]. split; [reflexivity|].
  split; [exact H1|]. split; [exact H2 | exact (H3 "PG_VERSION")].
Defined.

(** The marker of b1 is written and deleted again. *)
Lemma delete_marker_round_trip_witness :
  (∀ h, put_fault calm h (getSuccessfulMarker K0 "b1") = false)
  ∧ (∀ h, get_fault calm h (getSuccessfulMarker K0 "b1") = false)
  ∧ (∀ h, deletes h (getSuccessfulMarker K0 "b1") = false)
  ∧ objects (snd (deleteSuccessfulMarker K0 calm deletes "b1"
                    (snd (putSuccessfulMarker K0 calm "b1" (init marked)))))
    = delete (getSuccessfulMarker K0 "b1") (objects (init marked)).
Proof.
  assert (Hp : ∀ h, put_fault calm h (getSuccessfulMarker K0 "b1") = false) by done.
  assert (Hg : ∀ h, get_fault calm h (getSuccessfulMarker K0 "b1") = false) by done.
  assert (Hd : ∀ h, deletes h (getSuccessfulMarker K0 "b1") = false) by done.
  split; [exact Hp|]. split; [exact Hg|]. split; [exact Hd|].
  exact (proj1 (proj2 (proj2 (delete_marker_round_trip K0 calm deletes "b1" (init marked)
                                Hp Hg Hd)))).
Defined.

(** The lookup of the marker of b1 fails; the marker stays. *)
Lemma delete_marker_after_a_failed_lookup_witness :
  fst (GetString lookup_error Main (getSuccessfulMarker K0 "b1") (init marked))
  = inr Unavailable
  ∧ fst (deleteSuccessfulMarker K0 lookup_error deletes "b1" (init marked)) = true
  ∧ objects (snd (deleteSuccessfulMarker K0 lookup_error deletes "b1" (init marked)))
    = marked.
Proof.
  split; [reflexivity|].
  exact (delete_marker_after_a_failed_lookup K0 lookup_error deletes "b1" (init marked)
           Unavailable eq_refl).
Defined.

(** The calm run of the revision that calls S3 directly. *)
Lemma s3_exit_code_zero_guarantees_witness :
  exit_code (s3_run K0 calm a1 false (sequential calm a1) (init ∅)) = Some 0%Z
  ∧ event Main (marker_write K0 a1) true
    ∈ history (s3_run K0 calm a1 false (sequential calm a1) (init ∅))
  ∧ event Main (latest_write K0 a1) true
    ∈ history (s3_run K0 calm a1 false (sequential calm a1) (init ∅)).
Proof.
  assert (He : exit_code (s3_run K0 calm a1 false (sequential calm a1) (init ∅))
               = Some 0%Z) by (vm_compute; reflexivity).
  destruct (s3_exit_code_zero_guarantees K0 calm a1 false ∅ (sequential calm a1) He)
    as (_ & _ & _ & _ & H5 & H6).
  split; [exact He|]. split; [exact H5 | exact H6].
Defined.

(** The bucket already holds b1; it is taken over. *)
Lemma s3_overwrites_without_looking_witness :
  is_Some (taken !! backupKey a1)
  ∧ put_fault calm [] (backupKey a1) = false
  ∧ pc (s3_step K0 calm a1 false Control (init taken)) = AtStart
  ∧ objects (s3_step K0 calm a1 false Control (init taken))
    = <[backupKey a1 := Text ""]> taken.
Proof.
  split; [vm_compute; by eexists|]. split; [reflexivity|].
  exact (proj2 (s3_overwrites_without_looking K0 calm a1 false taken []) eq_refl).
Defined.

(** The upload of PG_VERSION fails. *)
Lemma failed_upload_ends_the_process_witness :
  terminal (holding unreadable_base_and_upload_fault 0) = false
  ∧ workers (holding unreadable_base_and_upload_fault 0) !! 0 = Some (Busy "PG_VERSION")
  ∧ put_fault unreadable_base_and_upload_fault
      (history (holding unreadable_base_and_upload_fault 0)) "b1/PG_VERSION" = true
  ∧ exit_code (step K0 unreadable_base_and_upload_fault a1 (Work 0)
                 (holding unreadable_base_and_upload_fault 0)) = Some 1%Z
  ∧ objects (step K0 unreadable_base_and_upload_fault a1 (Work 0)
               (holding unreadable_base_and_upload_fault 0))
    = objects (holding unreadable_base_and_upload_fault 0).
Proof.
  assert (Ht : terminal (holding unreadable_base_and_upload_fault 0) = false)
    by (vm_compute; reflexivity).
  assert (Hw : workers (holding unreadable_base_and_upload_fault 0) !! 0
               = Some (Busy "PG_VERSION")) by (vm_compute; reflexivity).
  assert (Hp : put_fault unreadable_base_and_upload_fault
                 (history (holding unreadable_base_and_upload_fault 0)) "b1/PG_VERSION"
               = true) by reflexivity.
  assert (Hle : (Size small_info <= compressThreshold a1)%Z) by (cbn; lia).
  destruct (proj2 (proj2 (failed_upload_ends_the_process K0
                            unreadable_base_and_upload_fault a1 _ 0 "PG_VERSION"
                            small_info Ht Hw eq_refl)) eq_refl Hle Hp)
    as (_ & Ho & He & _).
  split; [exact Ht|]. split; [exact Hw|]. split; [exact Hp|]. split; [exact He | exact Ho].
Defined.

(** The calm run ends with 0, the run with a failing upload with 1. *)
Lemma exit_code_is_zero_or_one_witness :
  exit_code (run K0 calm a1 (sequential calm a1) (init ∅)) = Some 0%Z
  ∧ ((0 = 0)%Z ∧ halted (run K0 calm a1 (sequential calm a1) (init ∅)) = None
     ∧ pc (run K0 calm a1 (sequential calm a1) (init ∅)) = Returned 0
     ∨ (0 = 1)%Z).
Proof.
  assert (He : exit_code (run K0 calm a1 (sequential calm a1) (init ∅)) = Some 0%Z)
    by (vm_compute; reflexivity).
  split; [exact He|].
  exact (exit_code_is_zero_or_one K0 calm a1 ∅ (sequential calm a1) 0 He).
Defined.
